(** * UserSpaceTaskLib: a shallow embedding of the task scheduler and mutex

    The development follows [proj.c].  C objects live in finite maps from
    addresses to records; a pointer is an address and [NULL] is address 0.
    A function that dereferences an address holding no object has no
    defined result, rendered as [None].  Loops over linked structures take
    a fuel argument, and [None] also stands for "no result within the fuel".
*)

From Stdlib Require Import ZArith Lia.
From stdpp Require Import gmap list option.

Local Open Scope Z_scope.
Local Open Scope nat_scope.

(** ** Types *)

Abbreviation addr := nat (only parsing).

Definition NULL : addr := 0.

(** typedef enum __taskState_t *)
Inductive taskState_t : Set := ALLOC | READY | RUNNING | BLOCKED | ZOMBIE.

#[global] Instance taskState_t_eq_dec : EqDecision taskState_t.
Proof. solve_decision. Defined.

(** Which [ucontext_t] object a context pointer designates: the static
    [cleanUpCtx] or the [context] field of a task node. *)
Inductive ctxref : Set :=
| NoCtx
| CleanUpCtx
| TaskCtx (t : addr).

#[global] Instance ctxref_eq_dec : EqDecision ctxref.
Proof. solve_decision. Defined.

(** What [makecontext] can install as entry routine: the library's own
    [cleanUpFunc] or a routine of the user, named by a number. *)
Inductive routine : Set :=
| CleanUpFunc
| UserFunc (f : nat).

(** The parts of [ucontext_t] the library itself writes: the stack, the
    successor context and the entry routine installed by [makecontext]
    (routine identifier, [argc], and the variadic arguments).  Registers
    and the saved signal mask are left out. *)
Record ucontext_t : Set := mkCtx {
  uc_stack_sp : addr;
  uc_stack_size : Z;
  uc_link : ctxref;
  uc_entry : option (routine * Z * list Z)
}.

Definition zeroCtx : ucontext_t := mkCtx NULL 0%Z NoCtx None.

(** typedef struct __taskNode_t *)
Record taskNode_t : Set := mkTask {
  context : ucontext_t;
  tState : taskState_t;
  next : addr;
  prev : addr
}.

(** A pointer to a [taskList_t]: either the list head embedded in the
    mutex at address [m], or a [myNode] local of some [lockMutex]
    activation. *)
Inductive lptr : Set :=
| LNull
| LHead (m : addr)
| LNode (n : addr).

#[global] Instance lptr_eq_dec : EqDecision lptr.
Proof. solve_decision. Defined.

(** typedef struct __taskList_t *)
Record taskList_t : Set := mkNode {
  task : addr;
  lnext : lptr;
  lprev : lptr
}.

(** typedef struct __myMutex_t *)
Record myMutex_t : Set := mkMutex {
  value : Z;
  lockedBy : addr;
  taskList : taskList_t
}.

(** The address of the static [tSchedListHead]. *)
Definition tSchedListHead : addr := 1.

(** The whole program state: the task nodes (the static list head
    included), the globals [currTask] and [mainTask], the static
    [cleanUpCtx], the mutexes, the live [myNode] locals, whether SIGALRM is
    masked, and the [swapcontext] calls made so far, oldest first. *)
Record world : Type := mkWorld {
  tasks : gmap nat taskNode_t;
  currTask : addr;
  mainTask : addr;
  cleanUpCtx : ucontext_t;
  mutexes : gmap nat myMutex_t;
  frames : gmap nat taskList_t;
  sigalrm_blocked : bool;
  swaps : list (ctxref * ctxref)
}.

Definition with_tasks (ts : gmap nat taskNode_t) (w : world) : world :=
  mkWorld ts (currTask w) (mainTask w) (cleanUpCtx w) (mutexes w) (frames w)
          (sigalrm_blocked w) (swaps w).

Definition with_currTask (c : addr) (w : world) : world :=
  mkWorld (tasks w) c (mainTask w) (cleanUpCtx w) (mutexes w) (frames w)
          (sigalrm_blocked w) (swaps w).

Definition with_mainTask (c : addr) (w : world) : world :=
  mkWorld (tasks w) (currTask w) c (cleanUpCtx w) (mutexes w) (frames w)
          (sigalrm_blocked w) (swaps w).

Definition with_cleanUpCtx (c : ucontext_t) (w : world) : world :=
  mkWorld (tasks w) (currTask w) (mainTask w) c (mutexes w) (frames w)
          (sigalrm_blocked w) (swaps w).

Definition with_mutexes (ms : gmap nat myMutex_t) (w : world) : world :=
  mkWorld (tasks w) (currTask w) (mainTask w) (cleanUpCtx w) ms (frames w)
          (sigalrm_blocked w) (swaps w).

Definition with_frames (fs : gmap nat taskList_t) (w : world) : world :=
  mkWorld (tasks w) (currTask w) (mainTask w) (cleanUpCtx w) (mutexes w) fs
          (sigalrm_blocked w) (swaps w).

Definition with_sigalrm (b : bool) (w : world) : world :=
  mkWorld (tasks w) (currTask w) (mainTask w) (cleanUpCtx w) (mutexes w)
          (frames w) b (swaps w).

Definition with_swaps (l : list (ctxref * ctxref)) (w : world) : world :=
  mkWorld (tasks w) (currTask w) (mainTask w) (cleanUpCtx w) (mutexes w)
          (frames w) (sigalrm_blocked w) l.

(** ** Field reads and writes on task nodes *)

Definition get_tState (a : addr) (w : world) : option taskState_t :=
  tState <$> tasks w !! a.

Definition get_next (a : addr) (w : world) : option addr :=
  next <$> tasks w !! a.

Definition get_prev (a : addr) (w : world) : option addr :=
  prev <$> tasks w !! a.

Definition get_context (a : addr) (w : world) : option ucontext_t :=
  context <$> tasks w !! a.

Definition set_tState (a : addr) (s : taskState_t) (w : world) : option world :=
  n ← tasks w !! a;
  Some (with_tasks (<[a := mkTask (context n) s (next n) (prev n)]> (tasks w)) w).

Definition set_next (a : addr) (v : addr) (w : world) : option world :=
  n ← tasks w !! a;
  Some (with_tasks (<[a := mkTask (context n) (tState n) v (prev n)]> (tasks w)) w).

Definition set_prev (a : addr) (v : addr) (w : world) : option world :=
  n ← tasks w !! a;
  Some (with_tasks (<[a := mkTask (context n) (tState n) (next n) v]> (tasks w)) w).

Definition set_context (a : addr) (c : ucontext_t) (w : world) : option world :=
  n ← tasks w !! a;
  Some (with_tasks (<[a := mkTask c (tState n) (next n) (prev n)]> (tasks w)) w).

(** ** The ready list *)

(** void listInit(taskNode_t *head) *)
Definition listInit (head : addr) (w : world) : option world :=
  w1 ← set_next head head w;
  set_prev head head w1.

(** void listAdd(taskNode_t *head, taskNode_t *node) *)
Definition listAdd (head node : addr) (w : world) : option world :=
  hp ← get_prev head w;
  w1 ← set_next hp node w;
  hp1 ← get_prev head w1;
  w2 ← set_prev node hp1 w1;
  w3 ← set_next node head w2;
  set_prev head node w3.

(** void listRemove(const taskNode_t *head, taskNode_t *node) *)
Definition listRemove (head node : addr) (w : world) : option world :=
  if decide (head ≠ node) then
    nn ← get_next node w;
    np ← get_prev node w;
    w1 ← set_prev nn np w;
    np1 ← get_prev node w1;
    nn1 ← get_next node w1;
    set_next np1 nn1 w1
  else Some w.

(** The [while (nextNode == head)] loop of [listGetNext]. *)
Fixpoint listGetNext_loop (fuel : nat) (head nextNode : addr) (w : world)
  : option addr :=
  if decide (nextNode = head) then
    match fuel with
    | O => None
    | S fuel' =>
        n ← get_next nextNode w;
        listGetNext_loop fuel' head n w
    end
  else Some nextNode.

(** taskNode_t *listGetNext(const taskNode_t *head, const taskNode_t *node) *)
Definition listGetNext (fuel : nat) (head node : addr) (w : world)
  : option addr :=
  nextNode ← get_next node w;
  listGetNext_loop fuel head nextNode w.

(** ** The scheduler *)

(** The condition that ends the scan of [getNextTask]. *)
Definition runnable (s : taskState_t) : bool :=
  match s with
  | READY | RUNNING => true
  | _ => false
  end.

(** The [do ... while] loop of [getNextTask]; [fuel] bounds its
    iterations and [lfuel] those of each [listGetNext] call. *)
Fixpoint getNextTask_loop (lfuel fuel : nat) (nextTask : addr) (w : world)
  : option addr :=
  match fuel with
  | O => None
  | S fuel' =>
      nextTask' ← listGetNext lfuel tSchedListHead nextTask w;
      s ← get_tState nextTask' w;
      if runnable s then Some nextTask'
      else getNextTask_loop lfuel fuel' nextTask' w
  end.

(** taskNode_t *getNextTask(void) *)
Definition getNextTask (fuel : nat) (w : world) : option addr :=
  let nextTask :=
    if decide (currTask w = NULL) then tSchedListHead else currTask w in
  getNextTask_loop fuel fuel nextTask w.

(** taskNode_t *switchTasks(void) *)
Definition switchTasks (fuel : nat) (w : world) : option (addr * world) :=
  let oldTask := currTask w in
  nxt ← getNextTask fuel w;
  let w1 := with_currTask nxt w in
  w2 ← set_tState oldTask READY w1;
  w3 ← set_tState (currTask w2) RUNNING w2;
  Some (oldTask, w3).

(** [swapcontext(old, new)]: the transfer of control is recorded; whatever
    runs before control comes back is supplied by the caller of the model
    (see [taskJoin] and [lockMutex]).  The signal mask that the code saves
    in [old] and restores from [new] is not rendered: [sigalrm_blocked]
    is left as it is. *)
Definition swapcontext (old new : ctxref) (w : world) : world :=
  with_swaps (swaps w ++ [(old, new)]) w.

(** void schedule(void) *)
Definition schedule (fuel : nat) (w : world) : option world :=
  '(oldTask, w1) ← switchTasks fuel w;
  Some (swapcontext (TaskCtx oldTask) (TaskCtx (currTask w1)) w1).

(** void blockSched(void) / void unblockSched(void) *)
Definition blockSched (w : world) : world := with_sigalrm true w.
Definition unblockSched (w : world) : world := with_sigalrm false w.

(** ** Task creation and retirement *)

(** [calloc(1, sizeof(taskNode_t))] returning [a]: a zero-filled node
    appears at [a], unless the allocation failed ([a = NULL]). *)
Definition calloc_task (a : addr) (w : world) : world :=
  if decide (a = NULL) then w
  else with_tasks (<[a := mkTask zeroCtx ALLOC NULL NULL]> (tasks w)) w.

(** taskNode_t *createTask(void); [newTask] is what [calloc] returned. *)
Definition createTask (newTask : addr) (w : world) : option (addr * world) :=
  let w1 := calloc_task newTask w in
  if decide (newTask ≠ NULL) then
    w2 ← set_tState newTask ALLOC w1;
    Some (newTask, w2)
  else Some (newTask, w1).

(** [getcontext] stores registers and the signal mask, none of which is
    represented in [ucontext_t] here. *)
Definition getcontext (c : ucontext_t) : ucontext_t := c.

Definition set_ss_sp (sp : addr) (c : ucontext_t) : ucontext_t :=
  mkCtx sp (uc_stack_size c) (uc_link c) (uc_entry c).

Definition set_ss_size (n : Z) (c : ucontext_t) : ucontext_t :=
  mkCtx (uc_stack_sp c) n (uc_link c) (uc_entry c).

Definition set_uc_link (l : ctxref) (c : ucontext_t) : ucontext_t :=
  mkCtx (uc_stack_sp c) (uc_stack_size c) l (uc_entry c).

(** [makecontext] installs the entry routine and builds its first frame
    on the stack the context names.  Neither [initTask] nor [taskLibInit]
    tests what [calloc] returned for that stack: when it is [NULL] the
    frame is written near address 0 and the call has no defined result. *)
Definition makecontext (f : routine) (argc : Z) (args : list Z)
  (c : ucontext_t) : option ucontext_t :=
  if decide (uc_stack_sp c = NULL) then None
  else Some (mkCtx (uc_stack_sp c) (uc_stack_size c) (uc_link c)
                   (Some (f, argc, args))).

Definition upd_context (a : addr) (f : ucontext_t → ucontext_t) (w : world)
  : option world :=
  c ← get_context a w;
  set_context a (f c) w.

(** The same for a call on the context that can fail. *)
Definition try_context (a : addr) (f : ucontext_t → option ucontext_t)
  (w : world) : option world :=
  c ← get_context a w;
  c' ← f c;
  set_context a c' w.

(** The macro [initTask(newTask, func, argc, ...)]; [stack] is what the
    [calloc(16384, sizeof(char))] in its body returned. *)
Definition initTask (fuel : nat) (stack : addr) (newTask : addr)
  (func : routine) (argc : Z) (args : list Z) (w : world) : option world :=
  if decide (newTask = NULL) then Some w
  else
    s ← get_tState newTask w;
    if decide (s ≠ ALLOC) then Some w
    else
      w1 ← upd_context newTask getcontext w;
      w2 ← upd_context newTask (set_ss_sp stack) w1;
      w3 ← upd_context newTask (set_ss_size (16384 * 1)%Z) w2;
      w4 ← upd_context newTask (set_uc_link CleanUpCtx) w3;
      w5 ← try_context newTask (makecontext func argc args) w4;
      w6 ← set_tState newTask READY w5;
      w7 ← listAdd tSchedListHead newTask w6;
      schedule fuel w7.

(** void taskLibInit(void); [main] and [stack] are what the two [calloc]
    calls returned.  The signal handler and the interval timer it installs
    are outside the state modelled here. *)
Definition taskLibInit (main stack : addr) (w : world) : option world :=
  w1 ← listInit tSchedListHead w;
  let w2 := with_currTask main (calloc_task main w1) in
  let w3 := with_mainTask (currTask w2) w2 in
  w4 ← upd_context (currTask w3) getcontext w3;
  w5 ← listAdd tSchedListHead (currTask w4) w4;
  let c1 := getcontext (cleanUpCtx w5) in
  let c2 := set_ss_sp stack c1 in
  let c3 := set_ss_size (16384 * 1)%Z c2 in
  let c4 := set_uc_link (TaskCtx (mainTask w5)) c3 in
  c5 ← makecontext CleanUpFunc 0%Z [] c4;
  Some (with_cleanUpCtx c5 w5).

(** One turn of the [while (1)] loop of [cleanUpFunc], up to and including
    its [swapcontext]. *)
Definition cleanUpFunc (fuel : nat) (w : world) : option world :=
  w1 ← listRemove tSchedListHead (currTask w) w;
  w2 ← set_tState (currTask w1) ZOMBIE w1;
  let w3 := with_currTask NULL w2 in
  nxt ← getNextTask fuel w3;
  let w4 := with_currTask nxt w3 in
  Some (swapcontext CleanUpCtx (TaskCtx (currTask w4)) w4).

(** ** Operations that can give up the processor *)

(** How a call that may switch away ends: it returned, it is still
    suspended inside a [schedule()] when the supplied rounds run out, or it
    had no defined behaviour. *)
Inductive outcome : Type :=
| Returned (w : world)
| Suspended (w : world)
| Fault.

(** What the rest of the system does between the moment a task switches
    away in [schedule()] and the moment [schedule()] returns in that task. *)
Abbreviation round := (world → option world) (only parsing).

(** The [while (tWait->tState != ZOMBIE)] loop of [taskJoin]. *)
Fixpoint taskJoin_loop (fuel : nat) (rounds : list round) (tWait : addr)
  (w : world) : outcome :=
  match get_tState tWait w with
  | None => Fault
  | Some s =>
      if decide (s ≠ ZOMBIE) then
        match schedule fuel w with
        | None => Fault
        | Some w1 =>
            match rounds with
            | [] => Suspended w1
            | r :: rounds' =>
                match r w1 with
                | None => Fault
                | Some w2 => taskJoin_loop fuel rounds' tWait w2
                end
            end
        end
      else Returned w
  end.

(** void taskJoin(const taskNode_t *tWait) *)
Definition taskJoin (fuel : nat) (rounds : list round) (tWait : addr)
  (w : world) : outcome :=
  if decide (tWait ≠ NULL) then taskJoin_loop fuel rounds tWait w
  else Returned w.

(** ** The mutex *)

(** Reading and writing the [taskList_t] a pointer designates. *)
Definition lget (p : lptr) (w : world) : option taskList_t :=
  match p with
  | LNull => None
  | LHead m => taskList <$> mutexes w !! m
  | LNode n => frames w !! n
  end.

Definition lput (p : lptr) (nd : taskList_t) (w : world) : option world :=
  match p with
  | LNull => None
  | LHead m =>
      mx ← mutexes w !! m;
      Some (with_mutexes (<[m := mkMutex (value mx) (lockedBy mx) nd]> (mutexes w)) w)
  | LNode n =>
      _ ← frames w !! n;
      Some (with_frames (<[n := nd]> (frames w)) w)
  end.

Definition get_lnext (p : lptr) (w : world) : option lptr := lnext <$> lget p w.
Definition get_lprev (p : lptr) (w : world) : option lptr := lprev <$> lget p w.
Definition get_task (p : lptr) (w : world) : option addr := task <$> lget p w.

Definition set_lnext (p : lptr) (v : lptr) (w : world) : option world :=
  nd ← lget p w; lput p (mkNode (task nd) v (lprev nd)) w.

Definition set_lprev (p : lptr) (v : lptr) (w : world) : option world :=
  nd ← lget p w; lput p (mkNode (task nd) (lnext nd) v) w.

Definition set_task (p : lptr) (t : addr) (w : world) : option world :=
  nd ← lget p w; lput p (mkNode t (lnext nd) (lprev nd)) w.

Definition get_value (m : addr) (w : world) : option Z :=
  value <$> mutexes w !! m.

Definition get_lockedBy (m : addr) (w : world) : option addr :=
  lockedBy <$> mutexes w !! m.

Definition set_value (m : addr) (v : Z) (w : world) : option world :=
  mx ← mutexes w !! m;
  Some (with_mutexes (<[m := mkMutex v (lockedBy mx) (taskList mx)]> (mutexes w)) w).

Definition set_lockedBy (m : addr) (t : addr) (w : world) : option world :=
  mx ← mutexes w !! m;
  Some (with_mutexes (<[m := mkMutex (value mx) t (taskList mx)]> (mutexes w)) w).

(** void initMyMutex(myMutex_t *mutex) *)
Definition initMyMutex (m : addr) (w : world) : option world :=
  w1 ← set_value m 0%Z w;
  w2 ← set_lnext (LHead m) (LHead m) w1;
  w3 ← set_lprev (LHead m) (LHead m) w2;
  set_task (LHead m) NULL w3.

(** The block-scoped local [taskList_t myNode] of [lockMutex], living at
    address [n]: it comes into existence when the block is entered and is
    gone when the block is left. *)
Definition enter_myNode (n : addr) (w : world) : world :=
  with_frames (<[n := mkNode NULL LNull LNull]> (frames w)) w.

Definition leave_myNode (n : addr) (w : world) : world :=
  with_frames (delete n (frames w)) w.

(** "add to waiting queue", the five assignments of [lockMutex]. *)
Definition lock_enqueue (myNode m : addr) (w : world) : option world :=
  w1 ← set_task (LNode myNode) (currTask w) w;
  tl ← get_lprev (LHead m) w1;
  w2 ← set_lnext tl (LNode myNode) w1;
  w3 ← set_lprev (LHead m) (LNode myNode) w2;
  hp ← get_lprev (LHead m) w3;
  w4 ← set_lprev (LNode myNode) hp w3;
  set_lnext (LNode myNode) (LHead m) w4.

(** The inner [while (mutex->value != 0)] loop of [lockMutex]. *)
Fixpoint lock_wait (fuel : nat) (rounds : list round) (m : addr) (w : world)
  : outcome :=
  match get_value m w with
  | None => Fault
  | Some v =>
      if decide (v ≠ 0%Z) then
        match set_tState (currTask w) BLOCKED w with
        | None => Fault
        | Some w1 =>
            match schedule fuel (unblockSched w1) with
            | None => Fault
            | Some w2 =>
                match rounds with
                | [] => Suspended w2
                | r :: rounds' =>
                    match r w2 with
                    | None => Fault
                    | Some w3 => lock_wait fuel rounds' m (blockSched w3)
                    end
                end
            end
        end
      else Returned w
  end.

(** "remove from waiting queue", the two assignments of [lockMutex]. *)
Definition lock_dequeue (myNode : addr) (w : world) : option world :=
  p ← get_lprev (LNode myNode) w;
  n ← get_lnext (LNode myNode) w;
  w1 ← set_lnext p n w;
  n1 ← get_lnext (LNode myNode) w1;
  p1 ← get_lprev (LNode myNode) w1;
  set_lprev n1 p1 w1.

(** The last three statements of [lockMutex]. *)
Definition lock_claim (m : addr) (w : world) : outcome :=
  match set_value m 1%Z w with
  | None => Fault
  | Some w1 =>
      match set_lockedBy m (currTask w1) w1 with
      | None => Fault
      | Some w2 => Returned (unblockSched w2)
      end
  end.

(** What [lockMutex] does once the waiting loop is over: leave the queue,
    leave the block of [myNode], claim the mutex. *)
Definition lock_finish (myNode m : addr) (w : world) : outcome :=
  match lock_dequeue myNode w with
  | None => Fault
  | Some w1 => lock_claim m (leave_myNode myNode w1)
  end.

(** void lockMutex(myMutex_t *mutex); [myNode] is the address of the
    local of that name. *)
Definition lockMutex (fuel : nat) (rounds : list round) (myNode : addr)
  (m : addr) (w : world) : outcome :=
  let w0 := blockSched w in
  match get_value m w0 with
  | None => Fault
  | Some v =>
      if decide (v ≠ 0%Z) then
        match lock_enqueue myNode m (enter_myNode myNode w0) with
        | None => Fault
        | Some w1 =>
            match lock_wait fuel rounds m w1 with
            | Returned w2 => lock_finish myNode m w2
            | Suspended w2 => Suspended w2
            | Fault => Fault
            end
        end
      else lock_claim m w0
  end.

(** The rest of a [lockMutex] call in a task whose [schedule()] inside the
    waiting loop has just returned: mask, test the loop condition again,
    and go on from there. *)
Definition lock_resume (fuel : nat) (rounds : list round) (myNode : addr)
  (m : addr) (w : world) : outcome :=
  match lock_wait fuel rounds m (blockSched w) with
  | Returned w1 => lock_finish myNode m w1
  | Suspended w1 => Suspended w1
  | Fault => Fault
  end.

(** myMutex_t *tryLockMutex(myMutex_t *mutex); the result is the pointer
    returned, [m] or [NULL]. *)
Definition tryLockMutex (m : addr) (w : world) : option (addr * world) :=
  let ret := NULL in
  let w0 := blockSched w in
  v ← get_value m w0;
  if decide (v = 0%Z) then
    w1 ← set_value m 1%Z w0;
    Some (m, unblockSched w1)
  else Some (ret, unblockSched w0).

(** The [while (nextT != &(mutex->taskList))] loop of [unlockMutex]. *)
Fixpoint unlock_notify (fuel : nat) (m : addr) (nextT : lptr) (w : world)
  : option world :=
  if decide (nextT ≠ LHead m) then
    match fuel with
    | O => None
    | S fuel' =>
        t ← get_task nextT w;
        w1 ← set_tState t READY w;
        nextT' ← get_lnext nextT w1;
        unlock_notify fuel' m nextT' w1
    end
  else Some w.

(** void unlockMutex(myMutex_t *mutex) *)
Definition unlockMutex (fuel : nat) (m : addr) (w : world) : option world :=
  let w0 := blockSched w in
  v ← get_value m w0;
  o ← get_lockedBy m w0;
  if decide (v ≠ 0%Z ∧ o = currTask w0) then
    w1 ← set_value m 0%Z w0;
    nextT ← get_lnext (LHead m) w1;
    w2 ← unlock_notify fuel m nextT w1;
    Some (unblockSched w2)
  else Some (unblockSched w0).

(** A [myMutex_t] object with contents [mx] (whatever the memory held)
    comes into existence at [m]. *)
Definition new_mutex (m : addr) (mx : myMutex_t) (w : world) : world :=
  with_mutexes (<[m := mx]> (mutexes w)) w.

(** ** The preemption path *)

(** The signal handler [sigHand], as far as [currTask] and the task
    states go: that is its call of [switchTasks].  The signal frame
    [vcontext] is no part of [world], and the two [setCtx] calls that copy
    between it and the [context] fields of the task nodes are not
    rendered: the [context] of the preempted task is left as it was,
    where the code overwrites its stack and successor with those of the
    frame.  [setCtx] itself is modelled on its own, on register files. *)
Definition sigHand (fuel : nat) (w : world) : option world :=
  snd <$> switchTasks fuel w.

(** ** The library as a set of operations

    What the running task can do to the shared state in one go: a call of
    the API up to its return or up to the point where it switches away,
    the resumption of a suspended [lockMutex], the signal handler, and
    [cleanUpFunc], which is what runs when the task's entry routine
    returns ([uc_link] of every task context is [cleanUpCtx]). *)
Inductive op : Type :=
| OpCreateTask (newTask : addr)
| OpInitTask (fuel : nat) (stack newTask : addr) (func : routine)
             (argc : Z) (args : list Z)
| OpSchedule (fuel : nat)
| OpSigHand (fuel : nat)
| OpInitMyMutex (m : addr)
| OpTryLockMutex (m : addr)
| OpUnlockMutex (fuel : nat) (m : addr)
| OpLockMutex (fuel : nat) (myNode m : addr)
| OpLockResume (fuel : nat) (myNode m : addr)
| OpCleanUpFunc (fuel : nat).

Definition settled (o : outcome) : option world :=
  match o with
  | Returned w => Some w
  | Suspended w => Some w
  | Fault => None
  end.

Definition exec (o : op) (w : world) : option world :=
  match o with
  | OpCreateTask a => snd <$> createTask a w
  | OpInitTask fuel stack t f argc args => initTask fuel stack t f argc args w
  | OpSchedule fuel => schedule fuel w
  | OpSigHand fuel => sigHand fuel w
  | OpInitMyMutex m => initMyMutex m w
  | OpTryLockMutex m => snd <$> tryLockMutex m w
  | OpUnlockMutex fuel m => unlockMutex fuel m w
  | OpLockMutex fuel n m => settled (lockMutex fuel [] n m w)
  | OpLockResume fuel n m => settled (lock_resume fuel [] n m w)
  | OpCleanUpFunc fuel => cleanUpFunc fuel w
  end.

(** ** Vocabulary for the statements *)

(** [chain R a l]: each element of [a :: l] is related by [R] to the one
    after it. *)
Fixpoint chain (R : addr → addr → Prop) (a : addr) (l : list addr) : Prop :=
  match l with
  | [] => True
  | b :: l' => R a b ∧ chain R b l'
  end.

(** Following [next] from [a] visits the nodes of [l] in order. *)
Definition path (w : world) : addr → list addr → Prop :=
  chain (λ a b, get_next a w = Some b).

(** The ready list is a ring: [tSchedListHead], then the nodes of [l] in
    order, then [tSchedListHead] again, all distinct, and the head's [prev]
    is the last node. *)
Definition ring (l : list addr) (w : world) : Prop :=
  NoDup (tSchedListHead :: l) ∧
  path w tSchedListHead (l ++ [tSchedListHead]) ∧
  get_prev tSchedListHead w = Some (List.last l tSchedListHead).

(** One call of [listGetNext] on the head leads from [a] to [b]. *)
Definition hop (w : world) (a b : addr) : Prop :=
  ∀ fuel, 1 ≤ fuel → listGetNext fuel tSchedListHead a w = Some b.

Definition is_runnable (w : world) (a : addr) : bool :=
  match get_tState a w with
  | Some s => runnable s
  | None => false
  end.


(** The order in which [getNextTask] meets the nodes of the ready list
    [l] when the current position is [c]: from the head when [c] is
    [NULL], otherwise from just past [c], wrapping around, [c] last. *)
Inductive scan_order (l : list addr) : addr → list addr → Prop :=
| scan_from_head : scan_order l NULL l
| scan_from_task l1 c l2 :
    c ≠ NULL → l = l1 ++ c :: l2 → scan_order l c (l2 ++ l1 ++ [c]).


(** ** Concrete runs

    The statics before [taskLibInit], and a few states reached from there
    through the API.  Address 2 is the main task, 3 and 4 are tasks made by
    [createTask], 10 is a mutex, 30 and 40 are [myNode] locals. *)

Definition boot : world :=
  mkWorld {[ tSchedListHead := mkTask zeroCtx ALLOC NULL NULL ]}
          NULL NULL zeroCtx ∅ ∅ false [].

(** [taskLibInit(); t = createTask(); initTask(t, f1, 0);] after which
    task 3 is running. *)
Definition two_tasks : option world :=
  w ← taskLibInit 2 100 boot;
  '(t, w1) ← createTask 3 w;
  initTask 4 200 t (UserFunc 1) 0%Z [] w1.

(** Task 3 goes on with [t = createTask(); initTask(t, f2, 0);] after
    which task 4 is running. *)
Definition three_tasks : option world :=
  w ← two_tasks;
  '(t, w1) ← createTask 4 w;
  initTask 4 201 t (UserFunc 2) 0%Z [] w1.

(** The running task marks itself BLOCKED, as line 125 of [lockMutex]
    does before it calls [schedule()]. *)
Definition blocked_current : option world :=
  w ← two_tasks;
  set_tState (currTask w) BLOCKED w.

Definition stale_mutex : myMutex_t := mkMutex 7%Z NULL (mkNode NULL LNull LNull).

(** Task 3 runs [initMyMutex(&M)] on a mutex at address 10. *)
Definition mutex_ready : option world :=
  w ← two_tasks;
  initMyMutex 10 (new_mutex 10 stale_mutex w).

(** Task 3 then calls [tryLockMutex(&M)]. *)
Definition trylocked : option (addr * world) :=
  w ← mutex_ready;
  tryLockMutex 10 w.

(** Or else task 3 calls [lockMutex(&M)], which returns at once. *)
Definition locked_by_3 : option world :=
  w ← mutex_ready;
  settled (lockMutex 4 [] 30 10 w).

(** From [locked_by_3]: task 3 releases the mutex and yields; main, now
    running, calls [tryLockMutex(&M)]. *)
Definition taken_by_main : option (addr * world) :=
  w ← locked_by_3;
  w ← unlockMutex 4 10 w;
  w ← schedule 4 w;
  tryLockMutex 10 w.

(** Main yields in its turn: task 3 is running again while main has the
    mutex. *)
Definition holder_yielded : option world :=
  '(_, w) ← taken_by_main;
  schedule 4 w.

(** Task 3 calls [lockMutex(&M)] a second time; the call switches away. *)
Definition self_locked : outcome :=
  match locked_by_3 with
  | Some w => lockMutex 4 [] 30 10 w
  | None => Fault
  end.

(** The state in which a task finds itself after it has called
    [schedule()] once for every element of [rounds] and the last of these
    calls has returned. *)
Fixpoint join_polls (fuel : nat) (rounds : list round) (w : world)
  : option world :=
  match rounds with
  | [] => Some w
  | r :: rounds' =>
      w1 ← schedule fuel w;
      w2 ← r w1;
      join_polls fuel rounds' w2
  end.

(** No task is ZOMBIE in [w'] that was not already ZOMBIE in [w]. *)
Definition no_new_zombie (w w' : world) : Prop :=
  ∀ t, get_tState t w' = Some ZOMBIE → get_tState t w = Some ZOMBIE.

(** [w'] differs from [w] at most in the mutexes, the [myNode] records
    and the signal mask. *)
Definition same_sched (w w' : world) : Prop :=
  tasks w' = tasks w ∧ currTask w' = currTask w ∧ swaps w' = swaps w.

(** [taskJoin] on [t] comes back with state [w'] after exactly [k] calls
    of [schedule()]: at each of the first [k] tests of the loop condition
    [t] was not ZOMBIE, and at the next one, in [w'], it was. *)
Definition first_zombie_poll (fuel : nat) (rounds : list round) (t : addr)
  (w w' : world) (k : nat) : Prop :=
  k ≤ length rounds ∧
  join_polls fuel (take k rounds) w = Some w' ∧
  get_tState t w' = Some ZOMBIE ∧
  ∀ j, j < k →
       ∃ wj s, join_polls fuel (take j rounds) w = Some wj ∧
               get_tState t wj = Some s ∧ s ≠ ZOMBIE.

(** Following [lnext] from the pointer [p] visits the [myNode] records at
    the addresses [ns] in order and then arrives at [q]. *)
Fixpoint lpath (fs : gmap nat taskList_t) (p : lptr) (ns : list addr)
  (q : lptr) : Prop :=
  match ns with
  | [] => p = q
  | n :: ns' =>
      p = LNode n ∧ ∃ nd, fs !! n = Some nd ∧ lpath fs (lnext nd) ns' q
  end.

(** The tasks recorded in the [myNode] records at [ns]. *)
Definition wtasks (fs : gmap nat taskList_t) (ns : list addr) : list addr :=
  omap (λ n, task <$> fs !! n) ns.

(** The wait collection of the mutex at [m] consists of the [myNode]
    records at [ns], in the order in which they were queued: they are
    distinct, linked from the head of the mutex through [lnext] back to the
    head, and the head's [lprev] points to the last of them. *)
Definition waiting (m : addr) (ns : list addr) (w : world) : Prop :=
  ∃ mx, mutexes w !! m = Some mx ∧
        NoDup ns ∧
        lpath (frames w) (lnext (taskList mx)) ns (LHead m) ∧
        lprev (taskList mx) = List.last (LNode <$> ns) (LHead m).

(** Main (task 2) takes the mutex, makes task 3, which makes task 4;
    tasks 4 and 3 both call [lockMutex] and end up queued, in that order,
    and main is running again. *)
Definition contended : option world :=
  w ← taskLibInit 2 100 boot;
  w ← initMyMutex 10 (new_mutex 10 stale_mutex w);
  w ← settled (lockMutex 4 [] 20 10 w);
  '(t, w) ← createTask 3 w;
  w ← initTask 4 200 t (UserFunc 1) 0%Z [] w;
  '(t, w) ← createTask 4 w;
  w ← initTask 4 201 t (UserFunc 2) 0%Z [] w;
  w ← settled (lockMutex 4 [] 40 10 w);
  w ← schedule 4 w;
  w ← settled (lockMutex 4 [] 30 10 w);
  settled (lock_resume 4 [] 40 10 w).

(** Three tasks, task 4 running, task 2 BLOCKED. *)
Definition one_blocked : option world :=
  w ← three_tasks;
  set_tState 2 BLOCKED w.

(** [taskLibInit(); t = createTask();] with task 3 not yet initialised. *)
Definition created : option world :=
  w ← taskLibInit 2 100 boot;
  snd <$> createTask 3 w.

(** Task 3 has yielded, so that main is running again next to it. *)
Definition main_again : option world :=
  w ← two_tasks;
  schedule 4 w.

(** From [contended]: main releases the mutex and yields; task 3 comes
    back from [schedule()] inside [lockMutex], finds the mutex free, leaves
    the queue and takes the mutex. *)
Definition reacquired : option world :=
  w ← contended;
  w ← unlockMutex 4 10 w;
  w ← schedule 4 w;
  settled (lock_resume 4 [] 30 10 w).

(** ** Vocabulary for the remaining functions *)

(** The ready list as a doubly linked ring: the nodes of [l] between two
    visits of [tSchedListHead], linked forward by [next] and backward by
    [prev]. *)
Definition dring (l : list addr) (w : world) : Prop :=
  NoDup (tSchedListHead :: l) ∧
  path w tSchedListHead (l ++ [tSchedListHead]) ∧
  chain (λ a b, get_prev b w = Some a) tSchedListHead (l ++ [tSchedListHead]).

(** No task but the current one is RUNNING. *)
Definition only_current_running (w : world) : Prop :=
  ∀ a, get_tState a w = Some RUNNING → a = currTask w.

(** [w'] has the same current task as [w] and no RUNNING task that was
    not RUNNING in [w]. *)
Definition no_new_running (w w' : world) : Prop :=
  currTask w' = currTask w ∧
  ∀ a, get_tState a w' = Some RUNNING → get_tState a w = Some RUNNING.

(** [k] scheduling decisions in a row: every task that gets the processor
    calls [schedule()] at once. *)
Fixpoint schedule_n (fuel k : nat) (w : world) : option world :=
  match k with
  | O => Some w
  | S k' => w1 ← schedule fuel w; schedule_n fuel k' w1
  end.

(** ** Saved machine state *)

(** The fields of a [ucontext_t] that [setCtx] copies: the general
    registers [uc_mcontext.gregs], the floating-point state that
    [uc_mcontext.fpregs] points to ([None] for a null pointer), the stack,
    the signal mask, the flags and the link. *)
Record regs_t : Set := mkRegs {
  gregs : list Z;
  fpregs : option (list Z);
  r_ss_sp : addr;
  r_ss_size : Z;
  r_sigmask : Z;
  r_flags : Z;
  r_link : ctxref
}.

(** [memcpy(dest, src, n * sizeof(word))] on arrays of words; reading or
    writing past the end of an array has no defined result. *)
Definition memcpy (n : nat) (dest src : list Z) : option (list Z) :=
  if decide (n ≤ length dest ∧ n ≤ length src)
  then Some (take n src ++ drop n dest)
  else None.

(** void setCtx(ucontext_t *destCtx, ucontext_t *srcCtx) *)
Definition setCtx (destCtx srcCtx : regs_t) : option regs_t :=
  g ← memcpy 18 (gregs destCtx) (gregs srcCtx);
  df ← fpregs destCtx;
  sf ← fpregs srcCtx;
  f ← memcpy (length sf) df sf;
  Some (mkRegs g (Some f) (r_ss_sp srcCtx) (r_ss_size srcCtx)
               (r_sigmask srcCtx) (r_flags srcCtx) (r_link srcCtx)).

(** The mutex at [m] is held. *)
Definition held (m : addr) (w : world) : Prop :=
  ∃ v, get_value m w = Some v ∧ v ≠ 0%Z.

(** ** More concrete runs *)

(** The state right after [taskLibInit]. *)
Definition main_only : world := default boot (taskLibInit 2 100 boot).

(** Tasks 2 and 3 on the list, task 3 running, and a node just obtained
    from [createTask] at address 4. *)
Definition two_and_new : world :=
  default boot (w ← two_tasks; snd <$> createTask 4 w).

(** Tasks 2, 3 and 4 on the list, task 4 running. *)
Definition three_w : world := default boot three_tasks.

(** Task 3 is running and has initialised the mutex at address 10. *)
Definition mutex_w : world := default boot mutex_ready.

(** Task 3 holds that mutex. *)
Definition locked_w : world := default boot locked_by_3.

(** [taskLibInit(); initMyMutex(&M); lockMutex(&M);] in main, with no
    other task made: main holds the mutex and is alone on the list. *)
Definition main_holds : world :=
  default boot (w ← taskLibInit 2 100 boot;
                w1 ← initMyMutex 10 (new_mutex 10 stale_mutex w);
                settled (lockMutex 4 [] 30 10 w1)).

(** Main holds the mutex, tasks 4 and 3 are queued on it. *)
Definition contended_w : world := default boot contended.

(** The same with the two queued tasks in the state BLOCKED that line 125
    gave them before they switched away. *)
Definition contended_blocked : world :=
  default boot (w ← set_tState 4 BLOCKED contended_w; set_tState 3 BLOCKED w).

(** Register files for [setCtx]: 23 general registers and a
    floating-point state of four words. *)
Definition regs_of (base : Z) (link : ctxref) : regs_t :=
  mkRegs ((λ i, (base + Z.of_nat i)%Z) <$> seq 0 23)
         (Some [base; base; base; base]) 0 16384%Z 0%Z base link.
(** * Properties *)

(** ** Reads after writes on task nodes *)

Ltac unfold_access :=
  unfold upd_context in *;
  unfold get_tState, get_next, get_prev, get_context,
         set_tState, set_next, set_prev, set_context in *.

Ltac solve_rw :=
  intros; unfold_access;
  repeat match goal with
         | H : (_ ≫= _) = Some _ |- _ => apply bind_Some in H; destruct H as (? & ? & H)
         | H : (_ <$> _) = Some _ |- _ => apply fmap_Some in H; destruct H as (? & H & ?)
         | H : Some _ = Some _ |- _ => injection H as H
         end;
  subst; simpl;
  repeat match goal with
         | |- context [<[?a := _]> _ !! ?b] =>
             destruct (decide (a = b));
             [subst; rewrite lookup_insert_eq | rewrite lookup_insert_ne by done]
         | |- context [decide (?a = ?b)] => destruct (decide (a = b)); subst
         end;
  simpl;
  repeat match goal with
         | H : _ !! _ = Some _ |- _ => rewrite H
         end;
  simpl; try congruence; try done.


Lemma get_next_set_tState a s w w' b :
  set_tState a s w = Some w' → get_next b w' = get_next b w.
Proof. solve_rw. Qed.

Lemma get_prev_set_tState a s w w' b :
  set_tState a s w = Some w' → get_prev b w' = get_prev b w.
Proof. solve_rw. Qed.

Lemma get_context_set_tState a s w w' b :
  set_tState a s w = Some w' → get_context b w' = get_context b w.
Proof. solve_rw. Qed.

Lemma get_tState_set_tState a s w w' b :
  set_tState a s w = Some w' →
  get_tState b w' = if decide (b = a) then Some s else get_tState b w.
Proof. solve_rw. Qed.

Lemma get_tState_set_next a v w w' b :
  set_next a v w = Some w' → get_tState b w' = get_tState b w.
Proof. solve_rw. Qed.

Lemma get_tState_set_prev a v w w' b :
  set_prev a v w = Some w' → get_tState b w' = get_tState b w.
Proof. solve_rw. Qed.

Lemma get_tState_upd_context a f w w' b :
  upd_context a f w = Some w' → get_tState b w' = get_tState b w.
Proof. solve_rw. Qed.

Lemma get_next_upd_context a f w w' b :
  upd_context a f w = Some w' → get_next b w' = get_next b w.
Proof. solve_rw. Qed.

Lemma get_prev_upd_context a f w w' b :
  upd_context a f w = Some w' → get_prev b w' = get_prev b w.
Proof. solve_rw. Qed.

Lemma get_context_upd_context a f w w' b c :
  upd_context a f w = Some w' → get_context b w = Some c →
  get_context b w' = Some (if decide (b = a) then f c else c).
Proof. solve_rw. Qed.

Lemma get_next_set_next a v w w' b :
  set_next a v w = Some w' →
  get_next b w' = if decide (b = a) then Some v else get_next b w.
Proof. solve_rw. Qed.

Lemma get_prev_set_next a v w w' b :
  set_next a v w = Some w' → get_prev b w' = get_prev b w.
Proof. solve_rw. Qed.

Lemma get_next_set_prev a v w w' b :
  set_prev a v w = Some w' → get_next b w' = get_next b w.
Proof. solve_rw. Qed.

Lemma get_prev_set_prev a v w w' b :
  set_prev a v w = Some w' →
  get_prev b w' = if decide (b = a) then Some v else get_prev b w.
Proof. solve_rw. Qed.

Lemma get_context_set_next a v w w' b :
  set_next a v w = Some w' → get_context b w' = get_context b w.
Proof. solve_rw. Qed.

Lemma get_context_set_prev a v w w' b :
  set_prev a v w = Some w' → get_context b w' = get_context b w.
Proof. solve_rw. Qed.

Lemma set_tState_is_Some a s w :
  is_Some (tasks w !! a) → is_Some (set_tState a s w).
Proof. intros [n Hn]. unfold set_tState. rewrite Hn. simpl. eauto. Qed.

Lemma set_next_is_Some a v w :
  is_Some (tasks w !! a) → is_Some (set_next a v w).
Proof. intros [n Hn]. unfold set_next. rewrite Hn. simpl. eauto. Qed.

Lemma set_prev_is_Some a v w :
  is_Some (tasks w !! a) → is_Some (set_prev a v w).
Proof. intros [n Hn]. unfold set_prev. rewrite Hn. simpl. eauto. Qed.

Lemma upd_context_is_Some a f w :
  is_Some (tasks w !! a) → is_Some (upd_context a f w).
Proof. intros [n Hn]. unfold upd_context, get_context, set_context. rewrite Hn. simpl. eauto. Qed.

(** A successful [try_context] is the update by the value it computed. *)
Lemma try_context_upd a f w w' :
  try_context a f w = Some w' →
  ∃ c c', get_context a w = Some c ∧ f c = Some c' ∧
          upd_context a (λ _, c') w = Some w'.
Proof.
  unfold try_context, upd_context. intros H.
  apply bind_Some in H as (c & Hc & H).
  apply bind_Some in H as (c' & Hc' & H).
  exists c, c'. rewrite Hc. done.
Qed.

Lemma makecontext_Some f argc args c :
  uc_stack_sp c ≠ NULL →
  makecontext f argc args c =
    Some (mkCtx (uc_stack_sp c) (uc_stack_size c) (uc_link c)
                (Some (f, argc, args))).
Proof. intros H. unfold makecontext. by rewrite decide_False. Qed.

Lemma makecontext_None f argc args c :
  uc_stack_sp c = NULL → makecontext f argc args c = None.
Proof. intros H. unfold makecontext. by rewrite decide_True. Qed.

Lemma try_context_makecontext a f argc args w c :
  get_context a w = Some c → uc_stack_sp c ≠ NULL →
  try_context a (makecontext f argc args) w =
    upd_context a (λ c, mkCtx (uc_stack_sp c) (uc_stack_size c) (uc_link c)
                              (Some (f, argc, args))) w.
Proof.
  intros Hc Hsp. unfold try_context, upd_context. rewrite Hc. simpl.
  by rewrite makecontext_Some.
Qed.

(** ** Scanning the ready list *)

Lemma chain_app R a xs b ys :
  chain R a (xs ++ b :: ys) ↔ chain R a (xs ++ [b]) ∧ chain R b ys.
Proof.
  revert a. induction xs as [|x xs IH]; intros a; simpl.
  - tauto.
  - rewrite IH. tauto.
Qed.

Lemma chain_snoc R a xs b c :
  chain R a (xs ++ [b]) → R b c → chain R a ((xs ++ [b]) ++ [c]).
Proof.
  intros H1 H2. rewrite <- app_assoc. simpl.
  apply chain_app. split; [done|]. simpl. done.
Qed.

Lemma chain_impl (R R' : addr → addr → Prop) a l :
  (∀ x y, y ∈ l → R x y → R' x y) → chain R a l → chain R' a l.
Proof.
  revert a. induction l as [|b l IH]; intros a HR; simpl; [done|].
  intros [H1 H2]. split.
  - apply HR; [left | done].
  - apply IH; [|done]. intros x y Hy. apply HR. by right.
Qed.

Lemma listGetNext_loop_stop fuel head n w :
  n ≠ head → listGetNext_loop fuel head n w = Some n.
Proof. intros Hn. destruct fuel; simpl; by destruct (decide (n = head)). Qed.

Lemma listGetNext_loop_skip fuel head w :
  listGetNext_loop (S fuel) head head w =
  get_next head w ≫= λ n, listGetNext_loop fuel head n w.
Proof. simpl. by destruct (decide (head = head)). Qed.

Lemma hop_direct w a b :
  get_next a w = Some b → b ≠ tSchedListHead → hop w a b.
Proof.
  intros Hn Hb fuel _. unfold listGetNext. rewrite Hn. simpl.
  by apply listGetNext_loop_stop.
Qed.

Lemma hop_over_head w a b :
  get_next a w = Some tSchedListHead →
  get_next tSchedListHead w = Some b → b ≠ tSchedListHead → hop w a b.
Proof.
  intros Hn Hh Hb fuel Hf. unfold listGetNext. rewrite Hn.
  destruct fuel as [|fuel]; [lia|].
  change (listGetNext_loop (S fuel) tSchedListHead tSchedListHead w = Some b).
  rewrite listGetNext_loop_skip, Hh.
  by apply listGetNext_loop_stop.
Qed.

Lemma hop_allocated w a b : hop w a b → is_Some (get_tState a w).
Proof.
  intros H. specialize (H 1 (le_n 1)). unfold listGetNext in H.
  apply bind_Some in H as (n & Hn & _).
  unfold get_next in Hn. apply fmap_Some in Hn as (nd & Hnd & _).
  unfold get_tState. rewrite Hnd. by eexists.
Qed.

(** The scan stops at the first runnable node along a chain of hops. *)
Lemma getNextTask_loop_first w pre y post :
  ∀ a lfuel fuel,
  chain (hop w) a (pre ++ y :: post) →
  Forall (λ x, is_runnable w x = false) pre →
  is_runnable w y = true →
  1 ≤ lfuel → length pre < fuel →
  getNextTask_loop lfuel fuel a w = Some y.
Proof.
  induction pre as [|x pre IH]; intros a lfuel fuel Hc Hpre Hy Hl Hf.
  - simpl in Hc. destruct Hc as [Hh _].
    destruct fuel as [|fuel]; [simpl in Hf; lia|]. simpl.
    rewrite (Hh lfuel Hl). simpl.
    unfold is_runnable in Hy. destruct (get_tState y w) as [s|]; [|done].
    simpl. by rewrite Hy.
  - simpl in Hc. destruct Hc as [Hh Hc].
    destruct fuel as [|fuel]; [simpl in Hf; lia|]. simpl.
    rewrite (Hh lfuel Hl). simpl.
    inversion Hpre as [|? ? Hx Hpre']; subst.
    assert (is_Some (get_tState x w)) as [s Hs].
    { destruct pre; simpl in Hc; destruct Hc as [Hc _]; by eapply hop_allocated. }
    unfold is_runnable in Hx. rewrite Hs in Hx.
    rewrite Hs. simpl. rewrite Hx.
    apply IH; try done. simpl in Hf. lia.
Qed.

Lemma chain_app_l R a xs ys : chain R a (xs ++ ys) → chain R a xs.
Proof.
  revert a. induction xs as [|x xs IH]; intros a; simpl; [done|].
  intros [H1 H2]. split; [done|]. by apply IH.
Qed.

Lemma path_hops w a l :
  path w a l → tSchedListHead ∉ l → chain (hop w) a l.
Proof.
  intros Hp Hh. eapply chain_impl; [|exact Hp].
  intros x y Hy Hn. apply hop_direct; [done|].
  intros ->. done.
Qed.

(** Hops continue across the head: from the last node to the first. *)
Lemma hops_across w ys :
  ∀ xs a,
  path w a (xs ++ [tSchedListHead]) → path w tSchedListHead ys →
  tSchedListHead ∉ xs → tSchedListHead ∉ ys → ys ≠ [] →
  chain (hop w) a (xs ++ ys).
Proof.
  induction xs as [|x xs IH]; intros a Hx Hy Hnx Hny Hne.
  - destruct ys as [|y ys]; [done|]. simpl in *.
    destruct Hx as [Hx _]. destruct Hy as [Hy1 Hy2].
    apply not_elem_of_cons in Hny as [Hny1 Hny2].
    split.
    + apply hop_over_head; done.
    + by apply path_hops.
  - simpl in *. destruct Hx as [Hx1 Hx2].
    apply not_elem_of_cons in Hnx as [Hnx1 Hnx2].
    split.
    + apply hop_direct; done.
    + by apply IH.
Qed.

Lemma ring_hops_from_head l w :
  ring l w → chain (hop w) tSchedListHead l.
Proof.
  intros (Hnd & Hp & _). apply path_hops.
  - by eapply chain_app_l.
  - by apply list.NoDup_cons in Hnd as [? _].
Qed.

Lemma ring_hops_from_task l1 c l2 w :
  ring (l1 ++ c :: l2) w → chain (hop w) c (l2 ++ l1 ++ [c]).
Proof.
  intros (Hnd & Hp & _).
  apply list.NoDup_cons in Hnd as [Hh _].
  rewrite <- app_assoc in Hp. simpl in Hp.
  apply chain_app in Hp as [Hp1 Hp2].
  apply hops_across; try done.
  - intros Hin. apply Hh. apply elem_of_app. right. by right.
  - intros Hin. apply Hh. apply elem_of_app in Hin as [Hin|Hin].
    + apply elem_of_app. by left.
    + apply elem_of_app. right. apply list_elem_of_singleton in Hin as ->. left.
  - by destruct l1.
Qed.

Lemma scan_order_elem l c V x : scan_order l c V → x ∈ l → x ∈ V.
Proof.
  intros [|l1 c' l2 _ ->]; [done|].
  rewrite !elem_of_app, !elem_of_cons, elem_of_nil. tauto.
Qed.

Lemma split_first (P : addr → bool) (V : list addr) :
  (∃ x, x ∈ V ∧ P x = true) →
  ∃ pre y post, V = pre ++ y :: post ∧
                Forall (λ x, P x = false) pre ∧ P y = true.
Proof.
  induction V as [|v V IH]; intros (x & Hx & HP).
  - by apply elem_of_nil in Hx.
  - destruct (P v) eqn:Hv.
    + exists [], v, V. by repeat split.
    + apply elem_of_cons in Hx as [->|Hx]; [congruence|].
      destruct IH as (pre & y & post & -> & Hpre & Hy); [by eauto|].
      exists (v :: pre), y, post. repeat split; [|done]. by constructor.
Qed.

Lemma getNextTask_scan l w V :
  ring l w → scan_order l (currTask w) V →
  chain (hop w) (if decide (currTask w = NULL) then tSchedListHead
                 else currTask w) V.
Proof.
  intros Hr Hs. destruct Hs as [|l1 c l2 Hc ->].
  - rewrite decide_True by done. by apply ring_hops_from_head.
  - rewrite decide_False by done. by apply ring_hops_from_task.
Qed.

(** The scan of [getNextTask] over a well-formed ready list. *)
Lemma getNextTask_scan_first fuel l w V :
  ring l w →
  scan_order l (currTask w) V →
  (∃ x, x ∈ l ∧ is_runnable w x = true) →
  length l ≤ fuel →
  ∃ pre y post,
    V = pre ++ y :: post ∧
    Forall (λ x, is_runnable w x = false) pre ∧
    is_runnable w y = true ∧
    y ≠ tSchedListHead ∧
    getNextTask fuel w = Some y.
Proof.
  intros Hring Hscan (x & Hx & Hrun) Hfuel.
  destruct (split_first (is_runnable w) V) as (pre & y & post & HV & Hpre & Hy).
  { exists x. split; [|done]. by eapply scan_order_elem. }
  assert (length V = length l) as Hlen.
  { destruct Hscan as [|l1 c l2 _ ->]; [done|].
    rewrite !length_app; simpl; rewrite ?length_app; simpl; lia. }
  assert (y ∈ l) as Hyl.
  { assert (y ∈ V) as HyV by (rewrite HV; apply elem_of_app; right; left).
    destruct Hscan as [|l1 c l2 _ ->]; [done|].
    revert HyV. rewrite !elem_of_app, !elem_of_cons, elem_of_nil. tauto. }
  exists pre, y, post. repeat split; try done.
  - destruct Hring as (Hnd & _). apply list.NoDup_cons in Hnd as [Hh _].
    intros ->. done.
  - unfold getNextTask.
    apply getNextTask_loop_first with (pre := pre) (post := post); try done.
    + rewrite <- HV. by apply getNextTask_scan with (l := l).
    + destruct l; [by apply elem_of_nil in Hx|]. simpl in Hfuel. lia.
    + rewrite HV in Hlen. rewrite length_app in Hlen. simpl in Hlen. lia.
Qed.

(** C5.  On a well-formed ready list holding at least one task in state
    READY or RUNNING, [getNextTask] terminates (any fuel of at least the
    length of the list suffices) and returns the first READY or RUNNING
    task in scan order: starting just past [currTask], going forward,
    passing over the sentinel head and wrapping around.  The tasks met
    before it are not runnable and are passed over; the function only
    reads the list, so they stay linked. *)
Theorem getNextTask_first_runnable fuel l w V :
  ring l w →
  scan_order l (currTask w) V →
  (∃ x, x ∈ l ∧ is_runnable w x = true) →
  length l ≤ fuel →
  ∃ pre y post,
    V = pre ++ y :: post ∧
    Forall (λ x, is_runnable w x = false) pre ∧
    is_runnable w y = true ∧
    y ≠ tSchedListHead ∧
    getNextTask fuel w = Some y.
Proof. apply getNextTask_scan_first. Qed.

(** ** [switchTasks] and a task that blocked itself *)

Lemma switchTasks_old_state fuel w old w' :
  switchTasks fuel w = Some (old, w') →
  old = currTask w ∧
  (get_tState old w' = Some READY ∨ get_tState old w' = Some RUNNING).
Proof.
  unfold switchTasks. intros H.
  apply bind_Some in H as (nxt & Hn & H).
  apply bind_Some in H as (w2 & H2 & H).
  apply bind_Some in H as (w3 & H3 & H).
  injection H as <- <-. split; [done|].
  rewrite (get_tState_set_tState _ _ _ _ (currTask w) H3).
  rewrite (get_tState_set_tState _ _ _ _ (currTask w) H2).
  simpl. destruct (decide (currTask w = currTask w2)); [by right|].
  rewrite decide_True by done. by left.
Qed.

(** C1.  In the state where task 3 is current and has set its own state to
    BLOCKED, [switchTasks] returns task 3 and makes task 2 current and
    RUNNING, but task 3 comes out READY, not BLOCKED: line 299 overwrites
    the state unconditionally. *)
Theorem switchTasks_overwrites_blocked :
  (w ← blocked_current; Some (currTask w, get_tState (currTask w) w))
  = Some (3, Some BLOCKED) ∧
  (w ← blocked_current;
   '(old, w') ← switchTasks 4 w;
   Some (old, get_tState old w', currTask w', get_tState (currTask w') w'))
  = Some (3, Some READY, 2, Some RUNNING).
Proof. split; vm_compute; reflexivity. Qed.

(** ** The owner field *)

(** C2.  After [initMyMutex] and a successful [tryLockMutex] by task 3 the
    mutex is held ([value] is 1) while [lockedBy] still holds what it held
    before (here [NULL]), not task 3; the [unlockMutex] that task 3 then
    issues leaves the mutex held. *)
Theorem tryLockMutex_records_no_owner :
  ('(r, w) ← trylocked;
   Some (r, currTask w, get_value 10 w, get_lockedBy 10 w))
  = Some (10, 3, Some 1%Z, Some NULL) ∧
  ('(_, w) ← trylocked; w' ← unlockMutex 4 10 w; Some (get_value 10 w'))
  = Some (Some 1%Z).
Proof. split; vm_compute; reflexivity. Qed.

Lemma tryLockMutex_lockedBy m w r w' :
  tryLockMutex m w = Some (r, w') → get_lockedBy m w' = get_lockedBy m w.
Proof.
  unfold tryLockMutex, get_value, get_lockedBy, set_value. simpl.
  destruct (mutexes w !! m) as [mx|] eqn:Hm; simpl; [|done].
  destruct (decide (value mx = 0%Z)); simpl.
  - intros H. injection H as <- <-. simpl. by rewrite lookup_insert_eq.
  - intros H. injection H as <- <-. simpl. by rewrite Hm.
Qed.

(** ** Locking a mutex one already holds *)

(** C3.  Task 3 holds the mutex and calls [lockMutex] on it again.  The
    call queues the task and switches to task 2, leaving task 3 READY; as
    soon as task 2 yields, task 3 is RUNNING again, finds the mutex still
    held and switches away once more, still inside [lockMutex]. *)
Theorem self_lock_runs_again :
  (w ← locked_by_3;
   Some (currTask w, get_value 10 w, get_lockedBy 10 w))
  = Some (3, Some 1%Z, Some 3) ∧
  (match self_locked with
   | Suspended w => Some (currTask w, get_tState 3 w)
   | _ => None
   end) = Some (2, Some READY) ∧
  (match self_locked with
   | Suspended w =>
       w' ← schedule 4 w; Some (currTask w', get_tState 3 w')
   | _ => None
   end) = Some (3, Some RUNNING) ∧
  (match self_locked with
   | Suspended w =>
       w' ← schedule 4 w;
       match lock_resume 4 [] 30 10 w' with
       | Suspended w'' => Some (currTask w'', get_tState 3 w'')
       | _ => None
       end
   | _ => None
   end) = Some (2, Some READY).
Proof. repeat split; vm_compute; reflexivity. Qed.

(** ** [unlockMutex] by a task that is not the owner *)

(** The guard of [unlockMutex]: when [lockedBy] is not the calling task,
    the call returns having changed neither the mutexes (held flag, owner
    and list head of every one of them), nor the queued [myNode] records,
    nor any task node, nor [currTask]; it makes no [swapcontext]. *)
Lemma unlockMutex_not_owner fuel m w mx :
  mutexes w !! m = Some mx →
  lockedBy mx ≠ currTask w →
  ∃ w', unlockMutex fuel m w = Some w' ∧
        mutexes w' = mutexes w ∧
        frames w' = frames w ∧
        tasks w' = tasks w ∧
        currTask w' = currTask w ∧
        swaps w' = swaps w.
Proof.
  intros Hm Hown. unfold unlockMutex, get_value, get_lockedBy. simpl.
  rewrite Hm. simpl.
  rewrite decide_False by (intros [_ ?]; done).
  eexists. split; [reflexivity|]. by repeat split.
Qed.

(** C7.  The guard compares the caller with [lockedBy], and [lockedBy] is
    not always the holder.  Task 3 takes the mutex with [lockMutex] and
    releases it; main then takes it with [tryLockMutex], which leaves
    [lockedBy] naming task 3.  When task 3 runs again and calls
    [unlockMutex], the mutex it does not hold is released. *)
Theorem unlockMutex_by_former_owner :
  ('(r, w) ← taken_by_main;
   Some (r, currTask w, get_value 10 w, get_lockedBy 10 w))
  = Some (10, 2, Some 1%Z, Some 3) ∧
  (w ← holder_yielded;
   Some (currTask w, get_value 10 w, get_lockedBy 10 w))
  = Some (3, Some 1%Z, Some 3) ∧
  (w ← holder_yielded;
   w' ← unlockMutex 4 10 w;
   Some (currTask w', get_value 10 w', get_lockedBy 10 w'))
  = Some (3, Some 0%Z, Some 3).
Proof. repeat split; vm_compute; reflexivity. Qed.

(** ** [tryLockMutex] *)

(** C8.  [tryLockMutex] always returns (its model has no suspended
    outcome and needs no fuel): on a free mutex it sets [value] to 1 and
    returns the mutex; on a held one it returns [NULL] and changes no
    mutex.  Either way it leaves every task node, [currTask], the queued
    [myNode] records and the list head of the mutex as they were and makes
    no [swapcontext].  The only field it ever writes is [value]:
    [lockedBy] keeps its old contents. *)
Theorem tryLockMutex_nonblocking m w mx :
  mutexes w !! m = Some mx →
  ∃ r w', tryLockMutex m w = Some (r, w') ∧
          tasks w' = tasks w ∧
          currTask w' = currTask w ∧
          frames w' = frames w ∧
          swaps w' = swaps w ∧
          (taskList <$> mutexes w' !! m) = Some (taskList mx) ∧
          get_lockedBy m w' = Some (lockedBy mx) ∧
          (∀ m', m' ≠ m → mutexes w' !! m' = mutexes w !! m') ∧
          (if decide (value mx = 0%Z)
           then r = m ∧ get_value m w' = Some 1%Z
           else r = NULL ∧ mutexes w' = mutexes w).
Proof.
  intros Hm. unfold tryLockMutex, get_value, get_lockedBy, set_value. simpl.
  rewrite Hm. simpl.
  destruct (decide (value mx = 0%Z)) as [Hv|Hv]; simpl.
  - eexists _, _. split; [reflexivity|]. simpl.
    rewrite lookup_insert_eq. simpl. repeat split; try done.
    intros m' Hne. by rewrite lookup_insert_ne.
  - eexists _, _. split; [reflexivity|]. simpl.
    rewrite Hm. by repeat split.
Qed.

Lemma tryLockMutex_nonblocking_witness :
  mutexes (default boot mutex_ready) !! 10
  = Some (mkMutex 0%Z NULL (mkNode NULL (LHead 10) (LHead 10))) ∧
  ∃ r w', tryLockMutex 10 (default boot mutex_ready) = Some (r, w') ∧
          tasks w' = tasks (default boot mutex_ready) ∧
          currTask w' = currTask (default boot mutex_ready) ∧
          frames w' = frames (default boot mutex_ready) ∧
          swaps w' = swaps (default boot mutex_ready) ∧
          (taskList <$> mutexes w' !! 10)
          = Some (mkNode NULL (LHead 10) (LHead 10)) ∧
          get_lockedBy 10 w' = Some NULL ∧
          (∀ m', m' ≠ 10 →
                 mutexes w' !! m' = mutexes (default boot mutex_ready) !! m') ∧
          (r = 10 ∧ get_value 10 w' = Some 1%Z).
Proof.
  assert (mutexes (default boot mutex_ready) !! 10
          = Some (mkMutex 0%Z NULL (mkNode NULL (LHead 10) (LHead 10)))) as Hm
    by (vm_compute; reflexivity).
  split; [exact Hm|].
  exact (tryLockMutex_nonblocking 10 (default boot mutex_ready) _ Hm).
Defined.

(** ** [taskJoin] on a null handle *)

(** C10.  [taskJoin(NULL)] returns at once, whatever the state and
    whatever the other tasks would do: the state is unchanged, so nothing
    was scheduled. *)
Theorem taskJoin_null fuel rounds w :
  taskJoin fuel rounds NULL w = Returned w.
Proof. reflexivity. Qed.

(** ** Operations that leave the scheduler's data alone *)

Ltac inv_bind :=
  repeat match goal with
         | H : (_ ≫= _) = Some _ |- _ =>
             apply bind_Some in H; destruct H as (? & ? & H)
         | H : (_ <$> _) = Some _ |- _ =>
             apply fmap_Some in H; destruct H as (? & H & ?)
         | H : (let '(_, _) := ?x in _) = Some _ |- _ => destruct x
         | H : Some _ = Some _ |- _ => injection H as H
         | H : (if decide ?P then _ else _) = Some _ |- _ => destruct (decide P)
         end.

Lemma same_sched_refl w : same_sched w w.
Proof. by repeat split. Qed.

Lemma same_sched_trans w1 w2 w3 :
  same_sched w1 w2 → same_sched w2 w3 → same_sched w1 w3.
Proof.
  intros (H1 & H2 & H3) (H4 & H5 & H6). repeat split; congruence.
Qed.

Lemma lput_same_sched p nd w w' : lput p nd w = Some w' → same_sched w w'.
Proof.
  destruct p; simpl; intros H; inv_bind; subst; by repeat split.
Qed.

Lemma set_lnext_same_sched p v w w' :
  set_lnext p v w = Some w' → same_sched w w'.
Proof. unfold set_lnext. intros H. inv_bind. by eapply lput_same_sched. Qed.

Lemma set_lprev_same_sched p v w w' :
  set_lprev p v w = Some w' → same_sched w w'.
Proof. unfold set_lprev. intros H. inv_bind. by eapply lput_same_sched. Qed.

Lemma set_task_same_sched p v w w' :
  set_task p v w = Some w' → same_sched w w'.
Proof. unfold set_task. intros H. inv_bind. by eapply lput_same_sched. Qed.

Lemma set_value_same_sched m v w w' :
  set_value m v w = Some w' → same_sched w w'.
Proof. unfold set_value. intros H. inv_bind. subst. by repeat split. Qed.

Lemma set_lockedBy_same_sched m v w w' :
  set_lockedBy m v w = Some w' → same_sched w w'.
Proof. unfold set_lockedBy. intros H. inv_bind. subst. by repeat split. Qed.

Create HintDb sched.

#[local] Hint Resolve same_sched_refl lput_same_sched set_lnext_same_sched
  set_lprev_same_sched set_task_same_sched set_value_same_sched
  set_lockedBy_same_sched : sched.

Ltac chain_same_sched :=
  repeat match goal with
         | |- same_sched ?w ?w => apply same_sched_refl
         | H : ?f ?w = Some ?w' |- same_sched ?w _ =>
             apply (same_sched_trans w w'); [by eauto with sched|clear H]
         | H : ?f _ ?w = Some ?w' |- same_sched ?w _ =>
             apply (same_sched_trans w w'); [by eauto with sched|clear H]
         | H : ?f _ _ ?w = Some ?w' |- same_sched ?w _ =>
             apply (same_sched_trans w w'); [by eauto with sched|clear H]
         end.

Lemma initMyMutex_same_sched m w w' :
  initMyMutex m w = Some w' → same_sched w w'.
Proof. unfold initMyMutex. intros H. inv_bind. chain_same_sched. Qed.

Lemma lock_enqueue_same_sched n m w w' :
  lock_enqueue n m w = Some w' → same_sched w w'.
Proof. unfold lock_enqueue. intros H. inv_bind. chain_same_sched. Qed.

Lemma lock_dequeue_same_sched n w w' :
  lock_dequeue n w = Some w' → same_sched w w'.
Proof. unfold lock_dequeue. intros H. inv_bind. chain_same_sched. Qed.

Lemma tryLockMutex_same_sched m w r w' :
  tryLockMutex m w = Some (r, w') → same_sched w w'.
Proof.
  unfold tryLockMutex. intros H. inv_bind; subst.
  - match goal with
    | Hs : set_value _ _ _ = Some _ |- _ =>
        apply set_value_same_sched in Hs; destruct Hs as (? & ? & ?)
    end.
    by repeat split.
  - by repeat split.
Qed.

(** ** Where ZOMBIE comes from *)

Lemma nnz_refl w : no_new_zombie w w.
Proof. by intros t. Qed.

Lemma nnz_trans w1 w2 w3 :
  no_new_zombie w1 w2 → no_new_zombie w2 w3 → no_new_zombie w1 w3.
Proof. intros H1 H2 t H. by apply H1, H2. Qed.

Lemma nnz_tasks w w' : tasks w' = tasks w → no_new_zombie w w'.
Proof. intros H t. unfold get_tState. by rewrite H. Qed.

Lemma nnz_same_sched w w' : same_sched w w' → no_new_zombie w w'.
Proof. intros (H & _). by apply nnz_tasks. Qed.

Lemma nnz_set_tState a s w w' :
  s ≠ ZOMBIE → set_tState a s w = Some w' → no_new_zombie w w'.
Proof.
  intros Hs H t. rewrite (get_tState_set_tState _ _ _ _ t H).
  destruct (decide (t = a)); [congruence|done].
Qed.

Lemma nnz_set_next a v w w' : set_next a v w = Some w' → no_new_zombie w w'.
Proof. intros H t. by rewrite (get_tState_set_next _ _ _ _ t H). Qed.

Lemma nnz_set_prev a v w w' : set_prev a v w = Some w' → no_new_zombie w w'.
Proof. intros H t. by rewrite (get_tState_set_prev _ _ _ _ t H). Qed.

Lemma nnz_upd_context a f w w' :
  upd_context a f w = Some w' → no_new_zombie w w'.
Proof. intros H t. by rewrite (get_tState_upd_context _ _ _ _ t H). Qed.

Lemma nnz_try_context a f w w' :
  try_context a f w = Some w' → no_new_zombie w w'.
Proof.
  intros H. apply try_context_upd in H as (c & c' & _ & _ & H).
  by eapply nnz_upd_context.
Qed.

Lemma nnz_calloc_task a w : no_new_zombie w (calloc_task a w).
Proof.
  intros t. unfold calloc_task, get_tState.
  destruct (decide (a = NULL)); [done|]. simpl.
  destruct (decide (a = t)) as [->|].
  - rewrite lookup_insert_eq. simpl. discriminate.
  - by rewrite lookup_insert_ne.
Qed.

Create HintDb nnz.

#[local] Hint Resolve nnz_refl nnz_set_next nnz_set_prev nnz_upd_context
  nnz_try_context
  nnz_calloc_task : nnz.

#[local] Hint Extern 1 (no_new_zombie _ _) =>
  (eapply nnz_set_tState; [|eassumption]; discriminate) : nnz.

#[local] Hint Extern 2 (no_new_zombie _ _) =>
  (apply nnz_tasks; reflexivity) : nnz.

#[local] Hint Extern 3 (no_new_zombie _ _) =>
  (apply nnz_same_sched; eauto with sched) : nnz.

Ltac chain_nnz :=
  repeat match goal with
         | |- no_new_zombie ?w ?w => apply nnz_refl
         | H : _ = Some ?w' |- no_new_zombie ?w ?w'' =>
             lazymatch type of H with
             | context [w] =>
                 apply (nnz_trans w w' w''); [by eauto with nnz|clear H]
             end
         end;
  try by eauto with nnz.

Lemma nnz_listAdd head node w w' :
  listAdd head node w = Some w' → no_new_zombie w w'.
Proof. unfold listAdd. intros H. inv_bind. chain_nnz. Qed.

Lemma nnz_switchTasks fuel w old w' :
  switchTasks fuel w = Some (old, w') → no_new_zombie w w'.
Proof.
  unfold switchTasks. intros H. inv_bind. subst.
  eapply nnz_trans; [|eapply nnz_set_tState; [|eassumption]; discriminate].
  eapply nnz_trans; [|eapply nnz_set_tState; [|eassumption]; discriminate].
  by apply nnz_tasks.
Qed.

Lemma nnz_schedule fuel w w' :
  schedule fuel w = Some w' → no_new_zombie w w'.
Proof.
  unfold schedule. intros H. inv_bind. subst.
  eapply nnz_trans; [by eapply nnz_switchTasks|]. by apply nnz_tasks.
Qed.

Lemma nnz_sigHand fuel w w' :
  sigHand fuel w = Some w' → no_new_zombie w w'.
Proof.
  unfold sigHand. intros H. inv_bind. subst.
  match goal with x : (nat * world)%type |- _ => destruct x end.
  by eapply nnz_switchTasks.
Qed.

#[local] Hint Resolve nnz_listAdd nnz_schedule nnz_sigHand : nnz.

Lemma nnz_createTask a w r w' :
  createTask a w = Some (r, w') → no_new_zombie w w'.
Proof.
  unfold createTask. intros H. inv_bind; subst.
  - eapply nnz_trans; [apply nnz_calloc_task|].
    eapply nnz_set_tState; [|eassumption]. discriminate.
  - apply nnz_calloc_task.
Qed.

Lemma nnz_initTask fuel stack t f argc args w w' :
  initTask fuel stack t f argc args w = Some w' → no_new_zombie w w'.
Proof.
  unfold initTask. intros H.
  destruct (decide (t = NULL)); [injection H as <-; apply nnz_refl|].
  apply bind_Some in H as (s & Hs & H).
  destruct (decide (s ≠ ALLOC)); [injection H as <-; apply nnz_refl|].
  inv_bind. chain_nnz.
Qed.

Lemma nnz_blockSched w : no_new_zombie w (blockSched w).
Proof. by apply nnz_tasks. Qed.

Lemma nnz_unblockSched w : no_new_zombie w (unblockSched w).
Proof. by apply nnz_tasks. Qed.

Lemma nnz_lock_wait_nil fuel m w w' :
  settled (lock_wait fuel [] m w) = Some w' → no_new_zombie w w'.
Proof.
  simpl. intros H. repeat case_match; simplify_eq; simpl in *; simplify_eq.
  - eapply nnz_trans; [eapply nnz_set_tState; [|eassumption]; discriminate|].
    eapply nnz_trans; [apply nnz_unblockSched|]. by eapply nnz_schedule.
  - apply nnz_refl.
Qed.

Lemma nnz_lock_claim m w w' :
  settled (lock_claim m w) = Some w' → no_new_zombie w w'.
Proof.
  unfold lock_claim. intros H.
  repeat case_match; simplify_eq; simpl in *; simplify_eq.
  apply nnz_tasks. simpl.
  match goal with
  | H1 : set_value _ _ _ = Some _, H2 : set_lockedBy _ _ _ = Some _ |- _ =>
      apply set_value_same_sched in H1 as (? & _);
      apply set_lockedBy_same_sched in H2 as (? & _)
  end.
  congruence.
Qed.

Lemma nnz_lock_finish n m w w' :
  settled (lock_finish n m w) = Some w' → no_new_zombie w w'.
Proof.
  unfold lock_finish. intros H. case_match; [|done].
  eapply nnz_trans; [apply nnz_same_sched; by eapply lock_dequeue_same_sched|].
  eapply nnz_trans; [|by eapply nnz_lock_claim]. by apply nnz_tasks.
Qed.

Lemma nnz_lockMutex_nil fuel n m w w' :
  settled (lockMutex fuel [] n m w) = Some w' → no_new_zombie w w'.
Proof.
  unfold lockMutex. intros H.
  destruct (get_value m (blockSched w)) as [v|]; [|done].
  destruct (decide (v ≠ 0%Z)).
  - destruct (lock_enqueue n m (enter_myNode n (blockSched w))) as [w1|] eqn:He;
      [|done].
    assert (no_new_zombie w w1) as H1.
    { eapply nnz_trans; [|apply nnz_same_sched; by eapply lock_enqueue_same_sched].
      by apply nnz_tasks. }
    destruct (lock_wait fuel [] m w1) as [w2|w2|] eqn:Hw; [| |done].
    + eapply nnz_trans; [exact H1|].
      eapply nnz_trans; [|by eapply nnz_lock_finish].
      apply (nnz_lock_wait_nil fuel m). by rewrite Hw.
    + simpl in H. injection H as <-.
      eapply nnz_trans; [exact H1|].
      apply (nnz_lock_wait_nil fuel m). by rewrite Hw.
  - eapply nnz_trans; [apply nnz_blockSched|]. by eapply nnz_lock_claim.
Qed.

Lemma nnz_lock_resume_nil fuel n m w w' :
  settled (lock_resume fuel [] n m w) = Some w' → no_new_zombie w w'.
Proof.
  unfold lock_resume. intros H.
  destruct (lock_wait fuel [] m (blockSched w)) as [w2|w2|] eqn:Hw; [| |done].
  - eapply nnz_trans; [apply nnz_blockSched|].
    eapply nnz_trans; [|by eapply nnz_lock_finish].
    apply (nnz_lock_wait_nil fuel m). by rewrite Hw.
  - simpl in H. injection H as <-.
    eapply nnz_trans; [apply nnz_blockSched|].
    apply (nnz_lock_wait_nil fuel m). by rewrite Hw.
Qed.

Lemma nnz_unlock_notify fuel m :
  ∀ p w w', unlock_notify fuel m p w = Some w' → no_new_zombie w w'.
Proof.
  induction fuel as [|fuel IH]; intros p w w' H; simpl in H.
  - destruct (decide (p ≠ LHead m)); [done|]. injection H as <-. apply nnz_refl.
  - destruct (decide (p ≠ LHead m)); [|injection H as <-; apply nnz_refl].
    inv_bind.
    eapply nnz_trans; [eapply nnz_set_tState; [|eassumption]; discriminate|].
    by eapply IH.
Qed.

Lemma nnz_unlockMutex fuel m w w' :
  unlockMutex fuel m w = Some w' → no_new_zombie w w'.
Proof.
  unfold unlockMutex. intros H. inv_bind; subst.
  - eapply nnz_trans; [apply nnz_blockSched|].
    eapply nnz_trans; [apply nnz_same_sched; by eapply set_value_same_sched|].
    eapply nnz_trans; [by eapply nnz_unlock_notify|]. by apply nnz_tasks.
  - by apply nnz_tasks.
Qed.

(** Only [cleanUpFunc] makes a task ZOMBIE. *)
Lemma exec_no_new_zombie o w w' :
  (∀ fuel, o ≠ OpCleanUpFunc fuel) → exec o w = Some w' → no_new_zombie w w'.
Proof.
  intros Ho H. destruct o; simpl in H.
  - apply fmap_Some in H as ([r w1] & H & ->). by eapply nnz_createTask.
  - by eapply nnz_initTask.
  - by eapply nnz_schedule.
  - by eapply nnz_sigHand.
  - apply nnz_same_sched. by eapply initMyMutex_same_sched.
  - apply fmap_Some in H as ([r w1] & H & ->).
    apply nnz_same_sched. by eapply tryLockMutex_same_sched.
  - by eapply nnz_unlockMutex.
  - by eapply nnz_lockMutex_nil.
  - by eapply nnz_lock_resume_nil.
  - by destruct (Ho fuel).
Qed.

Lemma listRemove_frame head node w w' :
  listRemove head node w = Some w' →
  currTask w' = currTask w ∧ ∀ t, get_tState t w' = get_tState t w.
Proof.
  unfold listRemove. intros H.
  destruct (decide (head ≠ node)); [|by injection H as <-].
  inv_bind.
  repeat match goal with
         | Hs : set_prev _ _ _ = Some _ |- _ =>
             pose proof (λ t, get_tState_set_prev _ _ _ _ t Hs);
             unfold set_prev in Hs; inv_bind; subst
         | Hs : set_next _ _ _ = Some _ |- _ =>
             pose proof (λ t, get_tState_set_next _ _ _ _ t Hs);
             unfold set_next in Hs; inv_bind; subst
         end.
  split; [done|]. intros t. congruence.
Qed.

(** [cleanUpFunc] makes the task that was current ZOMBIE, and no other. *)
Lemma cleanUpFunc_zombie fuel w w' :
  cleanUpFunc fuel w = Some w' →
  get_tState (currTask w) w' = Some ZOMBIE ∧
  ∀ t, t ≠ currTask w → get_tState t w' = get_tState t w.
Proof.
  unfold cleanUpFunc. intros H.
  apply bind_Some in H as (w1 & H1 & H).
  apply bind_Some in H as (w2 & H2 & H).
  apply bind_Some in H as (nxt & _ & H). injection H as <-.
  apply listRemove_frame in H1 as [Hc Hs].
  split.
  - change (get_tState (currTask w) w2 = Some ZOMBIE).
    rewrite (get_tState_set_tState _ _ _ _ (currTask w) H2).
    rewrite Hc. by rewrite decide_True.
  - intros t Ht. change (get_tState t w2 = get_tState t w).
    rewrite (get_tState_set_tState _ _ _ _ t H2).
    rewrite Hc. rewrite decide_False by done. apply Hs.
Qed.

(** ** [taskJoin] *)

Lemma first_zombie_poll_0 fuel rounds t w w' :
  first_zombie_poll fuel rounds t w w' 0 ↔
  w' = w ∧ get_tState t w = Some ZOMBIE.
Proof.
  unfold first_zombie_poll. rewrite take_0. simpl. split.
  - intros (_ & H & Hz & _). injection H as <-. done.
  - intros [-> Hz]. repeat split; try done; try lia.
Qed.

Lemma first_zombie_poll_S fuel r rounds t w w' k :
  first_zombie_poll fuel (r :: rounds) t w w' (S k) ↔
  ∃ s w1 w2, get_tState t w = Some s ∧ s ≠ ZOMBIE ∧
             schedule fuel w = Some w1 ∧ r w1 = Some w2 ∧
             first_zombie_poll fuel rounds t w2 w' k.
Proof.
  unfold first_zombie_poll. split.
  - intros (Hk & Hp & Hz & Hj).
    destruct (Hj 0) as (w0 & s & H0 & Hs & Hne); [lia|].
    rewrite take_0 in H0. simpl in H0. injection H0 as <-.
    simpl in Hp.
    apply bind_Some in Hp as (w1 & H1 & Hp).
    apply bind_Some in Hp as (w2 & H2 & Hp).
    exists s, w1, w2. repeat split; try done.
    + simpl in Hk. lia.
    + intros j Hlt. destruct (Hj (S j)) as (wj & sj & Hwj & Hsj & Hnej); [lia|].
      simpl in Hwj. rewrite H1 in Hwj. simpl in Hwj. rewrite H2 in Hwj.
      simpl in Hwj. by exists wj, sj.
  - intros (s & w1 & w2 & Hs & Hne & H1 & H2 & Hk & Hp & Hz & Hj).
    repeat split; try done.
    + simpl. lia.
    + simpl. rewrite H1. simpl. rewrite H2. done.
    + intros [|j] Hlt.
      * exists w, s. rewrite take_0. by repeat split.
      * destruct (Hj j) as (wj & sj & Hwj & Hsj & Hnej); [lia|].
        exists wj, sj. simpl. rewrite H1. simpl. rewrite H2. by repeat split.
Qed.

Lemma taskJoin_loop_iff fuel t :
  ∀ rounds w w',
  taskJoin_loop fuel rounds t w = Returned w' ↔
  ∃ k, first_zombie_poll fuel rounds t w w' k.
Proof.
  induction rounds as [|r rounds IH]; intros w w'.
  - simpl. split.
    + intros H. exists 0. apply first_zombie_poll_0.
      destruct (get_tState t w) as [s|]; [|done].
      destruct (decide (s ≠ ZOMBIE)) as [|Hs].
      * by destruct (schedule fuel w).
      * injection H as <-. split; [done|].
        by destruct (decide (s = ZOMBIE)) as [->|].
    + intros (k & Hk). assert (k = 0) as ->.
      { destruct Hk as (Hk & _). simpl in Hk. lia. }
      apply first_zombie_poll_0 in Hk as [-> Hz]. rewrite Hz.
      by rewrite decide_False by (intros Hn; by apply Hn).
  - simpl. split.
    + intros H.
      destruct (get_tState t w) as [s|] eqn:Hs; [|done].
      destruct (decide (s ≠ ZOMBIE)) as [Hne|Hz].
      * destruct (schedule fuel w) as [w1|] eqn:H1; [|done].
        destruct (r w1) as [w2|] eqn:H2; [|done].
        apply IH in H as (k & Hk). exists (S k).
        apply first_zombie_poll_S. by exists s, w1, w2.
      * injection H as <-. exists 0. apply first_zombie_poll_0.
        split; [done|]. by destruct (decide (s = ZOMBIE)) as [->|].
    + intros ([|k] & Hk).
      * apply first_zombie_poll_0 in Hk as [-> Hz]. rewrite Hz.
        by rewrite decide_False by (intros Hn; by apply Hn).
      * apply first_zombie_poll_S in Hk
          as (s & w1 & w2 & Hs & Hne & H1 & H2 & Hk).
        rewrite Hs. rewrite decide_True by done. rewrite H1, H2.
        apply IH. by exists k.
Qed.


(** ** [unlockMutex] by the owner *)

Lemma set_tState_frame a s w w' :
  set_tState a s w = Some w' →
  frames w' = frames w ∧ mutexes w' = mutexes w ∧ currTask w' = currTask w ∧
  swaps w' = swaps w ∧ sigalrm_blocked w' = sigalrm_blocked w ∧
  ∀ t, is_Some (tasks w' !! t) ↔ is_Some (tasks w !! t).
Proof.
  unfold set_tState. intros H. inv_bind. subst. simpl.
  repeat split; try done.
  - destruct (decide (a = t)) as [->|]; [by eauto|].
    by rewrite lookup_insert_ne.
  - destruct (decide (a = t)) as [->|].
    + rewrite lookup_insert_eq. by eauto.
    + by rewrite lookup_insert_ne.
Qed.

Lemma wtasks_cons fs n nd ns :
  fs !! n = Some nd → wtasks fs (n :: ns) = task nd :: wtasks fs ns.
Proof. intros H. unfold wtasks. simpl. by rewrite H. Qed.

(** The notification loop sets every queued task READY, touches no other
    task, and leaves mutexes and queue records alone. *)
Lemma unlock_notify_wakes m :
  ∀ ns fuel p w,
  lpath (frames w) p ns (LHead m) →
  Forall (λ t, is_Some (tasks w !! t)) (wtasks (frames w) ns) →
  length ns ≤ fuel →
  ∃ w', unlock_notify fuel m p w = Some w' ∧
        frames w' = frames w ∧ mutexes w' = mutexes w ∧
        currTask w' = currTask w ∧ swaps w' = swaps w ∧
        sigalrm_blocked w' = sigalrm_blocked w ∧
        ∀ t, get_tState t w' =
             if decide (t ∈ wtasks (frames w) ns) then Some READY
             else get_tState t w.
Proof.
  induction ns as [|n ns IH]; intros fuel p w Hp Hal Hf.
  - simpl in Hp. subst p. exists w.
    assert (unlock_notify fuel m (LHead m) w = Some w) as ->.
    { destruct fuel; simpl; by rewrite decide_False by (intros Hn; by apply Hn). }
    repeat split; try done.
  - simpl in Hp. destruct Hp as (-> & nd & Hn & Hp).
    rewrite (wtasks_cons _ _ _ _ Hn) in *.
    destruct fuel as [|fuel]; [simpl in Hf; lia|].
    cbn [unlock_notify].
    destruct (decide (LNode n ≠ LHead m)) as [_|Hc];
      [|exfalso; apply Hc; discriminate].
    unfold get_task. simpl. rewrite Hn. simpl.
    inversion Hal as [|? ? Ht Hal']; subst.
    destruct (set_tState_is_Some (task nd) READY w Ht) as [w1 H1].
    rewrite H1. simpl.
    destruct (set_tState_frame _ _ _ _ H1) as (Hfr & Hmu & Hcu & Hsw & Hsg & Hdom).
    unfold get_lnext. simpl. rewrite Hfr, Hn. simpl.
    destruct (IH fuel (lnext nd) w1) as (w' & Hw' & Hfr' & Hmu' & Hcu' & Hsw' & Hsg' & Hst).
    + by rewrite Hfr.
    + rewrite Hfr. eapply Forall_impl; [|exact Hal'].
      intros t. simpl. by rewrite Hdom.
    + simpl in Hf. lia.
    + exists w'. rewrite Hw'. split; [done|].
      repeat split; try congruence.
      intros t. rewrite Hst. rewrite Hfr.
      rewrite (get_tState_set_tState _ _ _ _ t H1).
      destruct (decide (t ∈ wtasks (frames w) ns)) as [Hin|Hin].
      * rewrite decide_True; [done|]. by right.
      * destruct (decide (t = task nd)) as [->|Hne].
        -- rewrite decide_True; [done|]. by left.
        -- rewrite decide_False; [done|].
           intros Hc. apply elem_of_cons in Hc as [?|?]; done.
Qed.

(** As long as the wait collection consists of live records, linked from
    the head back to the head, [unlockMutex] by the task that [lockedBy]
    names returns, given fuel for one turn of its loop per queued record,
    with [value] cleared and with every recorded task READY; the queue
    records themselves are unchanged. *)
Lemma unlockMutex_wakes_all fuel m w v ns :
  get_value m w = Some v → v ≠ 0%Z →
  get_lockedBy m w = Some (currTask w) →
  waiting m ns w →
  Forall (λ t, is_Some (tasks w !! t)) (wtasks (frames w) ns) →
  length ns ≤ fuel →
  ∃ w', unlockMutex fuel m w = Some w' ∧
        get_value m w' = Some 0%Z ∧
        frames w' = frames w ∧
        Forall (λ t, get_tState t w' = Some READY) (wtasks (frames w) ns).
Proof.
  intros Hv Hv0 Ho (mx & Hm & Hnd & Hp & Hl) Hal Hf.
  unfold unlockMutex.
  change (get_value m (blockSched w)) with (get_value m w).
  change (get_lockedBy m (blockSched w)) with (get_lockedBy m w).
  rewrite Hv, Ho. simpl. rewrite decide_True by done.
  unfold set_value. simpl. rewrite Hm. simpl.
  unfold get_lnext. simpl. rewrite lookup_insert_eq. simpl.
  match goal with
  | |- context [unlock_notify fuel m _ ?w1] =>
      destruct (unlock_notify_wakes m ns fuel (lnext (taskList mx)) w1)
        as (w' & Hw' & Hfr & Hmu & _ & _ & _ & Hst); try done
  end.
  rewrite Hw'. simpl. eexists. split; [reflexivity|].
  unfold get_value. simpl. rewrite Hmu. simpl. rewrite lookup_insert_eq.
  simpl in Hfr, Hst. split; [reflexivity|]. split; [done|].
  apply list.Forall_forall. intros t Ht.
  change (get_tState t w' = Some READY). rewrite Hst.
  by rewrite decide_True.
Qed.

(** ** Appending to the ready list *)

Lemma chain_impl_src (R R' : addr → addr → Prop) z :
  ∀ xs a,
  (∀ x y, x ∈ a :: xs → R x y → R' x y) →
  chain R a (xs ++ [z]) → chain R' a (xs ++ [z]).
Proof.
  induction xs as [|b xs IH]; intros a HR; simpl.
  - intros [H _]. split; [|done]. apply HR; [left|done].
  - intros [H1 H2]. split.
    + apply HR; [left|done].
    + apply IH; [|done]. intros x y Hx. apply HR. by right.
Qed.

Lemma ring_ext l w w' :
  (∀ a, get_next a w' = get_next a w) →
  get_prev tSchedListHead w' = get_prev tSchedListHead w →
  ring l w → ring l w'.
Proof.
  intros Hn Hp (Hnd & Hpath & Hprev). repeat split; [done| |congruence].
  eapply chain_impl; [|exact Hpath]. intros x y _. simpl. by rewrite Hn.
Qed.

Lemma ring_allocated l w a :
  ring l w → a ∈ tSchedListHead :: l → is_Some (tasks w !! a).
Proof.
  intros (_ & Hpath & _) Ha.
  assert (∀ xs b, chain (λ a b, get_next a w = Some b) b (xs ++ [tSchedListHead]) →
                  a ∈ b :: xs → is_Some (tasks w !! a)) as Hgen.
  { induction xs as [|c xs IH]; intros b; simpl.
    - intros [H _] Hin. apply list_elem_of_singleton in Hin as ->.
      unfold get_next in H. apply fmap_Some in H as (n & -> & _). by eexists.
    - intros [H1 H2] Hin. apply elem_of_cons in Hin as [->|Hin].
      + unfold get_next in H1. apply fmap_Some in H1 as (n & -> & _). by eexists.
      + by apply (IH c). }
  by apply (Hgen l tSchedListHead).
Qed.

(** [listAdd] on the head appends [t] to a well-formed ready list and
    changes only links. *)
Lemma listAdd_ring l t w :
  ring l w → t ∉ tSchedListHead :: l → is_Some (tasks w !! t) →
  ∃ w', listAdd tSchedListHead t w = Some w' ∧
        ring (l ++ [t]) w' ∧
        (∀ a, get_tState a w' = get_tState a w) ∧
        (∀ a, get_context a w' = get_context a w) ∧
        currTask w' = currTask w ∧ swaps w' = swaps w.
Proof.
  intros Hring Ht Hal.
  pose proof Hring as (Hnd & Hpath & Hprev).
  set (z := List.last l tSchedListHead) in *.
  assert (z ∈ tSchedListHead :: l) as Hz.
  { subst z. destruct l as [|x l0 _] using rev_ind; [left|].
    rewrite last_last. right. apply elem_of_app. right. left. }
  assert (z ≠ t) as Hzt by (intros ->; done).
  assert (tSchedListHead ≠ t) as Hht by (intros <-; apply Ht; left).
  destruct (ring_allocated l w z Hring Hz) as [nz Hnz].
  unfold listAdd. rewrite Hprev. simpl.
  destruct (set_next_is_Some z t w (mk_is_Some _ _ Hnz)) as [w1 H1].
  rewrite H1. simpl.
  rewrite (get_prev_set_next _ _ _ _ tSchedListHead H1), Hprev. simpl.
  assert (is_Some (tasks w1 !! t)) as Hal1.
  { unfold set_next in H1. rewrite Hnz in H1. simpl in H1. injection H1 as <-.
    simpl. by rewrite lookup_insert_ne. }
  destruct (set_prev_is_Some t z w1 Hal1) as [w2 H2]. rewrite H2. simpl.
  assert (is_Some (tasks w2 !! t)) as Hal2.
  { destruct Hal1 as [n1 Hn1].
    unfold set_prev in H2. rewrite Hn1 in H2. simpl in H2. injection H2 as <-.
    simpl. rewrite lookup_insert_eq. by eexists. }
  destruct (set_next_is_Some t tSchedListHead w2 Hal2) as [w3 H3].
  rewrite H3. simpl.
  assert (is_Some (tasks w3 !! tSchedListHead)) as Hal3.
  { assert (is_Some (get_prev tSchedListHead w3)) as [p Hp].
    { rewrite (get_prev_set_next _ _ _ _ _ H3).
      rewrite (get_prev_set_prev _ _ _ _ _ H2).
      rewrite decide_False by done.
      rewrite (get_prev_set_next _ _ _ _ _ H1). by eexists. }
    unfold get_prev in Hp. apply fmap_Some in Hp as (n & -> & _). by eexists. }
  destruct (set_prev_is_Some tSchedListHead t w3 Hal3) as [w4 H4].
  exists w4. split; [done|].
  assert (∀ a, get_next a w4 =
               if decide (a = t) then Some tSchedListHead
               else if decide (a = z) then Some t else get_next a w) as Hnext.
  { intros a. rewrite (get_next_set_prev _ _ _ _ _ H4).
    rewrite (get_next_set_next _ _ _ _ _ H3).
    destruct (decide (a = t)); [done|].
    rewrite (get_next_set_prev _ _ _ _ _ H2).
    by rewrite (get_next_set_next _ _ _ _ _ H1). }
  split; [|repeat split].
  - repeat split.
    + apply list.NoDup_cons in Hnd as [Hh Hl].
      apply list.NoDup_cons. split.
      * intros Hin. apply elem_of_app in Hin as [Hin|Hin]; [done|].
        apply list_elem_of_singleton in Hin. done.
      * apply list.NoDup_app. repeat split; [done| |apply list.NoDup_singleton].
        intros x Hx Hxt. apply list_elem_of_singleton in Hxt as ->.
        apply Ht. by right.
    + unfold path.
      assert (chain (λ a b, get_next a w4 = Some b) tSchedListHead (l ++ [t])) as Hc.
      { subst z. destruct l as [|x l0 _] using rev_ind.
        - split; [|done]. rewrite Hnext.
          rewrite decide_False by done. by rewrite decide_True.
        - rewrite last_last in *.
          apply chain_snoc.
          + apply chain_app_l in Hpath.
            eapply chain_impl_src; [|exact Hpath].
            intros a b Ha. simpl. rewrite Hnext.
            assert (a ≠ t) by (intros ->; apply Ht; apply elem_of_cons in Ha as [->|Ha];
                               [left|right; apply elem_of_app; by left]).
            assert (a ≠ x).
            { intros ->. rewrite app_comm_cons in Hnd.
              apply list.NoDup_app in Hnd as (_ & Hd & _).
              apply (Hd x Ha). left. }
            by rewrite !decide_False by done.
          + simpl. rewrite Hnext. rewrite decide_False by done.
            by rewrite decide_True. }
      apply chain_snoc; [done|]. simpl. rewrite Hnext. by rewrite decide_True.
    + rewrite last_last. rewrite (get_prev_set_prev _ _ _ _ _ H4).
      by rewrite decide_True.
  - intros a. rewrite (get_tState_set_prev _ _ _ _ _ H4).
    rewrite (get_tState_set_next _ _ _ _ _ H3).
    rewrite (get_tState_set_prev _ _ _ _ _ H2).
    by rewrite (get_tState_set_next _ _ _ _ _ H1).
  - intros a. rewrite (get_context_set_prev _ _ _ _ _ H4).
    rewrite (get_context_set_next _ _ _ _ _ H3).
    rewrite (get_context_set_prev _ _ _ _ _ H2).
    by rewrite (get_context_set_next _ _ _ _ _ H1).
  - unfold set_prev, set_next in *. inv_bind. by subst.
  - unfold set_prev, set_next in *. inv_bind. by subst.
Qed.

(** ** [switchTasks] on a well-formed ready list *)

Lemma is_runnable_allocated w a :
  is_runnable w a = true → is_Some (tasks w !! a).
Proof.
  unfold is_runnable, get_tState.
  destruct (tasks w !! a); [by eexists|done].
Qed.

Lemma scan_order_exists l c :
  c ∈ l → ∃ V, scan_order l c V ∧ ∀ x, x ∈ V → x ∈ l.
Proof.
  intros Hc. destruct (decide (c = NULL)) as [->|Hne].
  - exists l. split; [constructor|done].
  - apply list_elem_of_split in Hc as (l1 & l2 & ->).
    exists (l2 ++ l1 ++ [c]). split; [by constructor|].
    intros x. rewrite !elem_of_app, !elem_of_cons, elem_of_nil. tauto.
Qed.

(** With a runnable task on a well-formed ready list, [switchTasks]
    returns the task that was current, makes a task [y] of the list
    current and RUNNING, and leaves the returned task READY unless it is
    [y] itself; nothing else changes. *)
Lemma switchTasks_ring fuel l w :
  ring l w → currTask w ∈ l →
  (∃ x, x ∈ l ∧ is_runnable w x = true) → length l ≤ fuel →
  ∃ w', switchTasks fuel w = Some (currTask w, w') ∧
        currTask w' ∈ l ∧
        ring l w' ∧
        (∀ a, get_tState a w' =
              if decide (a = currTask w') then Some RUNNING
              else if decide (a = currTask w) then Some READY
              else get_tState a w) ∧
        (∀ a, get_context a w' = get_context a w) ∧
        swaps w' = swaps w ∧ mutexes w' = mutexes w ∧ frames w' = frames w.
Proof.
  intros Hring Hc Hrun Hf.
  destruct (scan_order_exists l (currTask w) Hc) as (V & Hscan & HV).
  destruct (getNextTask_scan_first fuel l w V Hring Hscan Hrun Hf)
    as (pre & y & post & HVeq & _ & Hy & _ & Hget).
  assert (y ∈ l) as Hyl.
  { apply HV. rewrite HVeq. apply elem_of_app. right. left. }
  unfold switchTasks. rewrite Hget. simpl.
  assert (is_Some (tasks (with_currTask y w) !! currTask w)) as Hold.
  { simpl. apply (ring_allocated l w); [done|by right]. }
  destruct (set_tState_is_Some _ READY _ Hold) as [w2 H2].
  change (currTask (with_currTask y w)) with y.
  rewrite H2. simpl.
  destruct (set_tState_frame _ _ _ _ H2) as (Hfr2 & Hmu2 & Hcu2 & Hsw2 & _ & Hdom2).
  simpl in Hcu2, Hfr2, Hmu2, Hsw2. rewrite Hcu2.
  assert (is_Some (tasks w2 !! y)) as Hnew.
  { apply Hdom2. simpl. by apply is_runnable_allocated. }
  destruct (set_tState_is_Some _ RUNNING _ Hnew) as [w3 H3].
  rewrite H3. simpl.
  destruct (set_tState_frame _ _ _ _ H3) as (Hfr3 & Hmu3 & Hcu3 & Hsw3 & _ & Hdom3).
  exists w3. split; [done|].
  rewrite Hcu3, Hcu2.
  split; [done|]. split; [|split; [|split; [|repeat split; congruence]]].
  - eapply ring_ext; [| |exact Hring].
    + intros a. rewrite (get_next_set_tState _ _ _ _ _ H3).
      by rewrite (get_next_set_tState _ _ _ _ _ H2).
    + rewrite (get_prev_set_tState _ _ _ _ _ H3).
      by rewrite (get_prev_set_tState _ _ _ _ _ H2).
  - intros a. rewrite (get_tState_set_tState _ _ _ _ _ H3).
    destruct (decide (a = y)); [done|].
    by rewrite (get_tState_set_tState _ _ _ _ _ H2).
  - intros a. rewrite (get_context_set_tState _ _ _ _ _ H3).
    by rewrite (get_context_set_tState _ _ _ _ _ H2).
Qed.

(** ** [initTask] *)

Lemma upd_context_frame a f w w' :
  upd_context a f w = Some w' →
  (∀ b, is_Some (tasks w' !! b) ↔ is_Some (tasks w !! b)) ∧
  currTask w' = currTask w ∧ swaps w' = swaps w ∧
  get_context a w' = f <$> get_context a w.
Proof.
  unfold upd_context, get_context, set_context. intros H. inv_bind. subst.
  simpl. repeat split.
  - destruct (decide (a = b)) as [->|]; [by eauto|].
    by rewrite lookup_insert_ne.
  - destruct (decide (a = b)) as [->|].
    + rewrite lookup_insert_eq. by eauto.
    + by rewrite lookup_insert_ne.
  - rewrite lookup_insert_eq. simpl.
    match goal with Hl : tasks w !! a = Some _ |- _ => by rewrite Hl end.
Qed.

(** C9.  On a handle whose state is not ALLOC, [initTask] returns with the
    whole state as it was: no field of the task, no link of the ready
    list, no stack, no [swapcontext].  On a handle in state ALLOC that is
    not yet on the (well-formed) ready list, and with a stack that
    [calloc] did provide, it returns having installed the stack,
    [cleanUpCtx] as successor and the entry routine in the task's
    context, appended the task to the ready list, called [schedule()]
    once, and left the task READY, or RUNNING if the scheduler picked
    it. *)
Theorem initTask_only_on_alloc fuel stack t f argc args w s :
  get_tState t w = Some s →
  (s ≠ ALLOC → initTask fuel stack t f argc args w = Some w) ∧
  (s = ALLOC →
   ∀ l, t ≠ NULL → stack ≠ NULL →
        ring l w → currTask w ∈ l → t ∉ tSchedListHead :: l →
        length l < fuel →
        ∃ w', initTask fuel stack t f argc args w = Some w' ∧
              get_context t w' =
                Some (mkCtx stack 16384%Z CleanUpCtx (Some (f, argc, args))) ∧
              ring (l ++ [t]) w' ∧
              get_tState t w' =
                Some (if decide (t = currTask w') then RUNNING else READY) ∧
              swaps w' =
                swaps w ++ [(TaskCtx (currTask w), TaskCtx (currTask w'))]).
Proof.
  intros Hs. split.
  - intros Hne. unfold initTask.
    destruct (decide (t = NULL)); [done|].
    rewrite Hs. simpl. by rewrite decide_True.
  - intros -> l Hnull Hstack Hring Hcur Ht Hf.
    assert (is_Some (tasks w !! t)) as Hal.
    { unfold get_tState in Hs. apply fmap_Some in Hs as (n & -> & _). by eexists. }
    unfold initTask. rewrite decide_False by done.
    rewrite Hs. simpl.
    destruct (upd_context_is_Some t getcontext w Hal) as [w1 H1].
    rewrite H1. simpl.
    destruct (upd_context_frame _ _ _ _ H1) as (Hd1 & Hc1 & Hsw1 & Hx1).
    destruct (upd_context_is_Some t (set_ss_sp stack) w1) as [w2 H2];
      [by apply Hd1|].
    rewrite H2. simpl.
    destruct (upd_context_frame _ _ _ _ H2) as (Hd2 & Hc2 & Hsw2 & Hx2).
    destruct (upd_context_is_Some t (set_ss_size (16384 * 1)%Z) w2) as [w3 H3];
      [by apply Hd2, Hd1|].
    rewrite H3. simpl.
    destruct (upd_context_frame _ _ _ _ H3) as (Hd3 & Hc3 & Hsw3 & Hx3).
    destruct (upd_context_is_Some t (set_uc_link CleanUpCtx) w3) as [w4 H4];
      [by apply Hd3, Hd2, Hd1|].
    rewrite H4. simpl.
    destruct (upd_context_frame _ _ _ _ H4) as (Hd4 & Hc4 & Hsw4 & Hx4).
    assert (∃ c4, get_context t w4 = Some c4 ∧ uc_stack_sp c4 = stack)
      as (c4 & Hg4 & Hsp4).
    { rewrite Hx4, Hx3, Hx2, Hx1. unfold get_context.
      destruct Hal as [n Hn]. rewrite Hn. simpl. by eexists. }
    rewrite (try_context_makecontext t f argc args w4 c4 Hg4)
      by (by rewrite Hsp4).
    match goal with
    | |- context [upd_context t ?g w4] =>
        destruct (upd_context_is_Some t g w4) as [w5 H5];
          [by apply Hd4, Hd3, Hd2, Hd1|]
    end.
    rewrite H5. simpl.
    destruct (upd_context_frame _ _ _ _ H5) as (Hd5 & Hc5 & Hsw5 & Hx5).
    destruct (set_tState_is_Some t READY w5) as [w6 H6];
      [by apply Hd5, Hd4, Hd3, Hd2, Hd1|].
    rewrite H6. simpl.
    destruct (set_tState_frame _ _ _ _ H6) as (Hfr6 & Hmu6 & Hc6 & Hsw6 & _ & Hd6).
    assert (∀ a, get_next a w6 = get_next a w) as Hn6.
    { intros a. rewrite (get_next_set_tState _ _ _ _ _ H6).
      rewrite (get_next_upd_context _ _ _ _ _ H5).
      rewrite (get_next_upd_context _ _ _ _ _ H4).
      rewrite (get_next_upd_context _ _ _ _ _ H3).
      rewrite (get_next_upd_context _ _ _ _ _ H2).
      by rewrite (get_next_upd_context _ _ _ _ _ H1). }
    assert (∀ a, get_prev a w6 = get_prev a w) as Hp6.
    { intros a. rewrite (get_prev_set_tState _ _ _ _ _ H6).
      rewrite (get_prev_upd_context _ _ _ _ _ H5).
      rewrite (get_prev_upd_context _ _ _ _ _ H4).
      rewrite (get_prev_upd_context _ _ _ _ _ H3).
      rewrite (get_prev_upd_context _ _ _ _ _ H2).
      by rewrite (get_prev_upd_context _ _ _ _ _ H1). }
    assert (get_context t w6 =
            Some (mkCtx stack 16384%Z CleanUpCtx (Some (f, argc, args)))) as Hx6.
    { rewrite (get_context_set_tState _ _ _ _ _ H6).
      rewrite Hx5, Hx4, Hx3, Hx2, Hx1.
      unfold get_context. destruct Hal as [n ->]. reflexivity. }
    assert (get_tState t w6 = Some READY) as Hs6.
    { rewrite (get_tState_set_tState _ _ _ _ _ H6). by rewrite decide_True. }
    destruct (listAdd_ring l t w6) as (w7 & H7 & Hring7 & Hs7 & Hx7 & Hc7 & Hsw7).
    { by apply (ring_ext l w). }
    { done. }
    { by apply Hd6, Hd5, Hd4, Hd3, Hd2, Hd1. }
    rewrite H7. simpl.
    assert (currTask w7 = currTask w) as Hcw by congruence.
    destruct (switchTasks_ring fuel (l ++ [t]) w7)
      as (w8 & H8 & Hc8 & Hring8 & Hs8 & Hx8 & Hsw8 & _); try done.
    { rewrite Hcw. apply elem_of_app. by left. }
    { exists t. split; [apply elem_of_app; right; left|].
      unfold is_runnable. by rewrite Hs7, Hs6. }
    { rewrite length_app. simpl. lia. }
    unfold schedule. rewrite H8. simpl.
    eexists. split; [reflexivity|].
    unfold swapcontext.
    change (get_context t (with_swaps ?x w8)) with (get_context t w8).
    change (get_tState t (with_swaps ?x w8)) with (get_tState t w8).
    change (currTask (with_swaps ?x w8)) with (currTask w8).
    change (swaps (with_swaps ?x w8)) with x.
    repeat split.
    + by rewrite Hx8, Hx7.
    + by destruct Hring8 as (? & _).
    + by destruct Hring8 as (_ & ? & _).
    + by destruct Hring8 as (_ & _ & ?).
    + rewrite Hs8. destruct (decide (t = currTask w8)); [done|].
      rewrite Hs7, Hs6. by destruct (decide (t = currTask w7)).
    + rewrite Hsw8, Hsw7, Hsw6, Hsw5, Hsw4, Hsw3, Hsw2, Hsw1. by rewrite Hcw.
Qed.

(** ** How the wait collection is built *)

Lemma lpath_snoc fs z q :
  ∀ xs p,
  lpath fs p (xs ++ [z]) q ↔
  lpath fs p xs (LNode z) ∧ ∃ nd, fs !! z = Some nd ∧ lnext nd = q.
Proof.
  induction xs as [|x xs IH]; intros p; simpl.
  - split.
    + intros (-> & nd & Hz & Hq). split; [done|]. by exists nd.
    + intros (-> & nd & Hz & Hq). split; [done|]. by exists nd.
  - split.
    + intros (-> & nd & Hx & Hp). apply IH in Hp as [Hp Hz].
      split; [|done]. split; [done|]. by exists nd.
    + intros ((-> & nd & Hx & Hp) & Hz). split; [done|].
      exists nd. split; [done|]. apply IH. by split.
Qed.

Lemma lpath_agree fs fs' q :
  ∀ xs p,
  (∀ x, x ∈ xs → fs' !! x = fs !! x) →
  lpath fs p xs q → lpath fs' p xs q.
Proof.
  induction xs as [|x xs IH]; intros p Hag; simpl; [done|].
  intros (-> & nd & Hx & Hp). split; [done|]. exists nd. split.
  - rewrite Hag; [done|left].
  - apply IH; [|done]. intros y Hy. apply Hag. by right.
Qed.

Lemma wtasks_agree fs fs' xs :
  (∀ x, x ∈ xs → fs' !! x = fs !! x) → wtasks fs' xs = wtasks fs xs.
Proof.
  induction xs as [|x xs IH]; intros Hag; [done|].
  change (wtasks fs' (x :: xs)) with
    (match task <$> fs' !! x with
     | Some t => t :: wtasks fs' xs
     | None => wtasks fs' xs
     end).
  change (wtasks fs (x :: xs)) with
    (match task <$> fs !! x with
     | Some t => t :: wtasks fs xs
     | None => wtasks fs xs
     end).
  rewrite (Hag x) by left.
  rewrite IH; [done|]. intros y Hy. apply Hag. by right.
Qed.

Lemma wtasks_snoc fs xs z nd :
  fs !! z = Some nd → wtasks fs (xs ++ [z]) = wtasks fs xs ++ [task nd].
Proof.
  intros Hz. unfold wtasks. rewrite omap_app. simpl. by rewrite Hz.
Qed.

(** [initMyMutex] leaves the mutex free with an empty wait collection. *)
Lemma initMyMutex_waiting m w mx :
  mutexes w !! m = Some mx →
  ∃ w', initMyMutex m w = Some w' ∧ waiting m [] w' ∧
        get_value m w' = Some 0%Z ∧ get_lockedBy m w' = Some (lockedBy mx) ∧
        same_sched w w' ∧ frames w' = frames w.
Proof.
  intros Hm. unfold initMyMutex, set_value, set_lnext, set_lprev, set_task.
  rewrite Hm. simpl. repeat (rewrite lookup_insert_eq; simpl).
  eexists. split; [reflexivity|].
  unfold waiting, get_value, get_lockedBy. simpl. rewrite lookup_insert_eq. simpl.
  repeat split; try done.
  eexists. split; [reflexivity|]. simpl. repeat split; try done. constructor.
Qed.

Ltac map_simp :=
  repeat (first [ rewrite lookup_insert_eq
                | rewrite lookup_insert_ne by done
                | match goal with
                  | H : _ !! _ = Some _ |- _ => rewrite H
                  end ];
          simpl).

Lemma lpath_allocated fs q :
  ∀ xs p x, lpath fs p xs q → x ∈ xs → is_Some (fs !! x).
Proof.
  induction xs as [|y xs IH]; intros p x Hp Hx.
  - by apply elem_of_nil in Hx.
  - simpl in Hp. destruct Hp as (-> & nd & Hy & Hp).
    apply elem_of_cons in Hx as [->|Hx]; [by eexists|]. by eapply IH.
Qed.

(** The five assignments of "add to waiting queue" append the caller's
    [myNode] to the wait collection and record the calling task in it. *)
Lemma lock_enqueue_waiting n m ns w :
  waiting m ns w → n ∉ ns →
  ∃ w', lock_enqueue n m (enter_myNode n w) = Some w' ∧
        waiting m (ns ++ [n]) w' ∧
        wtasks (frames w') (ns ++ [n]) = wtasks (frames w) ns ++ [currTask w] ∧
        same_sched w w' ∧
        get_value m w' = get_value m w ∧
        get_lockedBy m w' = get_lockedBy m w.
Proof.
  intros (mx & Hm & Hnd & Hp & Hl) Hn.
  destruct ns as [|z ns0 _] using rev_ind.
  - simpl in Hl, Hp.
    unfold lock_enqueue, set_task, set_lnext, set_lprev, get_lprev, enter_myNode.
    simpl. map_simp. rewrite Hl. simpl. map_simp.
    eexists. split; [reflexivity|].
    unfold waiting, get_value, get_lockedBy. simpl. map_simp.
    repeat split; try done.
    eexists. split; [reflexivity|]. simpl. repeat split.
    + apply list.NoDup_singleton.
    + eexists. map_simp. done.
  - rewrite fmap_app in Hl. simpl in Hl. rewrite last_last in Hl.
    apply lpath_snoc in Hp as (Hp0 & ndz & Hz & Hzq).
    apply list.NoDup_app in Hnd as (Hnd0 & Hdis & _).
    assert (z ∉ ns0) as Hz0.
    { intros Hin. apply (Hdis z Hin). left. }
    apply not_elem_of_app in Hn as [Hn0 Hnz].
    assert (n ≠ z) as Hne.
    { intros ->. apply Hnz. left. }
    unfold lock_enqueue, set_task, set_lnext, set_lprev, get_lprev, enter_myNode.
    simpl. map_simp. rewrite Hl. simpl. map_simp.
    eexists. split; [reflexivity|].
    unfold waiting, get_value, get_lockedBy. simpl. map_simp.
    repeat split; try done.
    + eexists. split; [reflexivity|]. simpl. repeat split.
      * apply list.NoDup_app. repeat split.
        -- apply list.NoDup_app. repeat split; [done| |apply list.NoDup_singleton].
           intros x Hx Hxz. apply list_elem_of_singleton in Hxz as ->. done.
        -- intros x Hx Hxn. apply list_elem_of_singleton in Hxn as ->.
           apply elem_of_app in Hx as [Hx|Hx]; [done|].
           apply list_elem_of_singleton in Hx. done.
        -- apply list.NoDup_singleton.
      * apply lpath_snoc. split.
        -- apply lpath_snoc. split.
           ++ eapply lpath_agree; [|exact Hp0].
              intros x Hx. rewrite !lookup_insert_ne; [done|..];
                intros ->; done.
           ++ eexists. map_simp. done.
        -- eexists. map_simp. done.
      * rewrite fmap_app. simpl. by rewrite last_last.
    + erewrite wtasks_snoc by (map_simp; reflexivity).
      erewrite wtasks_snoc by (map_simp; reflexivity).
      erewrite wtasks_snoc by exact Hz.
      simpl. f_equal. f_equal. apply wtasks_agree.
      intros x Hx. rewrite !lookup_insert_ne; [done|..]; intros ->; done.
Qed.

(** ** [unlockMutex] after a hand-over *)

(** The loop of [unlockMutex], started on a chain of records that ends in
    a record which no longer exists, has no result. *)
Lemma unlock_notify_dead m n :
  ∀ ns fuel p w,
  lpath (frames w) p ns (LNode n) → frames w !! n = None →
  unlock_notify fuel m p w = None.
Proof.
  induction ns as [|a ns IH]; intros fuel p w Hp Hdead; simpl in Hp.
  - subst p. destruct fuel as [|fuel]; simpl; [done|].
    unfold get_task. simpl. by rewrite Hdead.
  - destruct Hp as (-> & nd & Ha & Hp).
    destruct fuel as [|fuel]; simpl; [done|].
    unfold get_task. simpl. rewrite Ha. simpl.
    destruct (set_tState (task nd) READY w) as [w1|] eqn:H1; simpl; [|done].
    destruct (set_tState_frame _ _ _ _ H1) as (Hf1 & _).
    unfold get_lnext. simpl. rewrite Hf1, Ha. simpl.
    apply IH; by rewrite Hf1.
Qed.

Lemma unlockMutex_dead_record fuel m w mx ns n :
  mutexes w !! m = Some mx → value mx ≠ 0%Z → lockedBy mx = currTask w →
  lpath (frames w) (lnext (taskList mx)) ns (LNode n) →
  frames w !! n = None →
  unlockMutex fuel m w = None.
Proof.
  intros Hm Hv Ho Hp Hdead.
  unfold unlockMutex, get_value, get_lockedBy. simpl. rewrite Hm. simpl.
  rewrite decide_True by done.
  unfold set_value. simpl. rewrite Hm. simpl.
  unfold get_lnext. simpl. rewrite lookup_insert_eq. simpl.
  by rewrite (unlock_notify_dead m n ns).
Qed.

(** C4.  Task 3 holds the mutex, having got it from main through a
    [lockMutex] that had to wait, and task 4 is still queued.  "Remove
    from waiting queue" did not unlink the record of task 3:
    [lock_enqueue] sets [myNode.prev] after the head's [prev] already
    points to [myNode], so [myNode.prev] is [myNode] itself and the removal
    writes [myNode.next] onto itself.  The record went out of scope when
    [lockMutex] returned and is still reachable from the head.  The
    [unlockMutex] that task 3, the holder, now issues walks from the
    record of task 4 into the dead one and has no result, whatever the
    fuel. *)
Theorem unlockMutex_after_handover :
  (w ← reacquired;
   Some (currTask w, get_value 10 w, get_lockedBy 10 w,
         get_lnext (LHead 10) w, get_task (LNode 40) w,
         get_lnext (LNode 40) w, frames w !! 30))
  = Some (3, Some 1%Z, Some 3,
          Some (LNode 40), Some 4, Some (LNode 30), None) ∧
  ∀ fuel, reacquired ≫= unlockMutex fuel 10 = None.
Proof.
  split; [vm_compute; reflexivity|]. intros fuel.
  assert (reacquired = Some (default boot reacquired)) as ->
    by (vm_compute; reflexivity).
  change (unlockMutex fuel 10 (default boot reacquired) = None).
  apply (unlockMutex_dead_record fuel 10 _
           (mkMutex 1%Z 3 (mkNode NULL (LNode 40) (LNode 30))) [40] 30).
  - vm_compute. reflexivity.
  - discriminate.
  - vm_compute. reflexivity.
  - split; [reflexivity|]. exists (mkNode 4 (LNode 30) (LNode 40)).
    split; [vm_compute; reflexivity|reflexivity].
  - vm_compute. reflexivity.
Qed.

(** ** The theorems at work on concrete runs *)

Lemma getNextTask_first_runnable_witness :
  ring [2; 3; 4] (default boot one_blocked) ∧
  scan_order [2; 3; 4] (currTask (default boot one_blocked)) [2; 3; 4] ∧
  get_tState 2 (default boot one_blocked) = Some BLOCKED ∧
  getNextTask 3 (default boot one_blocked) = Some 3 ∧
  ∃ pre y post,
    [2; 3; 4] = pre ++ y :: post ∧
    Forall (λ x, is_runnable (default boot one_blocked) x = false) pre ∧
    is_runnable (default boot one_blocked) y = true ∧
    y ≠ tSchedListHead ∧
    getNextTask 3 (default boot one_blocked) = Some y.
Proof.
  assert (ring [2; 3; 4] (default boot one_blocked)) as Hr.
  { split; [apply (bool_decide_unpack _); vm_compute; reflexivity|].
    split; [|vm_compute; reflexivity].
    repeat split; vm_compute; reflexivity. }
  assert (scan_order [2; 3; 4] (currTask (default boot one_blocked)) [2; 3; 4])
    as Hs.
  { change (currTask (default boot one_blocked)) with 4.
    apply (scan_from_task [2; 3; 4] [2; 3] 4 []); [discriminate|reflexivity]. }
  split; [exact Hr|]. split; [exact Hs|].
  split; [vm_compute; reflexivity|]. split; [vm_compute; reflexivity|].
  apply (getNextTask_first_runnable 3 [2; 3; 4] (default boot one_blocked)
           [2; 3; 4] Hr Hs).
  - exists 3. split; [|vm_compute; reflexivity]. right. left.
  - simpl. lia.
Defined.


Lemma initTask_only_on_alloc_witness :
  get_tState 3 (default boot two_tasks) = Some RUNNING ∧
  initTask 4 300 3 (UserFunc 7) 0%Z [] (default boot two_tasks)
  = Some (default boot two_tasks) ∧
  get_tState 3 (default boot created) = Some ALLOC ∧
  ∃ w', initTask 4 200 3 (UserFunc 1) 0%Z [] (default boot created) = Some w' ∧
        get_context 3 w' =
          Some (mkCtx 200 16384%Z CleanUpCtx (Some (UserFunc 1, 0%Z, []))) ∧
        ring ([2] ++ [3]) w' ∧
        get_tState 3 w' =
          Some (if decide (3 = currTask w') then RUNNING else READY) ∧
        swaps w' =
          swaps (default boot created)
          ++ [(TaskCtx (currTask (default boot created)), TaskCtx (currTask w'))].
Proof.
  assert (get_tState 3 (default boot two_tasks) = Some RUNNING) as H1
    by (vm_compute; reflexivity).
  assert (get_tState 3 (default boot created) = Some ALLOC) as H2
    by (vm_compute; reflexivity).
  split; [exact H1|]. split.
  - apply (proj1 (initTask_only_on_alloc 4 300 3 (UserFunc 7) 0%Z []
                    (default boot two_tasks) RUNNING H1)).
    discriminate.
  - split; [exact H2|].
    apply (proj2 (initTask_only_on_alloc 4 200 3 (UserFunc 1) 0%Z []
                    (default boot created) ALLOC H2)).
    + reflexivity.
    + discriminate.
    + discriminate.
    + split; [apply (bool_decide_unpack _); vm_compute; reflexivity|].
      split; [|vm_compute; reflexivity].
      repeat split; vm_compute; reflexivity.
    + change (currTask (default boot created)) with 2. left.
    + apply (bool_decide_unpack _). vm_compute. reflexivity.
    + simpl. lia.
Defined.

(** * Further properties of the code *)

(** ** The ready list as a doubly linked ring *)

Lemma last_cons_default (x a : addr) xs :
  List.last (x :: xs) a = List.last xs x.
Proof.
  revert x a. induction xs as [|y xs IH]; intros x a; [done|].
  change (List.last (x :: y :: xs) a) with (List.last (y :: xs) a).
  by rewrite (IH y a), (IH y x).
Qed.

Lemma chain_snoc_iff R a xs b :
  chain R a (xs ++ [b]) ↔ chain R a xs ∧ R (List.last xs a) b.
Proof.
  revert a. induction xs as [|x xs IH]; intros a.
  - simpl. tauto.
  - rewrite last_cons_default. simpl. rewrite IH. tauto.
Qed.

Lemma last_elem_of (a : addr) xs : List.last xs a ∈ a :: xs.
Proof.
  destruct xs as [|x xs _] using rev_ind; [left|].
  rewrite last_last. right. apply elem_of_app. right. left.
Qed.

Lemma dring_ring l w : dring l w → ring l w.
Proof.
  intros (Hnd & Hn & Hp). repeat split; try done.
  apply chain_snoc_iff in Hp as [_ Hp]. done.
Qed.

Lemma set_next_frame a v w w' :
  set_next a v w = Some w' →
  currTask w' = currTask w ∧ swaps w' = swaps w ∧
  mutexes w' = mutexes w ∧ frames w' = frames w ∧
  ∀ t, is_Some (tasks w' !! t) ↔ is_Some (tasks w !! t).
Proof.
  unfold set_next. intros H. inv_bind. subst. simpl.
  repeat split; try done.
  - destruct (decide (a = t)) as [->|]; [by eauto|].
    by rewrite lookup_insert_ne.
  - destruct (decide (a = t)) as [->|].
    + rewrite lookup_insert_eq. by eauto.
    + by rewrite lookup_insert_ne.
Qed.

Lemma set_prev_frame a v w w' :
  set_prev a v w = Some w' →
  currTask w' = currTask w ∧ swaps w' = swaps w ∧
  mutexes w' = mutexes w ∧ frames w' = frames w ∧
  ∀ t, is_Some (tasks w' !! t) ↔ is_Some (tasks w !! t).
Proof.
  unfold set_prev. intros H. inv_bind. subst. simpl.
  repeat split; try done.
  - destruct (decide (a = t)) as [->|]; [by eauto|].
    by rewrite lookup_insert_ne.
  - destruct (decide (a = t)) as [->|].
    + rewrite lookup_insert_eq. by eauto.
    + by rewrite lookup_insert_ne.
Qed.

(** What [listAdd] does to the links, whatever the shape of the list:
    with [z] the node before the head, [z] gets [node] as successor,
    [node] gets [z] and the head as neighbours, and the head gets [node]
    as predecessor. *)
Lemma listAdd_links head node z w :
  get_prev head w = Some z →
  is_Some (tasks w !! z) → is_Some (tasks w !! node) →
  ∃ w', listAdd head node w = Some w' ∧
        (∀ a, get_next a w' =
              if decide (a = node) then Some head
              else if decide (a = z) then Some node else get_next a w) ∧
        (∀ a, get_prev a w' =
              if decide (a = head) then Some node
              else if decide (a = node) then Some z else get_prev a w) ∧
        (∀ a, get_tState a w' = get_tState a w) ∧
        (∀ a, get_context a w' = get_context a w) ∧
        (∀ a, is_Some (tasks w' !! a) ↔ is_Some (tasks w !! a)) ∧
        currTask w' = currTask w ∧ swaps w' = swaps w ∧
        mutexes w' = mutexes w ∧ frames w' = frames w.
Proof.
  intros Hprev Hz Hnode.
  assert (is_Some (tasks w !! head)) as Hhead.
  { unfold get_prev in Hprev. apply fmap_Some in Hprev as (n & -> & _).
    by eexists. }
  unfold listAdd. rewrite Hprev. simpl.
  destruct (set_next_is_Some z node w Hz) as [w1 H1]. rewrite H1. simpl.
  destruct (set_next_frame _ _ _ _ H1) as (Hc1 & Hs1 & Hm1 & Hf1 & Hd1).
  rewrite (get_prev_set_next _ _ _ _ head H1), Hprev. simpl.
  destruct (set_prev_is_Some node z w1) as [w2 H2]; [by apply Hd1|].
  rewrite H2. simpl.
  destruct (set_prev_frame _ _ _ _ H2) as (Hc2 & Hs2 & Hm2 & Hf2 & Hd2).
  destruct (set_next_is_Some node head w2) as [w3 H3]; [by apply Hd2, Hd1|].
  rewrite H3. simpl.
  destruct (set_next_frame _ _ _ _ H3) as (Hc3 & Hs3 & Hm3 & Hf3 & Hd3).
  destruct (set_prev_is_Some head node w3) as [w4 H4];
    [by apply Hd3, Hd2, Hd1|].
  destruct (set_prev_frame _ _ _ _ H4) as (Hc4 & Hs4 & Hm4 & Hf4 & Hd4).
  exists w4. split; [done|].
  split; [|split; [|split; [|split; [|split]]]].
  - intros a. rewrite (get_next_set_prev _ _ _ _ _ H4).
    rewrite (get_next_set_next _ _ _ _ _ H3).
    destruct (decide (a = node)); [done|].
    rewrite (get_next_set_prev _ _ _ _ _ H2).
    by rewrite (get_next_set_next _ _ _ _ _ H1).
  - intros a. rewrite (get_prev_set_prev _ _ _ _ _ H4).
    destruct (decide (a = head)); [done|].
    rewrite (get_prev_set_next _ _ _ _ _ H3).
    rewrite (get_prev_set_prev _ _ _ _ _ H2).
    destruct (decide (a = node)); [done|].
    by rewrite (get_prev_set_next _ _ _ _ _ H1).
  - intros a. rewrite (get_tState_set_prev _ _ _ _ _ H4).
    rewrite (get_tState_set_next _ _ _ _ _ H3).
    rewrite (get_tState_set_prev _ _ _ _ _ H2).
    by rewrite (get_tState_set_next _ _ _ _ _ H1).
  - intros a. rewrite (get_context_set_prev _ _ _ _ _ H4).
    rewrite (get_context_set_next _ _ _ _ _ H3).
    rewrite (get_context_set_prev _ _ _ _ _ H2).
    by rewrite (get_context_set_next _ _ _ _ _ H1).
  - intros a. rewrite Hd4, Hd3, Hd2, Hd1. done.
  - repeat split; congruence.
Qed.

(** [listInit] makes the head an empty ring. *)
Lemma listInit_dring w :
  is_Some (tasks w !! tSchedListHead) →
  ∃ w', listInit tSchedListHead w = Some w' ∧ dring [] w' ∧
        (∀ a, get_tState a w' = get_tState a w) ∧
        (∀ a, is_Some (tasks w' !! a) ↔ is_Some (tasks w !! a)) ∧
        currTask w' = currTask w ∧ swaps w' = swaps w ∧
        mutexes w' = mutexes w ∧ frames w' = frames w.
Proof.
  intros Hh. unfold listInit.
  destruct (set_next_is_Some tSchedListHead tSchedListHead w Hh) as [w1 H1].
  rewrite H1. simpl.
  destruct (set_next_frame _ _ _ _ H1) as (Hc1 & Hs1 & Hm1 & Hf1 & Hd1).
  destruct (set_prev_is_Some tSchedListHead tSchedListHead w1) as [w2 H2];
    [by apply Hd1|].
  destruct (set_prev_frame _ _ _ _ H2) as (Hc2 & Hs2 & Hm2 & Hf2 & Hd2).
  exists w2. split; [done|]. split; [|split; [|split]].
  - split; [apply list.NoDup_singleton|]. split.
    + split; [|done]. rewrite (get_next_set_prev _ _ _ _ _ H2).
      rewrite (get_next_set_next _ _ _ _ _ H1). by rewrite decide_True.
    + split; [|done]. rewrite (get_prev_set_prev _ _ _ _ _ H2).
      by rewrite decide_True.
  - intros a. rewrite (get_tState_set_prev _ _ _ _ _ H2).
    by rewrite (get_tState_set_next _ _ _ _ _ H1).
  - intros a. by rewrite Hd2, Hd1.
  - repeat split; congruence.
Qed.

(** [listAdd] on the head appends [t] at the tail of the ring, in both
    directions. *)
Lemma listAdd_dring l t w :
  dring l w → t ∉ tSchedListHead :: l → is_Some (tasks w !! t) →
  ∃ w', listAdd tSchedListHead t w = Some w' ∧
        dring (l ++ [t]) w' ∧
        (∀ a, get_tState a w' = get_tState a w) ∧
        (∀ a, get_context a w' = get_context a w) ∧
        (∀ a, is_Some (tasks w' !! a) ↔ is_Some (tasks w !! a)) ∧
        currTask w' = currTask w ∧ swaps w' = swaps w ∧
        mutexes w' = mutexes w ∧ frames w' = frames w.
Proof.
  intros Hd Ht Hal.
  pose proof (dring_ring l w Hd) as Hring.
  destruct Hd as (Hnd & Hn & Hp).
  pose proof Hp as Hp0. apply chain_snoc_iff in Hp0 as [Hpl Hprev].
  set (z := List.last l tSchedListHead) in *.
  assert (z ∈ tSchedListHead :: l) as Hz by apply last_elem_of.
  destruct (listAdd_links tSchedListHead t z w Hprev)
    as (w' & Hw' & Hnext & Hprev' & Hst & Hctx & Hdom & Hrest); [|done|].
  { by apply (ring_allocated l w). }
  destruct (listAdd_ring l t w Hring Ht Hal) as (w'' & Hw'' & Hring' & _).
  assert (w'' = w') as -> by congruence.
  exists w'. split; [done|]. split; [|done].
  destruct Hring' as (Hnd' & Hn' & _). split; [done|]. split; [done|].
  assert (t ≠ tSchedListHead) as Hth by (intros ->; apply Ht; left).
  apply chain_snoc_iff. split.
  - apply chain_snoc_iff. split.
    + eapply chain_impl; [|exact Hpl]. intros x y Hy Hxy. simpl.
      rewrite Hprev'.
      rewrite decide_False.
      * rewrite decide_False; [done|]. intros ->. apply Ht. by right.
      * intros ->. apply list.NoDup_cons in Hnd as [Hh _]. done.
    + simpl. rewrite Hprev'. rewrite decide_False by done.
      by rewrite decide_True.
  - simpl. rewrite last_last. rewrite Hprev'. by rewrite decide_True.
Qed.

(** What [listRemove] does to the links of a node other than the head:
    its neighbours are linked to each other; the node's own links stay. *)
Lemma listRemove_links head node n p w :
  head ≠ node →
  get_next node w = Some n → get_prev node w = Some p →
  is_Some (tasks w !! n) → is_Some (tasks w !! p) →
  ∃ w', listRemove head node w = Some w' ∧
        (∀ a, get_next a w' = if decide (a = p) then Some n else get_next a w) ∧
        (∀ a, get_prev a w' = if decide (a = n) then Some p else get_prev a w) ∧
        (∀ a, get_tState a w' = get_tState a w) ∧
        (∀ a, get_context a w' = get_context a w) ∧
        (∀ a, is_Some (tasks w' !! a) ↔ is_Some (tasks w !! a)) ∧
        currTask w' = currTask w ∧ swaps w' = swaps w ∧
        mutexes w' = mutexes w ∧ frames w' = frames w.
Proof.
  intros Hne Hn Hp Han Hap.
  unfold listRemove. rewrite decide_True by done.
  rewrite Hn, Hp. simpl.
  destruct (set_prev_is_Some n p w Han) as [w1 H1]. rewrite H1. simpl.
  destruct (set_prev_frame _ _ _ _ H1) as (Hc1 & Hs1 & Hm1 & Hf1 & Hd1).
  assert (get_prev node w1 = Some p) as ->.
  { rewrite (get_prev_set_prev _ _ _ _ _ H1).
    by destruct (decide (node = n)). }
  simpl. rewrite (get_next_set_prev _ _ _ _ _ H1), Hn. simpl.
  destruct (set_next_is_Some p n w1) as [w2 H2]; [by apply Hd1|].
  destruct (set_next_frame _ _ _ _ H2) as (Hc2 & Hs2 & Hm2 & Hf2 & Hd2).
  exists w2. split; [done|].
  split; [|split; [|split; [|split; [|split]]]].
  - intros a. rewrite (get_next_set_next _ _ _ _ _ H2).
    destruct (decide (a = p)); [done|].
    by rewrite (get_next_set_prev _ _ _ _ _ H1).
  - intros a. rewrite (get_prev_set_next _ _ _ _ _ H2).
    by rewrite (get_prev_set_prev _ _ _ _ _ H1).
  - intros a. rewrite (get_tState_set_next _ _ _ _ _ H2).
    by rewrite (get_tState_set_prev _ _ _ _ _ H1).
  - intros a. rewrite (get_context_set_next _ _ _ _ _ H2).
    by rewrite (get_context_set_prev _ _ _ _ _ H1).
  - intros a. by rewrite Hd2, Hd1.
  - repeat split; congruence.
Qed.

Lemma dring_allocated l w a :
  dring l w → a ∈ tSchedListHead :: l → is_Some (tasks w !! a).
Proof. intros Hd. apply ring_allocated. by apply dring_ring. Qed.

(** A chain survives a change of relation that spares every element with
    a successor in it. *)
Lemma chain_impl_sources (R R' : addr → addr → Prop) :
  ∀ xs a,
  (∀ x y, x ∈ removelast (a :: xs) → R x y → R' x y) →
  chain R a xs → chain R' a xs.
Proof.
  induction xs as [|b xs IH]; intros a HR; [done|].
  intros [H1 H2]. split.
  - apply HR; [|done]. left.
  - apply IH; [|done]. intros x y Hx. apply HR.
    change (removelast (a :: b :: xs)) with (a :: removelast (b :: xs)).
    by right.
Qed.

Lemma removelast_not_last (xs : list addr) d x :
  NoDup xs → x ∈ removelast xs → x ≠ List.last xs d.
Proof.
  intros Hnd Hx ->. destruct xs as [|y ys _] using rev_ind.
  - by apply elem_of_nil in Hx.
  - rewrite removelast_last in Hx. rewrite last_last in Hx.
    apply list.NoDup_app in Hnd as (_ & Hd & _).
    apply (Hd y Hx). left.
Qed.

(** [listRemove] on the head takes a node out of the ring, in both
    directions, and leaves the node's own links as they were. *)
Lemma listRemove_dring l1 t l2 w :
  dring (l1 ++ t :: l2) w →
  ∃ w', listRemove tSchedListHead t w = Some w' ∧
        dring (l1 ++ l2) w' ∧
        get_next t w' = get_next t w ∧ get_prev t w' = get_prev t w ∧
        (∀ a, get_tState a w' = get_tState a w) ∧
        (∀ a, get_context a w' = get_context a w) ∧
        (∀ a, is_Some (tasks w' !! a) ↔ is_Some (tasks w !! a)) ∧
        currTask w' = currTask w ∧ swaps w' = swaps w ∧
        mutexes w' = mutexes w ∧ frames w' = frames w.
Proof.
  intros Hd. pose proof Hd as (Hnd & Hn & Hp).
  set (p := List.last l1 tSchedListHead).
  (* the cycle is head, l1 (ending in p), t, n, m', with n :: m' ending
     in the head *)
  destruct (l2 ++ [tSchedListHead]) as [|n m'] eqn:Hm;
    [by destruct l2|].
  assert (removelast (n :: m') = l2) as Hsrc2.
  { rewrite <- Hm. apply removelast_last. }
  assert (NoDup (tSchedListHead :: l1) ∧ NoDup (n :: m') ∧
          (t ∉ tSchedListHead :: l1) ∧ (t ∉ n :: m') ∧
          (∀ x, x ∈ tSchedListHead :: l1 → x ∉ l2) ∧
          (∀ x, x ∈ l1 → x ∉ n :: m') ∧
          NoDup (tSchedListHead :: l1 ++ l2))
    as (Hnd1 & Hnd2 & Ht1 & Ht2 & Hdis1 & Hdis2 & Hnd').
  { rewrite <- Hm.
    apply list.NoDup_cons in Hnd as [Hh Hnd].
    apply list.NoDup_app in Hnd as (Hnd1 & Hdis & Hnd2).
    apply list.NoDup_cons in Hnd2 as [Ht2 Hnd2].
    rewrite not_elem_of_app, not_elem_of_cons in Hh.
    destruct Hh as (Hh1 & Hht & Hh2).
    assert (t ∉ l1) as Ht1 by (intros Hin; apply (Hdis t Hin); left).
    assert (∀ x, x ∈ l1 → x ∉ l2) as Hd12
      by (intros x Hx Hx2; apply (Hdis x Hx); by right).
    repeat split.
    - by apply list.NoDup_cons.
    - apply list.NoDup_app. repeat split; [done| |apply list.NoDup_singleton].
      intros x Hx Hxh. apply list_elem_of_singleton in Hxh as ->. done.
    - rewrite not_elem_of_cons. split; [congruence|done].
    - rewrite not_elem_of_app. split; [done|].
      intros Hin. apply list_elem_of_singleton in Hin. congruence.
    - intros x Hx. apply elem_of_cons in Hx as [->|Hx]; [done|by apply Hd12].
    - intros x Hx. rewrite not_elem_of_app. split; [by apply Hd12|].
      intros Hin. apply list_elem_of_singleton in Hin as ->. done.
    - apply list.NoDup_cons. split.
      + rewrite not_elem_of_app. done.
      + apply list.NoDup_app. by repeat split. }
  assert (p ∈ tSchedListHead :: l1) as Hpin by apply last_elem_of.
  assert (p ≠ t) as Hpt by (intros ->; done).
  assert (n ≠ t) as Hnt by (intros ->; apply Ht2; left).
  assert (tSchedListHead ≠ t) as Hht by (intros <-; apply Ht1; left).
  rewrite <- app_assoc in Hn, Hp. simpl in Hn, Hp. rewrite Hm in Hn, Hp.
  apply chain_app in Hn as [Hn1 [Ht_next Hn2]].
  apply chain_app in Hp as [Hp1 [Hn_prev Hp2]].
  apply chain_snoc_iff in Hn1 as [Hn1 Hp_next].
  apply chain_snoc_iff in Hp1 as [Hp1 Ht_prev].
  fold p in Hp_next, Ht_prev.
  assert (n ∈ tSchedListHead :: l1 ++ t :: l2) as Hn_in.
  { assert (n ∈ l2 ++ [tSchedListHead]) as Hx by (rewrite Hm; left).
    apply elem_of_app in Hx as [Hx|Hx].
    - right. apply elem_of_app. right. by right.
    - apply list_elem_of_singleton in Hx as ->. left. }
  assert (p ∈ tSchedListHead :: l1 ++ t :: l2) as Hp_in.
  { apply elem_of_cons in Hpin as [->|Hx]; [left|].
    right. apply elem_of_app. by left. }
  destruct (listRemove_links tSchedListHead t n p w Hht Ht_next Ht_prev)
    as (w' & Hw' & Hnext & Hprev & Hst & Hctx & Hdom & Hrest);
    [by apply (dring_allocated _ _ _ Hd)..|].
  exists w'. split; [done|].
  split; [|split; [|split; [|done]]].
  - split; [done|]. unfold path. rewrite <- app_assoc, Hm. split.
    + apply chain_app. split.
      * apply chain_snoc_iff. split.
        -- eapply chain_impl_sources; [|exact Hn1].
           intros a b Ha. simpl. rewrite Hnext.
           rewrite decide_False; [done|].
           unfold p.
           rewrite <- (last_cons_default tSchedListHead tSchedListHead l1).
           by apply removelast_not_last.
        -- simpl. fold p. rewrite Hnext. by rewrite decide_True.
      * eapply chain_impl_sources; [|exact Hn2].
        rewrite Hsrc2. intros a b Ha. simpl. rewrite Hnext.
        rewrite decide_False; [done|].
        intros ->. by apply (Hdis1 p).
    + apply chain_app. split.
      * apply chain_snoc_iff. split.
        -- eapply chain_impl; [|exact Hp1].
           intros a b Hb. simpl. rewrite Hprev.
           rewrite decide_False; [done|].
           intros ->. apply (Hdis2 n Hb). left.
        -- simpl. fold p. rewrite Hprev. by rewrite decide_True.
      * eapply chain_impl; [|exact Hp2].
        intros a b Hb. simpl. rewrite Hprev.
        rewrite decide_False; [done|].
        intros ->. apply list.NoDup_cons in Hnd2 as [Hx _]. done.
  - rewrite Hnext. by rewrite decide_False.
  - rewrite Hprev. by rewrite decide_False.
Qed.

(** ** What [getNextTask] can return *)

Lemma listGetNext_loop_not_head fuel head w :
  ∀ n b, listGetNext_loop fuel head n w = Some b → b ≠ head.
Proof.
  induction fuel as [|fuel IH]; intros n b; simpl.
  - destruct (decide (n = head)); [done|]. by intros [= <-].
  - destruct (decide (n = head)); [|by intros [= <-]].
    intros H. apply bind_Some in H as (n' & _ & H). by eapply IH.
Qed.

Lemma getNextTask_loop_sound lfuel w :
  ∀ fuel a y,
  getNextTask_loop lfuel fuel a w = Some y →
  y ≠ tSchedListHead ∧ is_runnable w y = true.
Proof.
  induction fuel as [|fuel IH]; intros a y; simpl; [done|].
  intros H. apply bind_Some in H as (b & Hb & H).
  apply bind_Some in H as (s & Hs & H).
  destruct (runnable s) eqn:Hr.
  - injection H as <-. split.
    + unfold listGetNext in Hb. apply bind_Some in Hb as (n & _ & Hb).
      by eapply listGetNext_loop_not_head.
    + unfold is_runnable. by rewrite Hs.
  - by eapply IH.
Qed.

Lemma getNextTask_sound_aux fuel w y :
  getNextTask fuel w = Some y →
  y ≠ tSchedListHead ∧ is_runnable w y = true.
Proof. apply getNextTask_loop_sound. Qed.

Lemma chain_step_in (R : addr → addr → Prop) :
  ∀ xs a x,
  chain R a xs → x ∈ removelast (a :: xs) → ∃ y, R x y ∧ y ∈ xs.
Proof.
  induction xs as [|b xs IH]; intros a x Hc Hx.
  - by apply elem_of_nil in Hx.
  - destruct Hc as [H1 H2].
    change (removelast (a :: b :: xs)) with (a :: removelast (b :: xs)) in Hx.
    apply elem_of_cons in Hx as [->|Hx].
    + exists b. split; [done|left].
    + destruct (IH b x H2 Hx) as (y & Hy & Hin). exists y. split; [done|].
      by right.
Qed.

Lemma ring_next_in l w a :
  ring l w → a ∈ tSchedListHead :: l →
  ∃ b, get_next a w = Some b ∧ b ∈ tSchedListHead :: l.
Proof.
  intros (_ & Hp & _) Ha.
  destruct (chain_step_in _ _ _ a Hp) as (b & Hb & Hin).
  { rewrite app_comm_cons. by rewrite removelast_last. }
  exists b. split; [done|].
  apply elem_of_app in Hin as [Hin|Hin]; [by right|].
  apply list_elem_of_singleton in Hin as ->. left.
Qed.

Lemma listGetNext_loop_in_ring l w fuel :
  ring l w →
  ∀ n b, n ∈ tSchedListHead :: l →
         listGetNext_loop fuel tSchedListHead n w = Some b → b ∈ l.
Proof.
  intros Hr. induction fuel as [|fuel IH]; intros n b Hn; simpl.
  - destruct (decide (n = tSchedListHead)); [done|]. intros [= <-].
    by apply elem_of_cons in Hn as [?|?].
  - destruct (decide (n = tSchedListHead)) as [->|Hne].
    + intros H. apply bind_Some in H as (n' & Hn' & H).
      destruct (ring_next_in l w tSchedListHead Hr Hn) as (b' & Hb' & Hin).
      assert (n' = b') as -> by congruence. by eapply IH.
    + intros [= <-]. by apply elem_of_cons in Hn as [?|?].
Qed.

Lemma listGetNext_in_ring l w fuel a b :
  ring l w → a ∈ tSchedListHead :: l →
  listGetNext fuel tSchedListHead a w = Some b → b ∈ l.
Proof.
  intros Hr Ha H. unfold listGetNext in H.
  apply bind_Some in H as (n & Hn & H).
  destruct (ring_next_in l w a Hr Ha) as (n' & Hn' & Hin).
  assert (n = n') as -> by congruence.
  by eapply listGetNext_loop_in_ring.
Qed.

Lemma getNextTask_loop_in_ring l w lfuel :
  ring l w →
  ∀ fuel a y, a ∈ tSchedListHead :: l →
              getNextTask_loop lfuel fuel a w = Some y → y ∈ l.
Proof.
  intros Hr. induction fuel as [|fuel IH]; intros a y Ha; simpl; [done|].
  intros H. apply bind_Some in H as (b & Hb & H).
  apply bind_Some in H as (s & Hs & H).
  pose proof (listGetNext_in_ring _ _ _ _ _ Hr Ha Hb) as Hbl.
  destruct (runnable s).
  - by injection H as <-.
  - eapply IH; [|exact H]. by right.
Qed.

Lemma getNextTask_in_ring l w fuel y :
  ring l w → currTask w = NULL ∨ currTask w ∈ l →
  getNextTask fuel w = Some y → y ∈ l.
Proof.
  intros Hr Hc. unfold getNextTask.
  apply getNextTask_loop_in_ring; [done|].
  destruct (decide (currTask w = NULL)); [left|].
  right. by destruct Hc.
Qed.

Lemma getNextTask_none_runnable l w fuel :
  ring l w → currTask w = NULL ∨ currTask w ∈ l →
  (∀ x, x ∈ l → is_runnable w x = false) →
  getNextTask fuel w = None.
Proof.
  intros Hr Hc Hno.
  destruct (getNextTask fuel w) as [y|] eqn:H; [|done].
  pose proof (getNextTask_in_ring _ _ _ _ Hr Hc H) as Hy.
  apply getNextTask_sound_aux in H as [_ Hrun].
  rewrite (Hno y Hy) in Hrun. done.
Qed.

(** ** Round robin *)

Lemma scan_order_elem_back l c V x : scan_order l c V → x ∈ V → x ∈ l.
Proof.
  intros [|l1 c' l2 _ ->]; [done|].
  rewrite !elem_of_app, !elem_of_cons, elem_of_nil. tauto.
Qed.

Lemma switchTasks_current fuel w old w' :
  switchTasks fuel w = Some (old, w') →
  getNextTask fuel w = Some (currTask w').
Proof.
  unfold switchTasks. intros H.
  apply bind_Some in H as (nxt & Hn & H).
  apply bind_Some in H as (w2 & H2 & H).
  apply bind_Some in H as (w3 & H3 & H). injection H as _ <-.
  destruct (set_tState_frame _ _ _ _ H2) as (_ & _ & Hc2 & _).
  destruct (set_tState_frame _ _ _ _ H3) as (_ & _ & Hc3 & _).
  rewrite Hn, Hc3, Hc2. done.
Qed.

(** [switchTasks] makes current the first runnable task in scan order. *)
Lemma switchTasks_scan fuel l w V :
  ring l w → currTask w ∈ l → scan_order l (currTask w) V →
  (∃ x, x ∈ l ∧ is_runnable w x = true) → length l ≤ fuel →
  ∃ w' pre post,
    switchTasks fuel w = Some (currTask w, w') ∧
    V = pre ++ currTask w' :: post ∧
    Forall (λ x, is_runnable w x = false) pre ∧
    is_runnable w (currTask w') = true ∧
    ring l w' ∧
    (∀ a, get_tState a w' =
          if decide (a = currTask w') then Some RUNNING
          else if decide (a = currTask w) then Some READY
          else get_tState a w) ∧
    swaps w' = swaps w.
Proof.
  intros Hr Hc Hs Hrun Hf.
  destruct (switchTasks_ring fuel l w Hr Hc Hrun Hf)
    as (w' & Hw' & _ & Hr' & Hst & _ & Hsw & _).
  destruct (getNextTask_scan_first fuel l w V Hr Hs Hrun Hf)
    as (pre & y & post & HV & Hpre & Hy & _ & Hget).
  pose proof (switchTasks_current _ _ _ _ Hw') as Hcur.
  assert (y = currTask w') as -> by congruence.
  by exists w', pre, post.
Qed.

Lemma rotation_head (l : list addr) i c :
  l !! i = Some c →
  (drop (S i) l ++ take i l ++ [c]) !! 0 = l !! (S i mod length l).
Proof.
  intros Hi. pose proof (lookup_lt_Some _ _ _ Hi) as Hlt.
  destruct (decide (S i < length l)) as [Hs|Hs].
  - rewrite Nat.mod_small by done.
    rewrite lookup_app_l by (rewrite length_drop; lia).
    rewrite lookup_drop. by rewrite Nat.add_0_r.
  - assert (S i = length l) as Heq by lia.
    rewrite drop_ge by lia. simpl.
    rewrite <- (take_S_r _ _ _ Hi).
    rewrite Heq, Nat.Div0.mod_same. by rewrite firstn_all.
Qed.

(** With every task runnable, [switchTasks] moves the current position one
    place forward on the list, wrapping at the end. *)
Lemma switchTasks_next fuel l w i :
  ring l w → NULL ∉ l →
  Forall (λ x, is_runnable w x = true) l →
  l !! i = Some (currTask w) → length l ≤ fuel →
  ∃ w', switchTasks fuel w = Some (currTask w, w') ∧
        l !! (S i mod length l) = Some (currTask w') ∧
        ring l w' ∧
        Forall (λ x, is_runnable w' x = true) l ∧
        swaps w' = swaps w.
Proof.
  intros Hr Hnull Hall Hi Hf.
  assert (currTask w ∈ l) as Hc by (by eapply list_elem_of_lookup_2).
  assert (scan_order l (currTask w)
            (drop (S i) l ++ take i l ++ [currTask w])) as Hs.
  { apply scan_from_task; [by intros Heq; rewrite Heq in Hc|].
    symmetry. by apply take_drop_middle. }
  destruct (switchTasks_scan fuel l w _ Hr Hc Hs)
    as (w' & pre & post & Hw' & HV & Hpre & Hy & Hr' & Hst & Hsw); [|done|].
  { exists (currTask w). split; [done|].
    by apply (proj1 (list.Forall_forall _ _) Hall). }
  exists w'. split; [done|]. split; [|split; [done|split; [|done]]].
  - rewrite <- (rotation_head _ _ _ Hi). rewrite HV.
    destruct pre as [|x pre]; [done|].
    inversion Hpre as [|? ? Hx _]; subst.
    assert (x ∈ l) as Hxl.
    { eapply (scan_order_elem_back l); [exact Hs|].
      rewrite HV. left. }
    rewrite (proj1 (list.Forall_forall _ _) Hall x Hxl) in Hx. done.
  - apply list.Forall_forall. intros x Hx. unfold is_runnable.
    rewrite Hst. destruct (decide (x = currTask w')); [done|].
    destruct (decide (x = currTask w)); [done|].
    by apply (proj1 (list.Forall_forall _ _) Hall).
Qed.

Lemma schedule_n_round_robin_aux fuel l :
  NULL ∉ l →
  ∀ k w i,
  ring l w →
  Forall (λ x, is_runnable w x = true) l →
  l !! i = Some (currTask w) → length l ≤ fuel →
  ∃ w', schedule_n fuel k w = Some w' ∧
        l !! ((i + k) mod length l) = Some (currTask w') ∧
        ring l w' ∧
        Forall (λ x, is_runnable w' x = true) l ∧
        length (swaps w') = length (swaps w) + k.
Proof.
  intros Hnull. induction k as [|k IH]; intros w i Hr Hall Hi Hf.
  - exists w. simpl. rewrite !Nat.add_0_r.
    rewrite Nat.mod_small by (by eapply lookup_lt_Some). done.
  - destruct (switchTasks_next fuel l w i Hr Hnull Hall Hi Hf)
      as (w1 & H1 & Hi1 & Hr1 & Hall1 & Hsw1).
    set (w2 := swapcontext (TaskCtx (currTask w)) (TaskCtx (currTask w1)) w1).
    assert (schedule fuel w = Some w2) as H2.
    { unfold schedule. rewrite H1. done. }
    destruct (IH w2 (S i mod length l)) as (w' & Hw' & Hi' & Hr' & Hall' & Hsw');
      try done.
    exists w'. simpl. rewrite H2. simpl. split; [done|].
    split; [|split; [done|split; [done|]]].
    + rewrite Nat.Div0.add_mod_idemp_l in Hi'.
      by replace (i + S k) with (S i + k) by lia.
    + rewrite Hsw'. unfold w2, swapcontext. simpl.
      rewrite length_app, Hsw1. simpl. lia.
Qed.

(** ** At most one RUNNING task *)

Lemma nnr_refl w : no_new_running w w.
Proof. by split. Qed.

Lemma nnr_trans w1 w2 w3 :
  no_new_running w1 w2 → no_new_running w2 w3 → no_new_running w1 w3.
Proof.
  intros [H1 H2] [H3 H4]. split; [congruence|].
  intros a Ha. by apply H2, H4.
Qed.

Lemma nnr_tasks w w' :
  tasks w' = tasks w → currTask w' = currTask w → no_new_running w w'.
Proof. intros H Hc. split; [done|]. intros a. unfold get_tState. by rewrite H. Qed.

Lemma nnr_same_sched w w' : same_sched w w' → no_new_running w w'.
Proof. intros (H & Hc & _). by apply nnr_tasks. Qed.

Lemma nnr_set_tState a s w w' :
  s ≠ RUNNING → set_tState a s w = Some w' → no_new_running w w'.
Proof.
  intros Hs H. destruct (set_tState_frame _ _ _ _ H) as (_ & _ & Hc & _).
  split; [done|]. intros t. rewrite (get_tState_set_tState _ _ _ _ t H).
  destruct (decide (t = a)); [congruence|done].
Qed.

Lemma nnr_set_next a v w w' : set_next a v w = Some w' → no_new_running w w'.
Proof.
  intros H. destruct (set_next_frame _ _ _ _ H) as (Hc & _).
  split; [done|]. intros t. by rewrite (get_tState_set_next _ _ _ _ t H).
Qed.

Lemma nnr_set_prev a v w w' : set_prev a v w = Some w' → no_new_running w w'.
Proof.
  intros H. destruct (set_prev_frame _ _ _ _ H) as (Hc & _).
  split; [done|]. intros t. by rewrite (get_tState_set_prev _ _ _ _ t H).
Qed.

Lemma nnr_upd_context a f w w' :
  upd_context a f w = Some w' → no_new_running w w'.
Proof.
  intros H. destruct (upd_context_frame _ _ _ _ H) as (_ & Hc & _).
  split; [done|]. intros t. by rewrite (get_tState_upd_context _ _ _ _ t H).
Qed.

Lemma nnr_try_context a f w w' :
  try_context a f w = Some w' → no_new_running w w'.
Proof.
  intros H. apply try_context_upd in H as (c & c' & _ & _ & H).
  by eapply nnr_upd_context.
Qed.

Lemma nnr_calloc_task a w : no_new_running w (calloc_task a w).
Proof.
  unfold calloc_task. destruct (decide (a = NULL)); [apply nnr_refl|].
  split; [done|]. intros t. unfold get_tState. simpl.
  destruct (decide (a = t)) as [->|].
  - rewrite lookup_insert_eq. simpl. discriminate.
  - by rewrite lookup_insert_ne.
Qed.

Create HintDb nnr.

#[local] Hint Resolve nnr_refl nnr_set_next nnr_set_prev nnr_upd_context
  nnr_try_context nnr_calloc_task : nnr.

#[local] Hint Extern 1 (no_new_running _ _) =>
  (eapply nnr_set_tState; [|eassumption]; discriminate) : nnr.

#[local] Hint Extern 2 (no_new_running _ _) =>
  (apply nnr_tasks; reflexivity) : nnr.

#[local] Hint Extern 3 (no_new_running _ _) =>
  (apply nnr_same_sched; eauto with sched) : nnr.

Ltac chain_nnr :=
  repeat match goal with
         | |- no_new_running ?w ?w => apply nnr_refl
         | H : _ = Some ?w' |- no_new_running ?w ?w'' =>
             lazymatch type of H with
             | context [w] =>
                 apply (nnr_trans w w' w''); [by eauto with nnr|clear H]
             end
         end;
  try by eauto with nnr.

Lemma ocr_nnr w w' :
  only_current_running w → no_new_running w w' → only_current_running w'.
Proof. intros Ho [Hc Hr] a Ha. rewrite Hc. by apply Ho, Hr. Qed.

Lemma ocr_switchTasks fuel w old w' :
  switchTasks fuel w = Some (old, w') →
  only_current_running w → only_current_running w'.
Proof.
  unfold switchTasks. intros H Ho.
  apply bind_Some in H as (nxt & Hn & H).
  apply bind_Some in H as (w2 & H2 & H).
  apply bind_Some in H as (w3 & H3 & H). injection H as _ <-.
  destruct (set_tState_frame _ _ _ _ H2) as (_ & _ & Hc2 & _).
  destruct (set_tState_frame _ _ _ _ H3) as (_ & _ & Hc3 & _).
  simpl in Hc2. intros a Ha.
  rewrite (get_tState_set_tState _ _ _ _ a H3) in Ha.
  rewrite Hc3. destruct (decide (a = currTask w2)) as [|Hne]; [done|].
  rewrite (get_tState_set_tState _ _ _ _ a H2) in Ha.
  destruct (decide (a = currTask w)) as [|Hne']; [done|].
  destruct Hne'. by apply Ho.
Qed.

Lemma ocr_schedule fuel w w' :
  schedule fuel w = Some w' →
  only_current_running w → only_current_running w'.
Proof.
  unfold schedule. intros H Ho. apply bind_Some in H as ([old w1] & H1 & H).
  injection H as <-. intros a Ha.
  exact (ocr_switchTasks _ _ _ _ H1 Ho a Ha).
Qed.

Lemma ocr_cleanUpFunc fuel w w' :
  cleanUpFunc fuel w = Some w' →
  only_current_running w → only_current_running w'.
Proof.
  intros H Ho a Ha.
  apply cleanUpFunc_zombie in H as [Hz Hother].
  destruct (decide (a = currTask w)) as [->|Hne]; [congruence|].
  rewrite (Hother a Hne) in Ha. destruct Hne. by apply Ho.
Qed.

Lemma nnr_listAdd head node w w' :
  listAdd head node w = Some w' → no_new_running w w'.
Proof. unfold listAdd. intros H. inv_bind. chain_nnr. Qed.

Lemma ocr_initTask fuel stack t f argc args w w' :
  initTask fuel stack t f argc args w = Some w' →
  only_current_running w → only_current_running w'.
Proof.
  unfold initTask. intros H Ho.
  destruct (decide (t = NULL)); [by injection H as <-|].
  apply bind_Some in H as (s & Hs & H).
  destruct (decide (s ≠ ALLOC)); [by injection H as <-|].
  apply bind_Some in H as (w1 & H1 & H).
  apply bind_Some in H as (w2 & H2 & H).
  apply bind_Some in H as (w3 & H3 & H).
  apply bind_Some in H as (w4 & H4 & H).
  apply bind_Some in H as (w5 & H5 & H).
  apply bind_Some in H as (w6 & H6 & H).
  apply bind_Some in H as (w7 & H7 & H).
  eapply ocr_schedule; [exact H|].
  eapply ocr_nnr; [exact Ho|].
  apply nnr_listAdd in H7. clear H. chain_nnr.
Qed.

Lemma ocr_lock_wait_nil fuel m w w' :
  settled (lock_wait fuel [] m w) = Some w' →
  only_current_running w → only_current_running w'.
Proof.
  simpl. intros H Ho. repeat case_match; simplify_eq; simpl in *; simplify_eq.
  - eapply ocr_schedule; [eassumption|].
    eapply ocr_nnr; [exact Ho|].
    eapply nnr_trans; [eapply nnr_set_tState; [|eassumption]; discriminate|].
    by apply nnr_tasks.
  - done.
Qed.

Lemma nnr_lock_claim m w w' :
  settled (lock_claim m w) = Some w' → no_new_running w w'.
Proof.
  unfold lock_claim. intros H.
  repeat case_match; simplify_eq; simpl in *; simplify_eq.
  match goal with
  | H1 : set_value _ _ _ = Some _, H2 : set_lockedBy _ _ _ = Some _ |- _ =>
      apply set_value_same_sched in H1 as (? & ? & _);
      apply set_lockedBy_same_sched in H2 as (? & ? & _)
  end.
  apply nnr_tasks; simpl; congruence.
Qed.

Lemma nnr_lock_finish n m w w' :
  settled (lock_finish n m w) = Some w' → no_new_running w w'.
Proof.
  unfold lock_finish. intros H. case_match; [|done].
  eapply nnr_trans; [apply nnr_same_sched; by eapply lock_dequeue_same_sched|].
  eapply nnr_trans; [|by eapply nnr_lock_claim]. by apply nnr_tasks.
Qed.

Lemma ocr_lockMutex_nil fuel n m w w' :
  settled (lockMutex fuel [] n m w) = Some w' →
  only_current_running w → only_current_running w'.
Proof.
  unfold lockMutex. intros H Ho.
  destruct (get_value m (blockSched w)) as [v|]; [|done].
  destruct (decide (v ≠ 0%Z)).
  - destruct (lock_enqueue n m (enter_myNode n (blockSched w))) as [w1|] eqn:He;
      [|done].
    assert (only_current_running w1) as Ho1.
    { eapply ocr_nnr; [exact Ho|].
      eapply nnr_trans; [|apply nnr_same_sched; by eapply lock_enqueue_same_sched].
      by apply nnr_tasks. }
    destruct (lock_wait fuel [] m w1) as [w2|w2|] eqn:Hw; [| |done].
    + eapply ocr_nnr; [|by eapply nnr_lock_finish].
      apply (ocr_lock_wait_nil fuel m w1); [by rewrite Hw|done].
    + simpl in H. injection H as <-.
      apply (ocr_lock_wait_nil fuel m w1); [by rewrite Hw|done].
  - eapply ocr_nnr; [|by eapply nnr_lock_claim].
    eapply ocr_nnr; [exact Ho|]. by apply nnr_tasks.
Qed.

Lemma ocr_lock_resume_nil fuel n m w w' :
  settled (lock_resume fuel [] n m w) = Some w' →
  only_current_running w → only_current_running w'.
Proof.
  unfold lock_resume. intros H Ho.
  assert (only_current_running (blockSched w)) as Ho1.
  { eapply ocr_nnr; [exact Ho|]. by apply nnr_tasks. }
  destruct (lock_wait fuel [] m (blockSched w)) as [w2|w2|] eqn:Hw; [| |done].
  - eapply ocr_nnr; [|by eapply nnr_lock_finish].
    apply (ocr_lock_wait_nil fuel m (blockSched w)); [by rewrite Hw|done].
  - simpl in H. injection H as <-.
    apply (ocr_lock_wait_nil fuel m (blockSched w)); [by rewrite Hw|done].
Qed.

Lemma nnr_unlock_notify fuel m :
  ∀ p w w', unlock_notify fuel m p w = Some w' → no_new_running w w'.
Proof.
  induction fuel as [|fuel IH]; intros p w w' H; simpl in H.
  - destruct (decide (p ≠ LHead m)); [done|]. injection H as <-. apply nnr_refl.
  - destruct (decide (p ≠ LHead m)); [|injection H as <-; apply nnr_refl].
    inv_bind.
    eapply nnr_trans; [eapply nnr_set_tState; [|eassumption]; discriminate|].
    by eapply IH.
Qed.

Lemma nnr_unlockMutex fuel m w w' :
  unlockMutex fuel m w = Some w' → no_new_running w w'.
Proof.
  unfold unlockMutex. intros H. inv_bind; subst.
  - eapply nnr_trans; [by apply (nnr_tasks w (blockSched w))|].
    eapply nnr_trans; [apply nnr_same_sched; by eapply set_value_same_sched|].
    eapply nnr_trans; [by eapply nnr_unlock_notify|]. by apply nnr_tasks.
  - by apply nnr_tasks.
Qed.

Lemma nnr_createTask a w r w' :
  createTask a w = Some (r, w') → no_new_running w w'.
Proof.
  unfold createTask. intros H. inv_bind; subst.
  - eapply nnr_trans; [apply nnr_calloc_task|].
    eapply nnr_set_tState; [|eassumption]. discriminate.
  - apply nnr_calloc_task.
Qed.

Lemma exec_only_current_running_aux o w w' :
  exec o w = Some w' → only_current_running w → only_current_running w'.
Proof.
  intros H Ho. destruct o; simpl in H.
  - apply fmap_Some in H as ([r w1] & H & ->).
    eapply ocr_nnr; [exact Ho|]. by eapply nnr_createTask.
  - by eapply ocr_initTask.
  - by eapply ocr_schedule.
  - unfold sigHand in H. apply fmap_Some in H as ([r w1] & H & ->).
    by eapply ocr_switchTasks.
  - eapply ocr_nnr; [exact Ho|]. apply nnr_same_sched.
    by eapply initMyMutex_same_sched.
  - apply fmap_Some in H as ([r w1] & H & ->).
    eapply ocr_nnr; [exact Ho|]. apply nnr_same_sched.
    by eapply tryLockMutex_same_sched.
  - eapply ocr_nnr; [exact Ho|]. by eapply nnr_unlockMutex.
  - by eapply ocr_lockMutex_nil.
  - by eapply ocr_lock_resume_nil.
  - by eapply ocr_cleanUpFunc.
Qed.

(** ** Retiring a task *)

Lemma dring_ext l w w' :
  (∀ a, get_next a w' = get_next a w) →
  (∀ a, get_prev a w' = get_prev a w) →
  dring l w → dring l w'.
Proof.
  intros Hn Hp (Hnd & Hnext & Hprev). repeat split; [done| |].
  - eapply chain_impl; [|exact Hnext]. intros x y _. simpl. by rewrite Hn.
  - eapply chain_impl; [|exact Hprev]. intros x y _. simpl. by rewrite Hp.
Qed.

Lemma cleanUpFunc_retires_aux fuel l1 t l2 w :
  dring (l1 ++ t :: l2) w → currTask w = t →
  (∃ x, x ∈ l1 ++ l2 ∧ is_runnable w x = true) →
  length (l1 ++ l2) ≤ fuel →
  ∃ w' pre post,
    cleanUpFunc fuel w = Some w' ∧
    dring (l1 ++ l2) w' ∧
    get_tState t w' = Some ZOMBIE ∧
    (∀ a, a ≠ t → get_tState a w' = get_tState a w) ∧
    l1 ++ l2 = pre ++ currTask w' :: post ∧
    Forall (λ x, is_runnable w x = false) pre ∧
    is_runnable w (currTask w') = true ∧
    swaps w' = swaps w ++ [(CleanUpCtx, TaskCtx (currTask w'))].
Proof.
  intros Hd Hc (x & Hx & Hrun) Hf.
  assert (t ∉ l1 ++ l2) as Htl.
  { destruct Hd as (Hnd & _). apply list.NoDup_cons in Hnd as [_ Hnd].
    apply list.NoDup_app in Hnd as (_ & Hdis & Hnd2).
    apply list.NoDup_cons in Hnd2 as [Ht2 _].
    intros Hin. apply elem_of_app in Hin as [Hin|Hin]; [|done].
    apply (Hdis t Hin). left. }
  destruct (listRemove_dring l1 t l2 w Hd)
    as (w1 & H1 & Hd1 & _ & _ & Hst1 & _ & Hdom1 & Hc1 & Hsw1 & _).
  assert (is_Some (tasks w1 !! t)) as Hal.
  { apply Hdom1. apply (dring_allocated _ _ _ Hd). right.
    apply elem_of_app. right. left. }
  unfold cleanUpFunc. rewrite Hc. rewrite H1. simpl. rewrite Hc1, Hc.
  destruct (set_tState_is_Some t ZOMBIE w1 Hal) as [w2 H2].
  rewrite H2. simpl.
  destruct (set_tState_frame _ _ _ _ H2) as (_ & _ & Hc2 & Hsw2 & _).
  set (w3 := with_currTask NULL w2).
  assert (∀ a, get_tState a w3 =
               if decide (a = t) then Some ZOMBIE else get_tState a w) as Hst3.
  { intros a. change (get_tState a w3) with (get_tState a w2).
    rewrite (get_tState_set_tState _ _ _ _ a H2).
    destruct (decide (a = t)); [done|]. apply Hst1. }
  assert (∀ a, a ∈ l1 ++ l2 → is_runnable w3 a = is_runnable w a) as Hrun3.
  { intros a Ha. unfold is_runnable. rewrite Hst3.
    rewrite decide_False; [done|]. by intros ->. }
  assert (dring (l1 ++ l2) w3) as Hd3.
  { apply (dring_ext _ w1); [| |done].
    - intros a. change (get_next a w3) with (get_next a w2).
      apply (get_next_set_tState _ _ _ _ _ H2).
    - intros a. change (get_prev a w3) with (get_prev a w2).
      apply (get_prev_set_tState _ _ _ _ _ H2). }
  destruct (getNextTask_scan_first fuel (l1 ++ l2) w3 (l1 ++ l2))
    as (pre & y & post & HV & Hpre & Hy & _ & Hget); try done.
  { by apply dring_ring. }
  { change (currTask w3) with NULL. constructor. }
  { exists x. split; [done|]. by rewrite Hrun3. }
  rewrite Hget. simpl.
  eexists _, pre, post. split; [reflexivity|].
  unfold swapcontext. simpl.
  split; [|split; [|split; [|split; [done|split; [|split]]]]].
  - apply (dring_ext _ w3); [done|done|done].
  - change (get_tState t w3 = Some ZOMBIE). rewrite Hst3. by rewrite decide_True.
  - intros a Ha. change (get_tState a w3 = get_tState a w). rewrite Hst3.
    by rewrite decide_False.
  - apply list.Forall_forall. intros a Ha.
    rewrite <- Hrun3.
    + by apply (proj1 (list.Forall_forall _ _) Hpre).
    + rewrite HV. apply elem_of_app. by left.
  - rewrite <- Hrun3; [done|]. rewrite HV. apply elem_of_app. right. left.
  - by rewrite Hsw2, Hsw1.
Qed.

(** ** Start-up *)

Lemma taskLibInit_aux main stack w :
  is_Some (tasks w !! tSchedListHead) →
  main ≠ NULL → main ≠ tSchedListHead → stack ≠ NULL →
  ∃ w', taskLibInit main stack w = Some w' ∧
        dring [main] w' ∧
        currTask w' = main ∧ mainTask w' = main ∧
        get_tState main w' = Some ALLOC ∧
        cleanUpCtx w' =
          mkCtx stack 16384%Z (TaskCtx main) (Some (CleanUpFunc, 0%Z, [])) ∧
        swaps w' = swaps w ∧
        (∀ fuel, getNextTask fuel w' = None) ∧
        (∀ fuel, schedule fuel w' = None) ∧
        (∀ fuel, sigHand fuel w' = None).
Proof.
  intros Hh Hnull Hmh Hstack.
  destruct (listInit_dring w Hh) as (w1 & H1 & Hd1 & _ & Hdom1 & _ & Hsw1 & _).
  unfold taskLibInit. rewrite H1. simpl.
  set (w2 := with_currTask main (calloc_task main w1)).
  change (with_mainTask (currTask w2) w2) with (with_mainTask main w2).
  set (w3 := with_mainTask main w2).
  change (currTask w3) with main.
  assert (tasks w3 = <[main := mkTask zeroCtx ALLOC NULL NULL]> (tasks w1))
    as Ht3.
  { unfold w3, w2, calloc_task. by rewrite decide_False by done. }
  assert (is_Some (tasks w3 !! main)) as Hal3.
  { rewrite Ht3, lookup_insert_eq. by eexists. }
  destruct (upd_context_is_Some main getcontext w3 Hal3) as [w4 H4].
  rewrite H4. simpl.
  destruct (upd_context_frame _ _ _ _ H4) as (Hdom4 & Hc4 & Hsw4 & _).
  rewrite Hc4. change (currTask w3) with main.
  assert (∀ a, a ≠ main → get_next a w4 = get_next a w1) as Hn4.
  { intros a Ha. rewrite (get_next_upd_context _ _ _ _ _ H4).
    unfold get_next. rewrite Ht3. by rewrite lookup_insert_ne. }
  assert (∀ a, a ≠ main → get_prev a w4 = get_prev a w1) as Hp4.
  { intros a Ha. rewrite (get_prev_upd_context _ _ _ _ _ H4).
    unfold get_prev. rewrite Ht3. by rewrite lookup_insert_ne. }
  assert (get_tState main w4 = Some ALLOC) as Hs4.
  { rewrite (get_tState_upd_context _ _ _ _ _ H4).
    unfold get_tState. rewrite Ht3. by rewrite lookup_insert_eq. }
  assert (dring [] w4) as Hd4.
  { destruct Hd1 as (Hnd & [Hnx _] & [Hpr _]). repeat split; try done.
    - simpl. rewrite Hn4; [done|]. by intros <-.
    - simpl. rewrite Hp4; [done|]. by intros <-. }
  destruct (listAdd_dring [] main w4 Hd4)
    as (w5 & H5 & Hd5 & Hst5 & _ & _ & Hc5 & Hsw5 & _).
  { intros Hin. apply list_elem_of_singleton in Hin. done. }
  { by apply Hdom4. }
  rewrite H5. simpl.
  rewrite makecontext_Some by done. simpl.
  eexists. split; [reflexivity|]. simpl.
  assert (mainTask w5 = main) as Hm5.
  { clear -H4 H5. unfold listAdd, set_next, set_prev in H5. inv_bind. subst.
    unfold upd_context, set_context in H4. inv_bind. by subst. }
  rewrite Hm5.
  set (w6 := with_cleanUpCtx _ w5).
  assert (dring [main] w6) as Hd6 by (apply (dring_ext _ w5); done).
  assert (currTask w6 = main) as Hc6 by (simpl; by rewrite Hc5, Hc4).
  assert (swaps w3 = swaps w1) as Hsw3.
  { unfold w3, w2, calloc_task. by destruct (decide (main = NULL)). }
  assert (∀ fuel, getNextTask fuel w6 = None) as Hget.
  { intros fuel. apply (getNextTask_none_runnable [main]).
    - by apply dring_ring.
    - right. rewrite Hc6. left.
    - intros x Hx. apply list_elem_of_singleton in Hx as ->.
      unfold is_runnable.
      change (get_tState main w6) with (get_tState main w5).
      by rewrite Hst5, Hs4. }
  split; [exact Hd6|]. split; [exact Hc6|]. split; [reflexivity|].
  split; [change (get_tState main w5 = Some ALLOC); by rewrite Hst5|].
  split; [reflexivity|].
  split; [change (swaps w5 = swaps w); congruence|].
  split; [exact Hget|].
  assert (∀ fuel, switchTasks fuel w6 = None) as Hsw.
  { intros fuel. unfold switchTasks. by rewrite Hget. }
  split; intros fuel.
  - unfold schedule. by rewrite Hsw.
  - unfold sigHand. by rewrite Hsw.
Qed.

Lemma taskLibInit_calloc_failed stack w :
  tasks w !! NULL = None → taskLibInit NULL stack w = None.
Proof.
  intros Hn. unfold taskLibInit.
  destruct (listInit tSchedListHead w) as [w1|] eqn:H1; [|done]. simpl.
  unfold calloc_task. rewrite decide_True by done. simpl.
  unfold upd_context, get_context. simpl.
  assert (tasks w1 !! NULL = None) as ->; [|done].
  unfold listInit, set_next, set_prev in H1. inv_bind. subst. simpl.
  rewrite !lookup_insert_ne by done. done.
Qed.

(** ** Taking and releasing a mutex *)

Lemma lock_claim_returned m w w' :
  lock_claim m w = Returned w' →
  get_value m w' = Some 1%Z ∧
  get_lockedBy m w' = Some (currTask w') ∧
  sigalrm_blocked w' = false ∧
  tasks w' = tasks w ∧ frames w' = frames w ∧ swaps w' = swaps w ∧
  currTask w' = currTask w ∧
  (taskList <$> mutexes w' !! m) = (taskList <$> mutexes w !! m) ∧
  (∀ m', m' ≠ m → mutexes w' !! m' = mutexes w !! m').
Proof.
  unfold lock_claim, set_value, set_lockedBy, get_value, get_lockedBy.
  destruct (mutexes w !! m) as [mx|] eqn:Hm; simpl; [|done].
  rewrite lookup_insert_eq. simpl. intros [= <-]. simpl.
  rewrite lookup_insert_eq. simpl. repeat split; try done.
  intros m' Hne. by rewrite !lookup_insert_ne.
Qed.

Lemma lock_finish_returned n m w w' :
  lock_finish n m w = Returned w' →
  get_value m w' = Some 1%Z ∧
  get_lockedBy m w' = Some (currTask w') ∧
  sigalrm_blocked w' = false.
Proof.
  unfold lock_finish. destruct (lock_dequeue n w); [|done].
  intros H. apply lock_claim_returned in H. tauto.
Qed.

Lemma lockMutex_returned_aux fuel rounds n m w w' :
  lockMutex fuel rounds n m w = Returned w' →
  get_value m w' = Some 1%Z ∧
  get_lockedBy m w' = Some (currTask w') ∧
  sigalrm_blocked w' = false.
Proof.
  unfold lockMutex.
  destruct (get_value m (blockSched w)) as [v|]; [|done].
  destruct (decide (v ≠ 0%Z)).
  - destruct (lock_enqueue n m (enter_myNode n (blockSched w))); [|done].
    destruct (lock_wait fuel rounds m w0); [|done..].
    apply lock_finish_returned.
  - intros H. apply lock_claim_returned in H. tauto.
Qed.

Lemma lput_value p nd w w' m :
  lput p nd w = Some w' →
  get_value m w' = get_value m w ∧ get_lockedBy m w' = get_lockedBy m w.
Proof.
  unfold get_value, get_lockedBy.
  destruct p as [|m0|n0]; simpl; [done| |].
  - intros H. inv_bind. subst. simpl.
    destruct (decide (m0 = m)) as [->|].
    + rewrite lookup_insert_eq. simpl.
      match goal with Hl : mutexes w !! m = Some _ |- _ => by rewrite Hl end.
    + by rewrite lookup_insert_ne.
  - intros H. inv_bind. by subst.
Qed.

Lemma lock_enqueue_value n m w w' m' :
  lock_enqueue n m w = Some w' → get_value m' w' = get_value m' w.
Proof.
  unfold lock_enqueue, set_task, set_lnext, set_lprev. intros H. inv_bind.
  repeat match goal with
         | Hp : lput _ _ _ = Some _ |- _ =>
             apply (lput_value _ _ _ _ m') in Hp as [Hp _]
         end.
  congruence.
Qed.

Lemma schedule_mutexes fuel w w' :
  schedule fuel w = Some w' →
  mutexes w' = mutexes w ∧ frames w' = frames w.
Proof.
  unfold schedule, switchTasks. intros H.
  apply bind_Some in H as ([old w1] & H1 & H). injection H as <-.
  apply bind_Some in H1 as (nxt & _ & H1).
  apply bind_Some in H1 as (w2 & H2 & H1).
  apply bind_Some in H1 as (w3 & H3 & H1). injection H1 as _ <-.
  destruct (set_tState_frame _ _ _ _ H2) as (Hf2 & Hm2 & _).
  destruct (set_tState_frame _ _ _ _ H3) as (Hf3 & Hm3 & _).
  simpl in *. split; congruence.
Qed.

Lemma lock_wait_held fuel m :
  ∀ rounds w,
  held m w →
  Forall (λ r : world → option world,
            ∀ w1 w2, held m w1 → r w1 = Some w2 → held m w2) rounds →
  ∀ w', lock_wait fuel rounds m w ≠ Returned w'.
Proof.
  induction rounds as [|r rounds IH]; intros w (v & Hv & Hv0) Hr w'.
  - simpl. rewrite Hv. rewrite decide_True by done.
    destruct (set_tState (currTask w) BLOCKED w); [|done].
    by destruct (schedule fuel (unblockSched w0)).
  - simpl. rewrite Hv. rewrite decide_True by done.
    destruct (set_tState (currTask w) BLOCKED w) as [w1|] eqn:H1; [|done].
    destruct (schedule fuel (unblockSched w1)) as [w2|] eqn:H2; [|done].
    destruct (r w2) as [w3|] eqn:H3; [|done].
    inversion Hr as [|? ? Hr1 Hr2]; subst.
    apply IH; [|done].
    assert (held m w2) as Hh2.
    { exists v. split; [|done]. unfold get_value.
      destruct (schedule_mutexes _ _ _ H2) as [-> _]. simpl.
      destruct (set_tState_frame _ _ _ _ H1) as (_ & -> & _). done. }
    destruct (Hr1 w2 w3 Hh2 H3) as (v3 & Hv3 & Hv30).
    by exists v3.
Qed.

Lemma lockMutex_blocks_aux fuel rounds n m w :
  held m w →
  Forall (λ r : world → option world,
            ∀ w1 w2, held m w1 → r w1 = Some w2 → held m w2) rounds →
  ∀ w', lockMutex fuel rounds n m w ≠ Returned w'.
Proof.
  intros (v & Hv & Hv0) Hr w'. unfold lockMutex.
  change (get_value m (blockSched w)) with (get_value m w). rewrite Hv.
  rewrite decide_True by done.
  destruct (lock_enqueue n m (enter_myNode n (blockSched w))) as [w1|] eqn:He;
    [|done].
  assert (held m w1) as Hh1.
  { exists v. split; [|done]. by rewrite (lock_enqueue_value _ _ _ _ m He). }
  pose proof (lock_wait_held fuel m rounds w1 Hh1 Hr) as Hw.
  destruct (lock_wait fuel rounds m w1) as [w2|w2|] eqn:Hlw; [|done..].
  by destruct (Hw w2).
Qed.

Lemma lock_unlock_free_aux fuel fuel' rounds n m w :
  get_value m w = Some 0%Z → waiting m [] w →
  ∃ w1 w2,
    lockMutex fuel rounds n m w = Returned w1 ∧
    get_value m w1 = Some 1%Z ∧ get_lockedBy m w1 = Some (currTask w) ∧
    tasks w1 = tasks w ∧ frames w1 = frames w ∧ swaps w1 = swaps w ∧
    unlockMutex fuel' m w1 = Some w2 ∧
    get_value m w2 = Some 0%Z ∧ get_lockedBy m w2 = Some (currTask w) ∧
    waiting m [] w2 ∧
    tasks w2 = tasks w ∧ frames w2 = frames w ∧ swaps w2 = swaps w ∧
    currTask w2 = currTask w ∧
    (∀ m', m' ≠ m → mutexes w2 !! m' = mutexes w !! m').
Proof.
  intros Hv (mx & Hm & _ & Hp & Hl). simpl in Hp, Hl.
  unfold lockMutex.
  change (get_value m (blockSched w)) with (get_value m w). rewrite Hv.
  rewrite decide_False by (intros Hn; by apply Hn).
  unfold lock_claim, set_value, set_lockedBy. simpl. rewrite Hm. simpl.
  rewrite lookup_insert_eq. simpl.
  eexists _, _. split; [reflexivity|].
  unfold get_value, get_lockedBy. simpl. rewrite lookup_insert_eq. simpl.
  split; [done|]. split; [done|]. split; [done|]. split; [done|].
  split; [done|].
  unfold unlockMutex, get_value, get_lockedBy, set_value, get_lnext. simpl.
  rewrite lookup_insert_eq. simpl. rewrite decide_True by done.
  repeat (rewrite lookup_insert_eq; simpl).
  rewrite Hp.
  assert (∀ w0, unlock_notify fuel' m (LHead m) w0 = Some w0) as Hun.
  { intros w0. destruct fuel'; simpl;
      by rewrite decide_False by (intros Hn; by apply Hn). }
  rewrite Hun. simpl.
  split; [reflexivity|]. simpl. rewrite lookup_insert_eq. simpl.
  repeat split; try done.
  - exists (mkMutex 0%Z (currTask w) (taskList mx)). simpl.
    rewrite lookup_insert_eq. repeat split; try done. constructor.
  - intros m' Hne. by rewrite !lookup_insert_ne.
Qed.

(** ** Leaving the wait collection *)

Lemma lput_id p nd w : lget p w = Some nd → lput p nd w = Some w.
Proof.
  destruct p as [|m|n]; simpl; [done| |].
  - intros H. apply fmap_Some in H as (mx & Hm & ->). rewrite Hm. simpl.
    f_equal. destruct mx as [v o tl]. simpl. rewrite insert_id by done.
    by destruct w.
  - intros H. rewrite H. simpl. f_equal. rewrite insert_id by done.
    by destruct w.
Qed.

Lemma set_lnext_id p v w : get_lnext p w = Some v → set_lnext p v w = Some w.
Proof.
  unfold get_lnext, set_lnext. intros H.
  apply fmap_Some in H as (nd & Hnd & ->). rewrite Hnd. simpl.
  destruct nd. by apply lput_id.
Qed.

Lemma set_lprev_id p v w : get_lprev p w = Some v → set_lprev p v w = Some w.
Proof.
  unfold get_lprev, set_lprev. intros H.
  apply fmap_Some in H as (nd & Hnd & ->). rewrite Hnd. simpl.
  destruct nd. by apply lput_id.
Qed.

Lemma lget_lput p nd w w' : lput p nd w = Some w' → lget p w' = Some nd.
Proof.
  destruct p as [|m|n]; simpl; [done| |]; intros H; inv_bind; subst; simpl;
    by rewrite lookup_insert_eq.
Qed.

Lemma lget_lput_node_head n nd w w' m :
  lput (LNode n) nd w = Some w' → lget (LHead m) w' = lget (LHead m) w.
Proof. simpl. intros H. inv_bind. by subst. Qed.

(** Where the five assignments of "add to waiting queue" leave the three
    links that "remove from waiting queue" reads. *)
Lemma lock_enqueue_links n m w w' :
  lock_enqueue n m w = Some w' →
  get_lprev (LNode n) w' = Some (LNode n) ∧
  get_lnext (LNode n) w' = Some (LHead m) ∧
  get_lprev (LHead m) w' = Some (LNode n).
Proof.
  unfold lock_enqueue. intros H.
  apply bind_Some in H as (w1 & _ & H).
  apply bind_Some in H as (tl & _ & H).
  apply bind_Some in H as (w2 & _ & H).
  apply bind_Some in H as (w3 & H3 & H).
  apply bind_Some in H as (hp & Hhp & H).
  apply bind_Some in H as (w4 & H4 & H).
  unfold set_lprev in H3. apply bind_Some in H3 as (nd3 & _ & H3).
  pose proof (lget_lput _ _ _ _ H3) as Hg3.
  assert (hp = LNode n) as ->.
  { unfold get_lprev in Hhp. rewrite Hg3 in Hhp. simpl in Hhp. congruence. }
  unfold set_lprev in H4. apply bind_Some in H4 as (nd4 & _ & H4).
  pose proof (lget_lput _ _ _ _ H4) as Hg4.
  pose proof (lget_lput_node_head _ _ _ _ m H4) as Hh4.
  unfold set_lnext in H. apply bind_Some in H as (nd5 & Hnd5 & H).
  pose proof (lget_lput _ _ _ _ H) as Hg5.
  pose proof (lget_lput_node_head _ _ _ _ m H) as Hh5.
  unfold get_lprev, get_lnext. rewrite Hg5, Hh5, Hh4, Hg3. simpl.
  repeat split. rewrite Hg4 in Hnd5. by injection Hnd5 as <-.
Qed.

Lemma enqueue_dequeue_aux n m w w' :
  lock_enqueue n m w = Some w' → lock_dequeue n w' = Some w'.
Proof.
  intros H. apply lock_enqueue_links in H as (Hp & Hn & Hh).
  unfold lock_dequeue. rewrite Hp, Hn. simpl.
  rewrite (set_lnext_id _ _ _ Hn). simpl. rewrite Hn, Hp. simpl.
  by apply set_lprev_id.
Qed.

(** ** Saving and restoring registers *)

Lemma setCtx_copies_aux d s fd fs :
  length (gregs d) = 23 → length (gregs s) = 23 →
  fpregs d = Some fd → fpregs s = Some fs → length fd = length fs →
  setCtx d s =
  Some (mkRegs (take 18 (gregs s) ++ drop 18 (gregs d)) (Some fs)
               (r_ss_sp s) (r_ss_size s) (r_sigmask s) (r_flags s)
               (r_link s)).
Proof.
  intros Hd Hs Hfd Hfs Hlen. unfold setCtx, memcpy.
  rewrite decide_True by lia. simpl. rewrite Hfd, Hfs. simpl.
  rewrite decide_True by lia. simpl.
  rewrite firstn_all. rewrite <- Hlen, drop_all. by rewrite app_nil_r.
Qed.

Lemma take_18_setCtx (c t : list Z) :
  length c = 23 → take 18 (take 18 c ++ drop 18 t) = take 18 c.
Proof.
  intros Hc. rewrite take_app_le by (rewrite length_take; lia).
  rewrite take_take. f_equal.
Qed.

Lemma drop_18_setCtx (c t : list Z) :
  length c = 23 → drop 18 (take 18 c ++ drop 18 t) = drop 18 t.
Proof.
  intros Hc. rewrite drop_app_length'; [done|]. rewrite length_take. lia.
Qed.

(** * The properties, one by one *)

(** ** X1 to X4: the list primitives *)

Lemma listGetNext_loop_empty fuel w :
  get_next tSchedListHead w = Some tSchedListHead →
  listGetNext_loop fuel tSchedListHead tSchedListHead w = None.
Proof.
  intros Hn. induction fuel as [|fuel IH]; [done|].
  rewrite listGetNext_loop_skip, Hn. exact IH.
Qed.

(** X1.  [listInit] turns an allocated head into an empty ring (the head
    is its own successor and predecessor) and changes nothing else; on
    that empty ring [listGetNext] started at the head never comes back:
    it has no result for any fuel. *)
Theorem listInit_empty_ring w :
  is_Some (tasks w !! tSchedListHead) →
  ∃ w', listInit tSchedListHead w = Some w' ∧
        dring [] w' ∧
        (∀ a, get_tState a w' = get_tState a w) ∧
        currTask w' = currTask w ∧ swaps w' = swaps w ∧
        mutexes w' = mutexes w ∧ frames w' = frames w ∧
        ∀ fuel, listGetNext fuel tSchedListHead tSchedListHead w' = None.
Proof.
  intros Hh.
  destruct (listInit_dring w Hh) as (w' & H & Hd & Hst & _ & Hc & Hs & Hm & Hf).
  exists w'. split_and!; try done.
  intros fuel. destruct Hd as (_ & [Hn _] & _).
  unfold listGetNext. rewrite Hn. simpl. by apply listGetNext_loop_empty.
Qed.

(** X2.  [listAdd] on the head of a well-formed ring appends a node that
    is not yet on it at the tail, linking it in both directions, and
    leaves states, contexts and everything outside the task nodes
    untouched. *)
Theorem listAdd_appends l t w :
  dring l w → t ∉ tSchedListHead :: l → is_Some (tasks w !! t) →
  ∃ w', listAdd tSchedListHead t w = Some w' ∧
        dring (l ++ [t]) w' ∧
        (∀ a, get_tState a w' = get_tState a w) ∧
        (∀ a, get_context a w' = get_context a w) ∧
        currTask w' = currTask w ∧ swaps w' = swaps w ∧
        mutexes w' = mutexes w ∧ frames w' = frames w.
Proof.
  intros Hd Ht Hal.
  destruct (listAdd_dring l t w Hd Ht Hal)
    as (w' & H & Hd' & Hst & Hctx & _ & Hrest).
  by exists w'.
Qed.

(** X3.  [listRemove] on the head of a well-formed ring takes the given
    node out, in both directions; the removed node keeps its own [next]
    and [prev], and states and contexts are untouched. *)
Theorem listRemove_unlinks l1 t l2 w :
  dring (l1 ++ t :: l2) w →
  ∃ w', listRemove tSchedListHead t w = Some w' ∧
        dring (l1 ++ l2) w' ∧
        get_next t w' = get_next t w ∧ get_prev t w' = get_prev t w ∧
        (∀ a, get_tState a w' = get_tState a w) ∧
        (∀ a, get_context a w' = get_context a w) ∧
        currTask w' = currTask w ∧ swaps w' = swaps w.
Proof.
  intros Hd.
  destruct (listRemove_dring l1 t l2 w Hd)
    as (w' & H & Hd' & Hn & Hp & Hst & Hctx & _ & Hc & Hs & _).
  by exists w'.
Qed.

(** X4.  Removing a node straight after adding it restores every link of
    every other node: [listAdd] followed by [listRemove] gives back the
    ring one started from. *)
Theorem listAdd_listRemove l t w :
  dring l w → t ∉ tSchedListHead :: l → is_Some (tasks w !! t) →
  ∃ w1 w2, listAdd tSchedListHead t w = Some w1 ∧
           listRemove tSchedListHead t w1 = Some w2 ∧
           dring l w2 ∧
           (∀ a, a ≠ t → get_next a w2 = get_next a w ∧
                         get_prev a w2 = get_prev a w) ∧
           (∀ a, get_tState a w2 = get_tState a w).
Proof.
  intros Hd Ht Hal.
  pose proof Hd as (_ & Hpath & Hprevs).
  apply chain_snoc_iff in Hpath as [_ Hz_next].
  apply chain_snoc_iff in Hprevs as [_ Hh_prev].
  set (z := List.last l tSchedListHead) in *.
  assert (z ∈ tSchedListHead :: l) as Hz by apply last_elem_of.
  assert (z ≠ t) as Hzt by (intros ->; done).
  assert (tSchedListHead ≠ t) as Hht by (intros <-; apply Ht; left).
  destruct (listAdd_links tSchedListHead t z w Hh_prev)
    as (w1 & H1 & Hn1 & Hp1 & Hst1 & _ & Hdom1 & _); [|done|].
  { by apply (dring_allocated l w). }
  destruct (listAdd_dring l t w Hd Ht Hal) as (w1' & H1' & Hd1 & _).
  assert (w1' = w1) as -> by congruence.
  destruct (listRemove_dring l t [] w1) as (w2 & H2 & Hd2 & _);
    [done|].
  rewrite app_nil_r in Hd2.
  destruct (listRemove_links tSchedListHead t tSchedListHead z w1)
    as (w2' & H2' & Hn2 & Hp2 & Hst2 & _); try done.
  { rewrite Hn1. by rewrite decide_True. }
  { rewrite Hp1. rewrite decide_False by done. by rewrite decide_True. }
  { apply (dring_allocated _ _ _ Hd1). left. }
  { apply Hdom1. by apply (dring_allocated l w). }
  assert (w2' = w2) as -> by congruence.
  exists w1, w2. split; [done|]. split; [done|]. split; [done|]. split.
  - intros a Ha. rewrite Hn2, Hp2, Hn1, Hp1.
    rewrite !(decide_False (P := a = t)) by done. split.
    + destruct (decide (a = z)) as [->|]; done.
    + destruct (decide (a = tSchedListHead)) as [->|]; done.
  - intros a. by rewrite Hst2, Hst1.
Qed.

(** ** X5 to X8: selection *)

(** X5.  Whatever the state of the list, a task returned by
    [getNextTask] is never the sentinel head and is READY or RUNNING. *)
Theorem getNextTask_sound fuel w y :
  getNextTask fuel w = Some y →
  y ≠ tSchedListHead ∧
  (get_tState y w = Some READY ∨ get_tState y w = Some RUNNING).
Proof.
  intros H. apply getNextTask_sound_aux in H as [Hh Hr]. split; [done|].
  unfold is_runnable in Hr.
  destruct (get_tState y w) as [[]|]; try done; [by left|by right].
Qed.

(** X6.  On a well-formed ready list, with the current position on the
    list or [NULL], [getNextTask] only ever returns a task of the list: a
    task that was taken off the list is not selected again. *)
Theorem getNextTask_on_list fuel l w y :
  ring l w → currTask w = NULL ∨ currTask w ∈ l →
  getNextTask fuel w = Some y → y ∈ l.
Proof. apply getNextTask_in_ring. Qed.

(** X7.  When no task on the ready list is READY or RUNNING,
    [getNextTask] has no result however much fuel it is given (the C loop
    does not terminate), and neither have [switchTasks], [schedule] and
    the signal handler. *)
Theorem getNextTask_spins l w :
  ring l w → currTask w = NULL ∨ currTask w ∈ l →
  (∀ x, x ∈ l → is_runnable w x = false) →
  ∀ fuel, getNextTask fuel w = None ∧ switchTasks fuel w = None ∧
          schedule fuel w = None ∧ sigHand fuel w = None.
Proof.
  intros Hr Hc Hno fuel.
  pose proof (getNextTask_none_runnable l w fuel Hr Hc Hno) as Hg.
  assert (switchTasks fuel w = None) as Hs.
  { unfold switchTasks. by rewrite Hg. }
  split; [done|]. split; [done|]. split.
  - unfold schedule. by rewrite Hs.
  - unfold sigHand. by rewrite Hs.
Qed.

(** X8.  Round robin: when every task on the list is READY or RUNNING,
    [k] scheduling decisions in a row move the current position [k]
    places forward along the list, wrapping at its end; so [length l]
    decisions select every task once and come back to where they
    started.  Each decision makes one [swapcontext]. *)
Theorem schedule_n_round_robin fuel l k w i :
  ring l w → NULL ∉ l →
  Forall (λ x, is_runnable w x = true) l →
  l !! i = Some (currTask w) → length l ≤ fuel →
  ∃ w', schedule_n fuel k w = Some w' ∧
        l !! ((i + k) mod length l) = Some (currTask w') ∧
        ring l w' ∧
        Forall (λ x, is_runnable w' x = true) l ∧
        length (swaps w') = length (swaps w) + k.
Proof.
  intros Hr Hnull Hall Hi Hf. by apply schedule_n_round_robin_aux.
Qed.

(** ** X9: the RUNNING state *)


(** ** X10 to X12: the life cycle *)

(** X10.  [cleanUpFunc] run for the current task [t] of a well-formed
    list that holds another runnable task: [t] is taken off the list and
    made ZOMBIE, no other state changes, and the task made current is the
    first runnable one counted from the head.  That task is resumed by a
    [swapcontext] out of [cleanUpCtx]; it is not marked RUNNING. *)
Theorem cleanUpFunc_retires fuel l1 t l2 w :
  dring (l1 ++ t :: l2) w → currTask w = t →
  (∃ x, x ∈ l1 ++ l2 ∧ is_runnable w x = true) →
  length (l1 ++ l2) ≤ fuel →
  ∃ w' pre post,
    cleanUpFunc fuel w = Some w' ∧
    dring (l1 ++ l2) w' ∧
    get_tState t w' = Some ZOMBIE ∧
    (∀ a, a ≠ t → get_tState a w' = get_tState a w) ∧
    l1 ++ l2 = pre ++ currTask w' :: post ∧
    Forall (λ x, is_runnable w x = false) pre ∧
    is_runnable w (currTask w') = true ∧
    swaps w' = swaps w ++ [(CleanUpCtx, TaskCtx (currTask w'))].
Proof. apply cleanUpFunc_retires_aux. Qed.

(** X11.  [taskLibInit] with both allocations successful ([main] and
    [stack], what the two [calloc] calls returned, are not [NULL]): the
    ready list holds the main task alone, which is current and recorded
    as [mainTask]; [cleanUpCtx] gets its stack, the main context as
    successor and [cleanUpFunc] as routine.  The main task is left in
    state ALLOC (what [calloc] gave), so until a first [initTask] there
    is no runnable task: [getNextTask], [schedule] and the signal handler
    have no result for any fuel. *)
Theorem taskLibInit_main_alloc main stack w :
  is_Some (tasks w !! tSchedListHead) →
  main ≠ NULL → main ≠ tSchedListHead → stack ≠ NULL →
  ∃ w', taskLibInit main stack w = Some w' ∧
        dring [main] w' ∧
        currTask w' = main ∧ mainTask w' = main ∧
        get_tState main w' = Some ALLOC ∧
        cleanUpCtx w' =
          mkCtx stack 16384%Z (TaskCtx main) (Some (CleanUpFunc, 0%Z, [])) ∧
        swaps w' = swaps w ∧
        (∀ fuel, getNextTask fuel w' = None) ∧
        (∀ fuel, schedule fuel w' = None) ∧
        (∀ fuel, sigHand fuel w' = None).
Proof. apply taskLibInit_aux. Qed.

(** X12.  [taskLibInit] does not test what [calloc] returned for the main
    task: with [NULL] it goes on to [getcontext(&(currTask->context))]
    and has no defined result. *)
Theorem taskLibInit_null_main stack w :
  tasks w !! NULL = None → taskLibInit NULL stack w = None.
Proof. apply taskLibInit_calloc_failed. Qed.

(** ** X13 to X18: the mutex *)

(** X13.  Whenever [lockMutex] returns, after however many rounds of
    waiting, the mutex is held, its owner is the task that is current at
    that moment, and SIGALRM is unmasked. *)
Theorem lockMutex_returned fuel rounds n m w w' :
  lockMutex fuel rounds n m w = Returned w' →
  get_value m w' = Some 1%Z ∧
  get_lockedBy m w' = Some (currTask w') ∧
  sigalrm_blocked w' = false.
Proof. apply lockMutex_returned_aux. Qed.

(** X14.  [lockMutex] on a held mutex does not return as long as what
    runs in between keeps the mutex held: it is still suspended, or has
    no defined result, but has not returned. *)
Theorem lockMutex_blocks_while_held fuel rounds n m w :
  held m w →
  Forall (λ r : world → option world,
            ∀ w1 w2, held m w1 → r w1 = Some w2 → held m w2) rounds →
  ∀ w', lockMutex fuel rounds n m w ≠ Returned w'.
Proof. apply lockMutex_blocks_aux. Qed.

(** X15.  On a free mutex with an empty wait collection [lockMutex]
    returns at once, without queueing a record or switching; the
    [unlockMutex] that follows frees the mutex again.  After the pair
    every task node, queue record and other mutex is as before, and so is
    this mutex but for [lockedBy], which keeps naming the caller. *)
Theorem lock_unlock_free fuel fuel' rounds n m w :
  get_value m w = Some 0%Z → waiting m [] w →
  ∃ w1 w2,
    lockMutex fuel rounds n m w = Returned w1 ∧
    get_value m w1 = Some 1%Z ∧ get_lockedBy m w1 = Some (currTask w) ∧
    tasks w1 = tasks w ∧ frames w1 = frames w ∧ swaps w1 = swaps w ∧
    unlockMutex fuel' m w1 = Some w2 ∧
    get_value m w2 = Some 0%Z ∧ get_lockedBy m w2 = Some (currTask w) ∧
    waiting m [] w2 ∧
    tasks w2 = tasks w ∧ frames w2 = frames w ∧ swaps w2 = swaps w ∧
    currTask w2 = currTask w ∧
    (∀ m', m' ≠ m → mutexes w2 !! m' = mutexes w !! m').
Proof. apply lock_unlock_free_aux. Qed.


(** X17.  "Remove from waiting queue" undoes nothing of "add to waiting
    queue": the record's [prev] was set to the record itself, so the two
    assignments of the removal, run on the state the insertion left,
    change nothing, and the record is still in the wait collection. *)
Theorem lock_dequeue_keeps_record n m ns w :
  waiting m ns w → n ∉ ns →
  ∃ w', lock_enqueue n m (enter_myNode n w) = Some w' ∧
        get_lprev (LNode n) w' = Some (LNode n) ∧
        lock_dequeue n w' = Some w' ∧
        waiting m (ns ++ [n]) w'.
Proof.
  intros Hw Hn.
  destruct (lock_enqueue_waiting n m ns w Hw Hn) as (w' & H & Hw' & _).
  exists w'. split; [done|]. split.
  - by apply lock_enqueue_links in H as (Hp & _).
  - split; [by eapply enqueue_dequeue_aux|done].
Qed.


(** ** X19: the signal handler's copies *)

(** X19.  [setCtx] copies the first 18 general registers, the
    floating-point state, the stack, the signal mask, the flags and the
    link, and leaves registers 18 to 22 of the destination alone.  So a
    context saved with [setCtx] and later restored with [setCtx] into any
    frame brings back all of these but registers 18 to 22, which stay
    those of the frame; restored into the frame it was saved from, it
    gives that frame back unchanged. *)
Theorem setCtx_save_restore task cur frame ft fc ff :
  length (gregs task) = 23 → length (gregs cur) = 23 →
  length (gregs frame) = 23 →
  fpregs task = Some ft → fpregs cur = Some fc → fpregs frame = Some ff →
  length ft = length fc → length ff = length fc →
  ∃ saved restored,
    setCtx task cur = Some saved ∧
    drop 18 (gregs saved) = drop 18 (gregs task) ∧
    setCtx frame saved = Some restored ∧
    take 18 (gregs restored) = take 18 (gregs cur) ∧
    drop 18 (gregs restored) = drop 18 (gregs frame) ∧
    fpregs restored = fpregs cur ∧
    r_ss_sp restored = r_ss_sp cur ∧ r_ss_size restored = r_ss_size cur ∧
    r_sigmask restored = r_sigmask cur ∧ r_flags restored = r_flags cur ∧
    r_link restored = r_link cur ∧
    setCtx cur saved = Some cur.
Proof.
  intros Ht Hc Hf Hft Hfc Hff Hl1 Hl2.
  rewrite (setCtx_copies_aux task cur ft fc) by done.
  eexists _, _. split; [reflexivity|]. simpl.
  split; [by apply drop_18_setCtx|].
  assert (length (take 18 (gregs cur) ++ drop 18 (gregs task)) = 23) as Hs.
  { rewrite length_app, length_take, length_drop. lia. }
  rewrite (setCtx_copies_aux frame _ ff fc) by done.
  split; [reflexivity|]. simpl.
  rewrite (take_18_setCtx _ _ Hc).
  split; [by apply take_18_setCtx|].
  split; [by apply drop_18_setCtx|].
  split; [done|]. do 5 (split; [done|]).
  rewrite (setCtx_copies_aux cur _ fc fc) by done. simpl.
  rewrite (take_18_setCtx _ _ Hc). rewrite take_drop.
  destruct cur. simpl in *. by subst.
Qed.

(** ** X20 to X22: blocking and waking *)

Lemma waiting_ext m ns w w' :
  mutexes w' = mutexes w → frames w' = frames w →
  waiting m ns w → waiting m ns w'.
Proof.
  intros Hm Hf (mx & H1 & H2 & H3 & H4). exists mx. rewrite Hm, Hf. done.
Qed.

(** X20.  On a held mutex whose wait collection consists of live
    records, linked from the head back to the head and each naming an
    existing task, [unlockMutex] by the task that [lockedBy] names clears
    [value], makes the recorded tasks READY and changes the state of no
    other task, makes no [swapcontext] and keeps the current task:
    releasing never gives up the processor.  The records stay linked.
    The wait collection has this form until a [lockMutex] that had to
    wait returns; from then on a record that no longer exists is linked
    into it. *)
Theorem unlockMutex_touches_only_waiters fuel m w v ns :
  get_value m w = Some v → v ≠ 0%Z →
  get_lockedBy m w = Some (currTask w) →
  waiting m ns w →
  Forall (λ t, is_Some (tasks w !! t)) (wtasks (frames w) ns) →
  length ns ≤ fuel →
  ∃ w', unlockMutex fuel m w = Some w' ∧
        get_value m w' = Some 0%Z ∧
        (∀ t, get_tState t w' =
              if decide (t ∈ wtasks (frames w) ns) then Some READY
              else get_tState t w) ∧
        currTask w' = currTask w ∧ swaps w' = swaps w ∧
        waiting m ns w' ∧
        sigalrm_blocked w' = false.
Proof.
  intros Hv Hv0 Ho Hw Hal Hf.
  pose proof Hw as (mx & Hm & Hnd & Hp & Hl).
  unfold unlockMutex.
  change (get_value m (blockSched w)) with (get_value m w).
  change (get_lockedBy m (blockSched w)) with (get_lockedBy m w).
  rewrite Hv, Ho. simpl. rewrite decide_True by done.
  unfold set_value. simpl. rewrite Hm. simpl.
  unfold get_lnext. simpl. rewrite lookup_insert_eq. simpl.
  match goal with
  | |- context [unlock_notify fuel m _ ?w1] =>
      destruct (unlock_notify_wakes m ns fuel (lnext (taskList mx)) w1)
        as (w' & Hw' & Hfr & Hmu & Hcu & Hsw & _ & Hst); try done
  end.
  rewrite Hw'. simpl. eexists. split; [reflexivity|].
  simpl in Hfr, Hmu, Hcu, Hsw, Hst.
  split.
  { unfold get_value. simpl. rewrite Hmu. simpl.
    by rewrite lookup_insert_eq. }
  split; [exact Hst|]. split; [exact Hcu|]. split; [exact Hsw|].
  split; [|reflexivity].
  exists (mkMutex 0%Z (lockedBy mx) (taskList mx)). simpl.
  rewrite Hmu, lookup_insert_eq, Hfr. done.
Qed.

(** X21.  A [lockMutex] on a held mutex whose wait collection consists
    of live records, linked from the head back to the head, with another
    runnable task on the ready list: the call queues the caller's record
    at the tail of the wait collection, leaves held flag and owner alone,
    and switches away with exactly one [swapcontext] to another task,
    which is RUNNING.  The caller itself is left READY by that switch,
    not BLOCKED.  The wait collection has this form until a [lockMutex]
    that had to wait returns; from then on a record that no longer exists
    is linked into it. *)
Theorem lockMutex_suspends fuel n m ns l w :
  held m w → waiting m ns w → n ∉ ns →
  ring l w → currTask w ∈ l →
  (∃ x, x ∈ l ∧ x ≠ currTask w ∧ is_runnable w x = true) →
  length l ≤ fuel →
  ∃ w', lockMutex fuel [] n m w = Suspended w' ∧
        waiting m (ns ++ [n]) w' ∧
        wtasks (frames w') (ns ++ [n]) = wtasks (frames w) ns ++ [currTask w] ∧
        get_value m w' = get_value m w ∧
        get_lockedBy m w' = get_lockedBy m w ∧
        currTask w' ∈ l ∧ currTask w' ≠ currTask w ∧
        get_tState (currTask w') w' = Some RUNNING ∧
        get_tState (currTask w) w' = Some READY ∧
        swaps w' = swaps w ++ [(TaskCtx (currTask w), TaskCtx (currTask w'))].
Proof.
  intros (v & Hv & Hv0) Hw Hn Hr Hc (x & Hx & Hxc & Hxr) Hf.
  assert (waiting m ns (blockSched w)) as Hw0 by (by apply (waiting_ext m ns w)).
  destruct (lock_enqueue_waiting n m ns (blockSched w) Hw0 Hn)
    as (w1 & H1 & Hw1 & Hwt1 & (Ht1 & Hc1 & Hs1) & Hv1 & Ho1).
  simpl in Ht1, Hc1, Hs1.
  unfold lockMutex.
  change (get_value m (blockSched w)) with (get_value m w). rewrite Hv.
  rewrite decide_True by done. rewrite H1.
  cbn [lock_wait]. rewrite Hv1.
  change (get_value m (blockSched w)) with (get_value m w). rewrite Hv.
  rewrite decide_True by done.
  assert (is_Some (tasks w1 !! currTask w1)) as Hal.
  { rewrite Ht1, Hc1. apply (ring_allocated l w); [done|by right]. }
  destruct (set_tState_is_Some _ BLOCKED _ Hal) as [w2 H2]. rewrite H2.
  destruct (set_tState_frame _ _ _ _ H2) as (Hf2 & Hm2 & Hc2 & Hs2 & _ & _).
  set (w2' := unblockSched w2).
  assert (∀ a, get_tState a w2' =
               if decide (a = currTask w) then Some BLOCKED
               else get_tState a w) as Hst2.
  { intros a. change (get_tState a w2') with (get_tState a w2).
    rewrite (get_tState_set_tState _ _ _ _ a H2). rewrite Hc1.
    destruct (decide (a = currTask w)); [done|].
    unfold get_tState. by rewrite Ht1. }
  assert (ring l w2') as Hr2.
  { apply (ring_ext l w); [| |done].
    - intros a. change (get_next a w2') with (get_next a w2).
      rewrite (get_next_set_tState _ _ _ _ _ H2). unfold get_next.
      by rewrite Ht1.
    - change (get_prev tSchedListHead w2') with (get_prev tSchedListHead w2).
      rewrite (get_prev_set_tState _ _ _ _ _ H2). unfold get_prev.
      by rewrite Ht1. }
  assert (currTask w2' = currTask w) as Hc2' by (simpl; congruence).
  destruct (scan_order_exists l (currTask w2')) as (V & HV & _);
    [by rewrite Hc2'|].
  destruct (switchTasks_scan fuel l w2' V Hr2)
    as (w3 & pre & post & H3 & _ & _ & Hy & _ & Hst3 & Hsw3); try done.
  { by rewrite Hc2'. }
  { exists x. split; [done|]. unfold is_runnable. rewrite Hst2.
    by rewrite decide_False. }
  destruct (switchTasks_ring fuel l w2' Hr2)
    as (w3' & H3' & Hin3 & _ & _ & _ & _ & Hm3 & Hf3); try done.
  { by rewrite Hc2'. }
  { exists x. split; [done|]. unfold is_runnable. rewrite Hst2.
    by rewrite decide_False. }
  assert (w3' = w3) as -> by congruence.
  assert (currTask w3 ≠ currTask w) as Hne.
  { intros Heq. unfold is_runnable in Hy. rewrite Hst2, Heq in Hy.
    by rewrite decide_True in Hy. }
  unfold schedule. fold w2'. rewrite H3. simpl.
  eexists. split; [reflexivity|]. unfold swapcontext. simpl.
  simpl in Hm3, Hf3.
  split; [|split; [|split; [|split; [|split; [|split; [|split; [|split]]]]]]].
  - apply (waiting_ext _ _ w1); [simpl; congruence|simpl; congruence|done].
  - rewrite Hf3, Hf2. exact Hwt1.
  - transitivity (get_value m w1); [|rewrite Hv1; exact Hv].
    unfold get_value. simpl. by rewrite Hm3, Hm2.
  - transitivity (get_lockedBy m w1); [|exact Ho1].
    unfold get_lockedBy. simpl. by rewrite Hm3, Hm2.
  - exact Hin3.
  - exact Hne.
  - change (get_tState (currTask w3) w3 = Some RUNNING). rewrite Hst3.
    by rewrite decide_True.
  - change (get_tState (currTask w) w3 = Some READY). rewrite Hst3.
    rewrite decide_False by done. rewrite Hc2'. by rewrite decide_True.
  - rewrite Hsw3. change (swaps w2') with (swaps w2).
    rewrite Hs2, Hs1, Hc2, Hc1. done.
Qed.

(** X22.  A [lockMutex] on a held mutex by the only runnable task never
    gets anywhere: once the caller has marked itself BLOCKED there is
    nothing for [getNextTask] to find, and the call has no outcome for
    any fuel. *)
Theorem lockMutex_alone_spins fuel rounds n m ns l w :
  held m w → waiting m ns w → n ∉ ns →
  ring l w → currTask w ∈ l →
  (∀ x, x ∈ l → x ≠ currTask w → is_runnable w x = false) →
  lockMutex fuel rounds n m w = Fault.
Proof.
  intros (v & Hv & Hv0) Hw Hn Hr Hc Hno.
  assert (waiting m ns (blockSched w)) as Hw0 by (by apply (waiting_ext m ns w)).
  destruct (lock_enqueue_waiting n m ns (blockSched w) Hw0 Hn)
    as (w1 & H1 & Hw1 & Hwt1 & (Ht1 & Hc1 & Hs1) & Hv1 & Ho1).
  simpl in Ht1, Hc1, Hs1.
  unfold lockMutex.
  change (get_value m (blockSched w)) with (get_value m w). rewrite Hv.
  rewrite decide_True by done. rewrite H1.
  assert (lock_wait fuel rounds m w1 = Fault) as ->; [|done].
  assert (get_value m w1 = Some v) as Hv1' by (by rewrite Hv1).
  assert (is_Some (tasks w1 !! currTask w1)) as Hal.
  { rewrite Ht1, Hc1. apply (ring_allocated l w); [done|by right]. }
  destruct (set_tState_is_Some _ BLOCKED _ Hal) as [w2 H2].
  destruct (set_tState_frame _ _ _ _ H2) as (Hf2 & Hm2 & Hc2 & Hs2 & _ & _).
  assert (schedule fuel (unblockSched w2) = None) as Hsch.
  { unfold schedule, switchTasks.
    rewrite (getNextTask_none_runnable l (unblockSched w2) fuel); [done| | |].
    - apply (ring_ext l w); [| |done].
      + intros a. change (get_next a (unblockSched w2)) with (get_next a w2).
        rewrite (get_next_set_tState _ _ _ _ _ H2). unfold get_next.
        by rewrite Ht1.
      + change (get_prev tSchedListHead (unblockSched w2))
          with (get_prev tSchedListHead w2).
        rewrite (get_prev_set_tState _ _ _ _ _ H2). unfold get_prev.
        by rewrite Ht1.
    - right. simpl. by rewrite Hc2, Hc1.
    - intros x Hx. unfold is_runnable.
      change (get_tState x (unblockSched w2)) with (get_tState x w2).
      rewrite (get_tState_set_tState _ _ _ _ x H2). rewrite Hc1.
      destruct (decide (x = currTask w)) as [|Hne]; [done|].
      specialize (Hno x Hx Hne). unfold is_runnable, get_tState in *.
      by rewrite Ht1. }
  destruct rounds; simpl; rewrite Hv1'; rewrite decide_True by done;
    rewrite H2; by rewrite Hsch.
Qed.

(** ** X23 and X24: the stack that [calloc] did not give *)

(** X23.  [initTask] does not test what [calloc] returned for the stack:
    on a handle in state ALLOC, with [NULL] for the stack, it goes on to
    [makecontext] and has no defined result. *)
Theorem initTask_null_stack fuel t f argc args w :
  t ≠ NULL → get_tState t w = Some ALLOC →
  initTask fuel NULL t f argc args w = None.
Proof.
  intros Hn Hs. unfold initTask. rewrite decide_False by done.
  rewrite Hs. simpl.
  destruct (upd_context t getcontext w) as [w1|] eqn:H1; simpl; [|done].
  destruct (upd_context t (set_ss_sp NULL) w1) as [w2|] eqn:H2; simpl;
    [|done].
  destruct (upd_context t (set_ss_size (16384 * 1)) w2) as [w3|] eqn:H3;
    simpl; [|done].
  destruct (upd_context t (set_uc_link CleanUpCtx) w3) as [w4|] eqn:H4;
    simpl; [|done].
  destruct (upd_context_frame _ _ _ _ H1) as (_ & _ & _ & Hx1).
  destruct (upd_context_frame _ _ _ _ H2) as (_ & _ & _ & Hx2).
  destruct (upd_context_frame _ _ _ _ H3) as (_ & _ & _ & Hx3).
  destruct (upd_context_frame _ _ _ _ H4) as (_ & _ & _ & Hx4).
  assert (try_context t (makecontext f argc args) w4 = None) as ->; [|done].
  unfold try_context. rewrite Hx4, Hx3, Hx2, Hx1.
  by destruct (get_context t w) as [c|].
Qed.

(** X24.  Nor does [taskLibInit] test what [calloc] returned for the
    stack of [cleanUpCtx]: with [NULL] it has no defined result, whatever
    the state it starts from. *)
Theorem taskLibInit_null_stack main w : taskLibInit main NULL w = None.
Proof.
  unfold taskLibInit.
  destruct (listInit tSchedListHead w) as [w1|]; simpl; [|done].
  match goal with
  | |- context [upd_context ?a ?g ?x] =>
      destruct (upd_context a g x) as [w4|]; simpl; [|done]
  end.
  match goal with
  | |- context [listAdd ?a ?b ?x] =>
      destruct (listAdd a b x) as [w5|]; simpl; [|done]
  end.
  done.
Qed.

(** ** The properties at work on concrete runs *)

Ltac concrete_dring :=
  split; [apply (bool_decide_unpack _); vm_compute; reflexivity|];
  split; repeat split; vm_compute; reflexivity.

Ltac concrete_ring :=
  split; [apply (bool_decide_unpack _); vm_compute; reflexivity|];
  split; [|vm_compute; reflexivity];
  repeat split; vm_compute; reflexivity.

Ltac concrete_notin := apply (bool_decide_unpack _); vm_compute; reflexivity.

Lemma listInit_empty_ring_witness :
  is_Some (tasks boot !! tSchedListHead) ∧
  ∃ w', listInit tSchedListHead boot = Some w' ∧
        dring [] w' ∧
        (∀ a, get_tState a w' = get_tState a boot) ∧
        currTask w' = currTask boot ∧ swaps w' = swaps boot ∧
        mutexes w' = mutexes boot ∧ frames w' = frames boot ∧
        ∀ fuel, listGetNext fuel tSchedListHead tSchedListHead w' = None.
Proof.
  assert (is_Some (tasks boot !! tSchedListHead)) as H
    by (vm_compute; eexists; reflexivity).
  split; [exact H|]. exact (listInit_empty_ring boot H).
Defined.

Lemma listAdd_appends_witness :
  dring [2; 3] two_and_new ∧ (4 ∉ tSchedListHead :: [2; 3]) ∧
  is_Some (tasks two_and_new !! 4) ∧
  ∃ w', listAdd tSchedListHead 4 two_and_new = Some w' ∧
        dring [2; 3; 4] w'.
Proof.
  assert (dring [2; 3] two_and_new) as Hd by concrete_dring.
  assert (4 ∉ tSchedListHead :: [2; 3]) as Hn by concrete_notin.
  assert (is_Some (tasks two_and_new !! 4)) as Ha
    by (vm_compute; eexists; reflexivity).
  split; [exact Hd|]. split; [exact Hn|]. split; [exact Ha|].
  destruct (listAdd_appends [2; 3] 4 two_and_new Hd Hn Ha) as (w' & H & Hd' & _).
  exists w'. split; [exact H|exact Hd'].
Defined.

Lemma listRemove_unlinks_witness :
  dring ([2] ++ 3 :: [4]) three_w ∧
  ∃ w', listRemove tSchedListHead 3 three_w = Some w' ∧
        dring [2; 4] w' ∧
        get_next 3 w' = Some 4 ∧ get_prev 3 w' = Some 2.
Proof.
  assert (dring ([2] ++ 3 :: [4]) three_w) as Hd by concrete_dring.
  split; [exact Hd|].
  destruct (listRemove_unlinks [2] 3 [4] three_w Hd)
    as (w' & H & Hd' & Hn & Hp & _).
  exists w'. split; [exact H|]. split; [exact Hd'|].
  rewrite Hn, Hp. split; vm_compute; reflexivity.
Defined.

Lemma listAdd_listRemove_witness :
  dring [2; 3] two_and_new ∧ (4 ∉ tSchedListHead :: [2; 3]) ∧
  is_Some (tasks two_and_new !! 4) ∧
  ∃ w1 w2, listAdd tSchedListHead 4 two_and_new = Some w1 ∧
           listRemove tSchedListHead 4 w1 = Some w2 ∧
           dring [2; 3] w2.
Proof.
  assert (dring [2; 3] two_and_new) as Hd by concrete_dring.
  assert (4 ∉ tSchedListHead :: [2; 3]) as Hn by concrete_notin.
  assert (is_Some (tasks two_and_new !! 4)) as Ha
    by (vm_compute; eexists; reflexivity).
  split; [exact Hd|]. split; [exact Hn|]. split; [exact Ha|].
  destruct (listAdd_listRemove [2; 3] 4 two_and_new Hd Hn Ha)
    as (w1 & w2 & H1 & H2 & Hd' & _).
  exists w1, w2. split; [exact H1|]. split; [exact H2|exact Hd'].
Defined.

Lemma getNextTask_sound_witness :
  getNextTask 3 three_w = Some 2 ∧
  2 ≠ tSchedListHead ∧
  (get_tState 2 three_w = Some READY ∨ get_tState 2 three_w = Some RUNNING).
Proof.
  assert (getNextTask 3 three_w = Some 2) as H by (vm_compute; reflexivity).
  split; [exact H|]. exact (getNextTask_sound 3 three_w 2 H).
Defined.

Lemma getNextTask_on_list_witness :
  ring [2; 3; 4] three_w ∧ currTask three_w ∈ [2; 3; 4] ∧
  getNextTask 3 three_w = Some 2 ∧ 2 ∈ [2; 3; 4].
Proof.
  assert (ring [2; 3; 4] three_w) as Hr by concrete_ring.
  assert (currTask three_w ∈ [2; 3; 4]) as Hc
    by (change (currTask three_w) with 4; right; right; left).
  assert (getNextTask 3 three_w = Some 2) as H by (vm_compute; reflexivity).
  split; [exact Hr|]. split; [exact Hc|]. split; [exact H|].
  exact (getNextTask_on_list 3 [2; 3; 4] three_w 2 Hr (or_intror Hc) H).
Defined.

Lemma getNextTask_spins_witness :
  ring [2] main_only ∧ currTask main_only ∈ [2] ∧
  get_tState 2 main_only = Some ALLOC ∧
  ∀ fuel, getNextTask fuel main_only = None ∧
          switchTasks fuel main_only = None ∧
          schedule fuel main_only = None ∧ sigHand fuel main_only = None.
Proof.
  assert (ring [2] main_only) as Hr by concrete_ring.
  assert (currTask main_only ∈ [2]) as Hc
    by (change (currTask main_only) with 2; left).
  split; [exact Hr|]. split; [exact Hc|].
  split; [vm_compute; reflexivity|].
  apply (getNextTask_spins [2] main_only Hr (or_intror Hc)).
  intros x Hx. apply list_elem_of_singleton in Hx. rewrite Hx.
  vm_compute. reflexivity.
Defined.

Lemma schedule_n_round_robin_witness :
  ring [2; 3; 4] three_w ∧ (NULL ∉ [2; 3; 4]) ∧
  [2; 3; 4] !! 2 = Some (currTask three_w) ∧
  ∃ w', schedule_n 3 4 three_w = Some w' ∧
        [2; 3; 4] !! ((2 + 4) mod 3) = Some (currTask w') ∧
        ring [2; 3; 4] w' ∧
        Forall (λ x, is_runnable w' x = true) [2; 3; 4] ∧
        length (swaps w') = length (swaps three_w) + 4.
Proof.
  assert (ring [2; 3; 4] three_w) as Hr by concrete_ring.
  assert (NULL ∉ [2; 3; 4]) as Hn by concrete_notin.
  assert ([2; 3; 4] !! 2 = Some (currTask three_w)) as Hi
    by (vm_compute; reflexivity).
  split; [exact Hr|]. split; [exact Hn|]. split; [exact Hi|].
  apply (schedule_n_round_robin 3 [2; 3; 4] 4 three_w 2 Hr Hn); [|exact Hi|].
  - repeat (apply List.Forall_cons; [vm_compute; reflexivity|]).
    apply List.Forall_nil.
  - apply le_n.
Defined.

Lemma only_current_running_three : only_current_running three_w.
Proof.
  assert (map_Forall (λ a n, tState n = RUNNING → a = 4) (tasks three_w)) as H.
  { apply (bool_decide_unpack _). vm_compute. reflexivity. }
  intros a Ha. unfold get_tState in Ha.
  apply fmap_Some in Ha as (n & Hn & Hs).
  change (currTask three_w) with 4. by apply (H a n Hn).
Qed.


Lemma cleanUpFunc_retires_witness :
  dring ([2; 3] ++ 4 :: []) three_w ∧ currTask three_w = 4 ∧
  ∃ w', cleanUpFunc 2 three_w = Some w' ∧
        dring [2; 3] w' ∧
        get_tState 4 w' = Some ZOMBIE ∧
        currTask w' = 2 ∧ get_tState 2 w' = Some READY ∧
        swaps w' = swaps three_w ++ [(CleanUpCtx, TaskCtx 2)].
Proof.
  assert (dring ([2; 3] ++ 4 :: []) three_w) as Hd by concrete_dring.
  assert (currTask three_w = 4) as Hc by reflexivity.
  split; [exact Hd|]. split; [exact Hc|].
  destruct (cleanUpFunc_retires 2 [2; 3] 4 [] three_w Hd Hc)
    as (w' & pre & post & H & Hd' & Hz & Hst & HV & Hpre & Hy & Hsw).
  { exists 2. split; [left|vm_compute; reflexivity]. }
  { apply le_n. }
  assert (currTask w' = 2) as Hc'.
  { destruct pre as [|x pre]; [by injection HV as <-|].
    injection HV as <- HV. inversion Hpre as [|? ? Hx _]; subst.
    vm_compute in Hx. discriminate. }
  exists w'. split; [exact H|]. split; [exact Hd'|]. split; [exact Hz|].
  split; [exact Hc'|]. split.
  - rewrite (Hst 2) by discriminate. vm_compute. reflexivity.
  - rewrite Hsw, Hc'. reflexivity.
Defined.

Lemma taskLibInit_main_alloc_witness :
  is_Some (tasks boot !! tSchedListHead) ∧ 2 ≠ NULL ∧ 2 ≠ tSchedListHead ∧
  100 ≠ NULL ∧
  ∃ w', taskLibInit 2 100 boot = Some w' ∧
        dring [2] w' ∧
        currTask w' = 2 ∧ mainTask w' = 2 ∧
        get_tState 2 w' = Some ALLOC ∧
        cleanUpCtx w' =
          mkCtx 100 16384%Z (TaskCtx 2) (Some (CleanUpFunc, 0%Z, [])) ∧
        swaps w' = swaps boot ∧
        (∀ fuel, getNextTask fuel w' = None) ∧
        (∀ fuel, schedule fuel w' = None) ∧
        (∀ fuel, sigHand fuel w' = None).
Proof.
  assert (is_Some (tasks boot !! tSchedListHead)) as H
    by (vm_compute; eexists; reflexivity).
  assert (2 ≠ NULL) as H0 by discriminate.
  assert (2 ≠ tSchedListHead) as H1 by discriminate.
  assert (100 ≠ NULL) as H2 by discriminate.
  split; [exact H|]. split; [exact H0|]. split; [exact H1|].
  split; [exact H2|].
  exact (taskLibInit_main_alloc 2 100 boot H H0 H1 H2).
Defined.

Lemma taskLibInit_null_main_witness :
  tasks boot !! NULL = None ∧ taskLibInit NULL 100 boot = None.
Proof.
  assert (tasks boot !! NULL = None) as H by (vm_compute; reflexivity).
  split; [exact H|]. exact (taskLibInit_null_main 100 boot H).
Defined.

Lemma lockMutex_returned_witness :
  lockMutex 4 [] 30 10 mutex_w = Returned locked_w ∧
  get_value 10 locked_w = Some 1%Z ∧
  get_lockedBy 10 locked_w = Some (currTask locked_w) ∧
  sigalrm_blocked locked_w = false.
Proof.
  assert (lockMutex 4 [] 30 10 mutex_w = Returned locked_w) as H
    by (vm_compute; reflexivity).
  split; [exact H|]. exact (lockMutex_returned 4 [] 30 10 mutex_w locked_w H).
Defined.

Lemma lockMutex_blocks_while_held_witness :
  held 10 locked_w ∧
  ∀ w', lockMutex 4 [schedule 4; schedule 4] 30 10 locked_w ≠ Returned w'.
Proof.
  assert (held 10 locked_w) as H.
  { exists 1%Z. split; [vm_compute; reflexivity|discriminate]. }
  split; [exact H|].
  apply (lockMutex_blocks_while_held 4 [schedule 4; schedule 4] 30 10
           locked_w H).
  repeat (apply List.Forall_cons;
          [intros w1 w2 (v & Hv & Hv0) Hs; exists v; split; [|exact Hv0];
           unfold get_value;
           destruct (schedule_mutexes _ _ _ Hs) as [-> _]; exact Hv|]).
  apply List.Forall_nil.
Defined.

Lemma lock_unlock_free_witness :
  get_value 10 mutex_w = Some 0%Z ∧ waiting 10 [] mutex_w ∧
  ∃ w1 w2,
    lockMutex 4 [] 30 10 mutex_w = Returned w1 ∧
    unlockMutex 0 10 w1 = Some w2 ∧
    get_value 10 w2 = Some 0%Z ∧ get_lockedBy 10 w2 = Some 3 ∧
    tasks w2 = tasks mutex_w ∧ frames w2 = frames mutex_w ∧
    swaps w2 = swaps mutex_w.
Proof.
  assert (get_value 10 mutex_w = Some 0%Z) as Hv by (vm_compute; reflexivity).
  assert (waiting 10 [] mutex_w) as Hw.
  { exists (mkMutex 0%Z NULL (mkNode NULL (LHead 10) (LHead 10))).
    split; [vm_compute; reflexivity|].
    split; [constructor|]. split; reflexivity. }
  split; [exact Hv|]. split; [exact Hw|].
  destruct (lock_unlock_free 4 0 [] 30 10 mutex_w Hv Hw)
    as (w1 & w2 & H1 & _ & _ & _ & _ & _ & H2 & Hv2 & Ho2 & _ & Ht & Hf & Hs & _).
  exists w1, w2. split; [exact H1|]. split; [exact H2|]. split; [exact Hv2|].
  split; [exact Ho2|]. split; [exact Ht|]. split; [exact Hf|exact Hs].
Defined.

Lemma waiting_contended_w : waiting 10 [40; 30] contended_w.
Proof.
  exists (mkMutex 1%Z 2 (mkNode NULL (LNode 40) (LNode 30))).
  split; [vm_compute; reflexivity|].
  split; [apply (bool_decide_unpack _); vm_compute; reflexivity|].
  split; [|reflexivity].
  split; [reflexivity|].
  exists (mkNode 4 (LNode 30) (LNode 40)).
  split; [vm_compute; reflexivity|].
  split; [reflexivity|].
  exists (mkNode 3 (LHead 10) (LNode 30)).
  split; [vm_compute; reflexivity|reflexivity].
Qed.

Lemma waiting_locked_w : waiting 10 [] locked_w.
Proof.
  exists (mkMutex 1%Z 3 (mkNode NULL (LHead 10) (LHead 10))).
  split; [vm_compute; reflexivity|].
  split; [constructor|]. split; reflexivity.
Qed.


Lemma lock_dequeue_keeps_record_witness :
  waiting 10 [] locked_w ∧ (30 ∉ @nil nat) ∧
  ∃ w', lock_enqueue 30 10 (enter_myNode 30 locked_w) = Some w' ∧
        get_lprev (LNode 30) w' = Some (LNode 30) ∧
        lock_dequeue 30 w' = Some w' ∧
        waiting 10 [30] w'.
Proof.
  pose proof waiting_locked_w as Hw.
  assert (30 ∉ @nil nat) as Hn by apply not_elem_of_nil.
  split; [exact Hw|]. split; [exact Hn|].
  exact (lock_dequeue_keeps_record 30 10 [] locked_w Hw Hn).
Defined.


Lemma setCtx_save_restore_witness :
  ∃ saved restored,
    setCtx (regs_of 100 CleanUpCtx) (regs_of 200 NoCtx) = Some saved ∧
    drop 18 (gregs saved) = drop 18 (gregs (regs_of 100 CleanUpCtx)) ∧
    setCtx (regs_of 300 NoCtx) saved = Some restored ∧
    take 18 (gregs restored) = take 18 (gregs (regs_of 200 NoCtx)) ∧
    drop 18 (gregs restored) = drop 18 (gregs (regs_of 300 NoCtx)) ∧
    fpregs restored = fpregs (regs_of 200 NoCtx) ∧
    r_ss_sp restored = r_ss_sp (regs_of 200 NoCtx) ∧
    r_ss_size restored = r_ss_size (regs_of 200 NoCtx) ∧
    r_sigmask restored = r_sigmask (regs_of 200 NoCtx) ∧
    r_flags restored = r_flags (regs_of 200 NoCtx) ∧
    r_link restored = r_link (regs_of 200 NoCtx) ∧
    setCtx (regs_of 200 NoCtx) saved = Some (regs_of 200 NoCtx).
Proof.
  apply (setCtx_save_restore (regs_of 100 CleanUpCtx) (regs_of 200 NoCtx)
           (regs_of 300 NoCtx) [100; 100; 100; 100]%Z [200; 200; 200; 200]%Z
           [300; 300; 300; 300]%Z); reflexivity.
Defined.

Lemma waiting_contended_blocked : waiting 10 [40; 30] contended_blocked.
Proof.
  apply (waiting_ext 10 [40; 30] contended_w);
    [vm_compute; reflexivity|vm_compute; reflexivity|].
  exact waiting_contended_w.
Qed.

Lemma unlockMutex_touches_only_waiters_witness :
  get_value 10 contended_blocked = Some 1%Z ∧
  get_lockedBy 10 contended_blocked = Some (currTask contended_blocked) ∧
  waiting 10 [40; 30] contended_blocked ∧
  wtasks (frames contended_blocked) [40; 30] = [4; 3] ∧
  get_tState 4 contended_blocked = Some BLOCKED ∧
  get_tState 3 contended_blocked = Some BLOCKED ∧
  ∃ w', unlockMutex 2 10 contended_blocked = Some w' ∧
        get_value 10 w' = Some 0%Z ∧
        (∀ t, get_tState t w' =
              if decide (t ∈ wtasks (frames contended_blocked) [40; 30])
              then Some READY else get_tState t contended_blocked) ∧
        currTask w' = currTask contended_blocked ∧
        swaps w' = swaps contended_blocked ∧
        waiting 10 [40; 30] w' ∧
        sigalrm_blocked w' = false.
Proof.
  pose proof waiting_contended_blocked as Hw.
  assert (get_value 10 contended_blocked = Some 1%Z) as Hv
    by (vm_compute; reflexivity).
  assert (get_lockedBy 10 contended_blocked
          = Some (currTask contended_blocked)) as Ho
    by (vm_compute; reflexivity).
  assert (wtasks (frames contended_blocked) [40; 30] = [4; 3]) as Ht
    by (vm_compute; reflexivity).
  split; [exact Hv|]. split; [exact Ho|]. split; [exact Hw|].
  split; [exact Ht|].
  split; [vm_compute; reflexivity|]. split; [vm_compute; reflexivity|].
  apply (unlockMutex_touches_only_waiters 2 10 contended_blocked 1%Z
           [40; 30] Hv).
  - discriminate.
  - exact Ho.
  - exact Hw.
  - rewrite Ht.
    repeat (apply List.Forall_cons; [vm_compute; eexists; reflexivity|]).
    apply List.Forall_nil.
  - apply le_n.
Defined.

Lemma lockMutex_suspends_witness :
  held 10 locked_w ∧ waiting 10 [] locked_w ∧
  ring [2; 3] locked_w ∧ currTask locked_w = 3 ∧
  ∃ w', lockMutex 2 [] 30 10 locked_w = Suspended w' ∧
        waiting 10 ([] ++ [30]) w' ∧
        currTask w' ∈ [2; 3] ∧ currTask w' ≠ 3 ∧
        get_tState 3 w' = Some READY.
Proof.
  assert (held 10 locked_w) as Hh.
  { exists 1%Z. split; [vm_compute; reflexivity|discriminate]. }
  pose proof waiting_locked_w as Hw.
  assert (30 ∉ @nil nat) as Hn by apply not_elem_of_nil.
  assert (ring [2; 3] locked_w) as Hr by concrete_ring.
  assert (currTask locked_w = 3) as Hc by reflexivity.
  split; [exact Hh|]. split; [exact Hw|]. split; [exact Hr|].
  split; [exact Hc|].
  destruct (lockMutex_suspends 2 30 10 [] [2; 3] locked_w Hh Hw Hn Hr)
    as (w' & H & Hw' & _ & _ & _ & Hin & Hne & _ & Hs & _).
  { rewrite Hc. right. left. }
  { exists 2. split; [left|]. split; [rewrite Hc; discriminate|].
    vm_compute. reflexivity. }
  { apply le_n. }
  rewrite Hc in Hne, Hs.
  exists w'. split; [exact H|]. split; [exact Hw'|]. split; [exact Hin|].
  split; [exact Hne|exact Hs].
Defined.

Lemma lockMutex_alone_spins_witness :
  held 10 main_holds ∧ waiting 10 [] main_holds ∧
  ring [2] main_holds ∧ currTask main_holds = 2 ∧
  lockMutex 5 [] 30 10 main_holds = Fault.
Proof.
  assert (held 10 main_holds) as Hh.
  { exists 1%Z. split; [vm_compute; reflexivity|discriminate]. }
  assert (waiting 10 [] main_holds) as Hw.
  { exists (mkMutex 1%Z 2 (mkNode NULL (LHead 10) (LHead 10))).
    split; [vm_compute; reflexivity|].
    split; [apply NoDup_nil_2|]. split; reflexivity. }
  assert (ring [2] main_holds) as Hr by concrete_ring.
  assert (currTask main_holds = 2) as Hc by reflexivity.
  split; [exact Hh|]. split; [exact Hw|]. split; [exact Hr|].
  split; [exact Hc|].
  apply (lockMutex_alone_spins 5 [] 30 10 [] [2] main_holds Hh Hw).
  - apply not_elem_of_nil.
  - exact Hr.
  - rewrite Hc. left.
  - intros x Hx Hne. rewrite Hc in Hne.
    apply list_elem_of_singleton in Hx. contradiction.
Defined.

Lemma initTask_null_stack_witness :
  3 ≠ NULL ∧ get_tState 3 (default boot created) = Some ALLOC ∧
  initTask 4 NULL 3 (UserFunc 1) 0%Z [] (default boot created) = None.
Proof.
  assert (3 ≠ NULL) as H by discriminate.
  assert (get_tState 3 (default boot created) = Some ALLOC) as H0
    by (vm_compute; reflexivity).
  split; [exact H|]. split; [exact H0|].
  exact (initTask_null_stack 4 3 (UserFunc 1) 0%Z []
           (default boot created) H H0).
Defined.
